(** * FieldStation42 — the VJ/DJ pipeline (docs/starlitetv_backups)

    A shallow embedding of [vj_effects.py] and [vj_pipeline.py] and the
    properties of the pipeline specification checked against it.

    Conventions of the embedding:
    - Python floats (durations, wall-clock seconds, probabilities) are
      rationals [Q]; rounding of the machine representation is not modelled.
    - Every source of non-determinism (the [random] module, subprocess exit
      status, the clock, the file system refusing an operation) is an explicit
      argument of the function that consumes it.
    - The staging directory is the finite set of the [.ts] file names it
      holds; the named audio FIFO is a flag next to it. *)

From Stdlib Require Import ZArith QArith Lqa Lia List.
From Stdlib Require Import DecimalString DecimalPos.
From stdpp Require Import base gmap sets list strings.

#[local] Set Warnings "-clear-no-such-hyp".

Local Open Scope Q_scope.
Local Open Scope nat_scope.
Local Open Scope string_scope.
Local Open Scope list_scope.

(** ** Helpers shared by both source files *)

(** [x < y] and [x <= y] on Python floats. *)
Definition Qltb (x y : Q) : bool := negb (Qle_bool y x).
Definition Qleb (x y : Q) : bool := Qle_bool x y.

(** [random.choice(seq)] is [seq[self._randbelow(len(seq))]]; [k] is the raw
    draw, reduced below the length.  On an empty sequence Python raises
    [IndexError], here [None]. *)
Definition choice {A} (k : nat) (l : list A) : option A :=
  match l with
  | [] => None
  | _ => l !! (k mod length l)
  end.

(** [random.randint(a, b)] is [a + _randbelow(b - a + 1)]; [ValueError] on an
    empty range is [None]. *)
Definition randint (a b k : nat) : option nat :=
  if decide (a <= b) then Some (a + k mod (b - a + 1)) else None.

(** [random.uniform(a, b)] is [a + (b - a) * random()]. *)
Definition uniform (a b r : Q) : Q := (a + (b - a) * r)%Q.

(** Rounding of [q] to an integer, ties to even, as [round] and the float
    formats do. *)
Definition round_half_even (q : Q) : Z :=
  let n := Qnum q in
  let m := Zpos (Qden q) in
  let fl := (n / m)%Z in
  let r2 := (2 * (n mod m))%Z in
  if (r2 <? m)%Z then fl
  else if (m <? r2)%Z then (fl + 1)%Z
  else if Z.even fl then fl else (fl + 1)%Z.

(** ** vj_effects.py *)
Module Effects.

Record effect := Effect { name : string; filter : string }.

Definition LIGHT_EFFECTS : list effect :=
  [ Effect "warm_shift" "colorbalance=rs=0.15:gs=-0.05:bs=-0.1";
    Effect "cool_shift" "colorbalance=rs=-0.1:gs=0.05:bs=0.15";
    Effect "high_saturation" "eq=saturation=1.5";
    Effect "low_saturation" "eq=saturation=0.6";
    Effect "hue_drift" "hue=H=2*PI*t/10";
    Effect "vignette" "vignette=PI/4";
    Effect "soft_blur" "gblur=sigma=1.5";
    Effect "brightness_boost" "eq=brightness=0.08:contrast=1.1";
    Effect "dark_contrast" "eq=brightness=-0.05:contrast=1.3";
    Effect "slight_hue_rotate" "hue=h=30";
    Effect "sepia"
      "colorchannelmixer=.393:.769:.189:0:.349:.686:.168:0:.272:.534:.131" ].

Definition MEDIUM_EFFECTS : list effect :=
  [ Effect "frame_blend" "tblend=all_mode=average";
    Effect "frame_blend_screen" "tblend=all_mode=screen";
    Effect "rgba_shift" "rgbashift=rh=-3:bh=3";
    Effect "film_grain" "noise=alls=20:allf=t+u";
    Effect "cross_process" "curves=preset=cross_process";
    Effect "vintage" "curves=preset=vintage";
    Effect "negative" "curves=preset=negative";
    Effect "chromatic_aberration" "rgbashift=rh=5:rv=-2:bh=-5:bv=2";
    Effect "posterize"
      "lutyuv=y='bitand(val,240)':u='bitand(val,240)':v='bitand(val,240)'";
    Effect "scan_lines" "drawgrid=w=0:h=2:t=1:c=black@0.3";
    Effect "color_bleed" "gblur=sigma=3,rgbashift=rh=8:bh=-8";
    Effect "red_channel" "colorchannelmixer=rr=1:rg=0:rb=0:gg=0:bb=0";
    Effect "blue_channel" "colorchannelmixer=rr=0:gg=0:bb=1:bg=0:br=0" ].

Definition HEAVY_EFFECTS : list effect :=
  [ Effect "edge_glow" "edgedetect=low=0.1:high=0.3:mode=colormix";
    Effect "pixelate"
      "scale=iw/8:ih/8:flags=neighbor,scale=iw*8:ih*8:flags=neighbor";
    Effect "psychedelic_hue" "hue=H=2*PI*t/3:s=3";
    Effect "quad_mirror"
      "crop=iw/2:ih/2:0:0,split[a][b];[a]hflip[c];[b][c]hstack,split[d][e];[d]vflip[f];[e][f]vstack";
    Effect "heavy_trails" "tblend=all_mode=addition:all_opacity=0.7";
    Effect "solarize" "lutyuv=y='if(gt(val,128),256-val,val)*2'";
    Effect "glitch" "noise=alls=40:allf=t,rgbashift=rh=10:rv=5:bh=-10:bv=-3";
    Effect "deep_pixelate"
      "scale=iw/16:ih/16:flags=neighbor,scale=iw*16:ih*16:flags=neighbor" ].

Definition OVERLAY_EFFECTS : list effect := [].

Record profile := Profile {
  tier_weights : Q * Q * Q;
  speed_range : Q * Q;
  overlay_chance : Q;
  blend_modes : list string }.

Definition default_profile : profile :=
  Profile (50#100, 35#100, 15#100)%Q (9#10, 11#10)%Q (40#100)%Q
          ["screen"; "overlay"; "softlight"].

Definition DAYPART_PROFILES : gmap string profile :=
  list_to_map
    [ ("daytime",
       Profile (60#100, 30#100, 10#100)%Q (85#100, 1)%Q (40#100)%Q
               ["screen"; "addition"; "softlight"]);
      ("nighttime",
       Profile (25#100, 40#100, 35#100)%Q (15#10, 22#10)%Q (50#100)%Q
               ["multiply"; "overlay"; "softlight"; "screen"]);
      ("overnight",
       Profile (15#100, 30#100, 55#100)%Q (15#10, 25#10)%Q (55#100)%Q
               ["difference"; "hardlight"; "exclusion"; "multiply"]);
      ("default", default_profile) ].

(** [DAYPART_PROFILES.get(daypart, DAYPART_PROFILES["default"])]; the
    daypart is a name or Python's [None]. *)
Definition get_profile (daypart : option string) : profile :=
  default (default default_profile (DAYPART_PROFILES !! "default"))
          (daypart ≫= fun d => DAYPART_PROFILES !! d).

(** Effects that clash. *)
Definition INCOMPATIBLE_PAIRS : list (gset string) :=
  [ {[ "edge_glow"; "high_saturation" ]} ].

Inductive tier := Light | Medium | Heavy.

Definition pool_of (t : tier) : list effect :=
  match t with
  | Light => LIGHT_EFFECTS
  | Medium => MEDIUM_EFFECTS
  | Heavy => HEAVY_EFFECTS
  end.

(** The loop variables of [pick_effects]. *)
Record pick_state := PickState {
  chosen : list effect;
  chosen_names : gset string;
  medium_count : nat;
  heavy_count : nat }.

(** The tier drawn by [roll], before the caps. *)
Definition rolled_tier (light_w medium_threshold roll : Q) : tier :=
  if Qltb roll light_w then Light
  else if Qltb roll medium_threshold then Medium
  else Heavy.

(** "Enforce tier limits". *)
Definition capped_tier (t : tier) (st : pick_state) : tier :=
  match t with
  | Medium => if decide (2 <= medium_count st) then Light else Medium
  | Heavy =>
      if decide (1 <= heavy_count st)
      then (if decide (medium_count st < 2) then Medium else Light)
      else Heavy
  | Light => Light
  end.

(** "Filter out incompatible effects": the partners of what is chosen. *)
Definition blocked (names : gset string) : gset string :=
  foldl (fun acc pair =>
           let overlap := names ∩ pair in
           if decide (overlap = ∅) then acc else acc ∪ (pair ∖ overlap))
        ∅ INCOMPATIBLE_PAIRS.

Definition eligible (pool : list effect) (names : gset string) : list effect :=
  match List.filter (fun e => bool_decide (name e ∉ blocked names)) pool with
  | [] => pool
  | l => l
  end.

(** One pass of the [for _ in range(count)] body; [roll] is the value of
    [random.random()] and [k] the draw behind [random.choice]. *)
Definition pick_step (light_w medium_threshold : Q)
    (st : pick_state) (roll : Q) (k : nat) : option pick_state :=
  let t := capped_tier (rolled_tier light_w medium_threshold roll) st in
  match choice k (eligible (pool_of t) (chosen_names st)) with
  | None => None
  | Some e =>
      Some {| chosen := chosen st ++ [e];
              chosen_names := chosen_names st ∪ {[ name e ]};
              medium_count := match t with Medium => S (medium_count st)
                                       | _ => medium_count st end;
              heavy_count := match t with Heavy => S (heavy_count st)
                                      | _ => heavy_count st end |}
  end.

Fixpoint pick_loop (light_w medium_threshold : Q)
    (rolls : nat -> Q) (picks : nat -> nat)
    (n i : nat) (st : pick_state) : option pick_state :=
  match n with
  | O => Some st
  | S n' =>
      match pick_step light_w medium_threshold st (rolls i) (picks i) with
      | None => None
      | Some st' => pick_loop light_w medium_threshold rolls picks n' (S i) st'
      end
  end.

(** The random draws one call of [pick_effects] consumes. *)
Record draws := Draws {
  count_draw : nat;        (* behind [random.randint(min_count, max_count)] *)
  rolls : nat -> Q;        (* [random.random()] of the i-th pass *)
  picks : nat -> nat }.    (* behind [random.choice(eligible)] of the i-th pass *)

Definition pick_effects (min_count max_count : nat)
    (daypart : option string) (d : draws) : option (list effect) :=
  let p := get_profile daypart in
  let light_w := (tier_weights p).1.1 in
  let medium_threshold := (light_w + (tier_weights p).1.2)%Q in
  match randint min_count max_count (count_draw d) with
  | None => None
  | Some count =>
      chosen <$> pick_loop light_w medium_threshold (rolls d) (picks d)
                   count 0 (PickState [] ∅ 0 0)
  end.

(** [OVERLAY_EFFECTS] is empty, so the 30% branch is never taken. *)
Definition pick_overlay_effects (min_count max_count : nat)
    (daypart : option string) (d : draws) (extra_roll : Q) (extra_pick : nat)
    : option (list effect) :=
  match pick_effects min_count max_count daypart d with
  | None => None
  | Some effects =>
      match OVERLAY_EFFECTS with
      | [] => Some effects
      | _ => if Qltb extra_roll (30#100)
             then (fun e => effects ++ [e]) <$> choice extra_pick OVERLAY_EFFECTS
             else Some effects
      end
  end.

(** [round(random.uniform(low, high), 2)]. *)
Definition pick_speed (daypart : option string) (roll : Q) : Q :=
  let range := speed_range (get_profile daypart) in
  round_half_even (uniform range.1 range.2 roll * 100)%Q # 100.

Definition should_overlay (daypart : option string) (roll : Q) : bool :=
  Qltb roll (overlay_chance (get_profile daypart)).

Definition pick_blend_mode (daypart : option string) (k : nat)
    : option string :=
  choice k (blend_modes (get_profile daypart)).

Definition build_filter_string (effects : list effect) : string :=
  String.concat "," (map filter effects).

Definition effect_names (effects : list effect) : list string :=
  map name effects.

(** The tier an effect belongs to, by the table that lists its name. *)
Definition tier_of (e : effect) : option tier :=
  if bool_decide (name e ∈ map name LIGHT_EFFECTS) then Some Light
  else if bool_decide (name e ∈ map name MEDIUM_EFFECTS) then Some Medium
  else if bool_decide (name e ∈ map name HEAVY_EFFECTS) then Some Heavy
  else None.

Definition is_tier (t : tier) (e : effect) : bool :=
  match tier_of e, t with
  | Some Light, Light | Some Medium, Medium | Some Heavy, Heavy => true
  | _, _ => false
  end.

Definition count_tier (t : tier) (l : list effect) : nat :=
  length (List.filter (is_tier t) l).

(** No two distinct members of one incompatible pair are both in [names]. *)
Definition compatible (names : list string) : Prop :=
  forall pair a b,
    pair ∈ INCOMPATIBLE_PAIRS -> a ∈ pair -> b ∈ pair -> a <> b ->
    ~ (a ∈ names /\ b ∈ names).

(** What the loop of [pick_effects] maintains. *)
Record pick_inv (st : pick_state) : Prop := PickInv {
  inv_names : forall x, x ∈ chosen_names st <-> x ∈ effect_names (chosen st);
  inv_medium : medium_count st = count_tier Medium (chosen st);
  inv_heavy : heavy_count st = count_tier Heavy (chosen st);
  inv_medium_cap : medium_count st <= 2;
  inv_heavy_cap : heavy_count st <= 1;
  inv_compat : compatible (effect_names (chosen st)) }.

(** The three tables together. *)
Definition catalogue : list effect :=
  LIGHT_EFFECTS ++ MEDIUM_EFFECTS ++ HEAVY_EFFECTS.

End Effects.

(** ** vj_pipeline.py: broadcast hours *)
Module Clock.
Local Open Scope Z_scope.

(** A naive [datetime.datetime]: the proleptic day number and the fields
    of the time of day. *)
Record datetime := DateTime {
  day : Z; hour : Z; minute : Z; second : Z; microsecond : Z }.

Definition valid (t : datetime) : Prop :=
  0 <= hour t < 24 /\ 0 <= minute t < 60 /\ 0 <= second t < 60 /\
  0 <= microsecond t < 1000000.

(** Microseconds since midnight of day 0; the order and the difference of
    datetimes are those of this number. *)
Definition to_micros (t : datetime) : Z :=
  (((day t * 24 + hour t) * 60 + minute t) * 60 + second t) * 1000000
  + microsecond t.

(** [(a - b).total_seconds()]. *)
Definition total_seconds (a b : datetime) : Q :=
  (to_micros a - to_micros b) # 1000000.

Definition BROADCAST_START : Z := 10.
Definition BROADCAST_END : Z := 2.

Definition is_on_air (now : datetime) : bool :=
  (BROADCAST_START <=? hour now) || (hour now <? BROADCAST_END).

(** [now.replace(hour=BROADCAST_START, minute=0, second=0, microsecond=0)],
    one day later when [now.hour < BROADCAST_END]. *)
Definition sign_on (now : datetime) : datetime :=
  let anchor := DateTime (day now) BROADCAST_START 0 0 0 in
  if BROADCAST_END <=? hour now then anchor
  else DateTime (day anchor + 1) (hour anchor) (minute anchor)
                (second anchor) (microsecond anchor).

Definition wait_secs (now : datetime) : Q :=
  total_seconds (sign_on now) now.

(** [wait_for_broadcast]: the argument of [time.sleep], if it sleeps. *)
Definition wait_for_broadcast (now : datetime) : option Q :=
  if Qltb 0 (wait_secs now) then Some (wait_secs now) else None.

(** A 10:00 boundary of some day. *)
Definition ten_oclock (t : datetime) : Prop :=
  hour t = BROADCAST_START /\ minute t = 0 /\ second t = 0 /\
  microsecond t = 0.

(** [t] is the earliest 10:00 that is not earlier than [now]. *)
Definition next_sign_on (now t : datetime) : Prop :=
  ten_oclock t /\ to_micros now <= to_micros t /\
  forall t', ten_oclock t' -> to_micros now <= to_micros t' ->
             to_micros t <= to_micros t'.
End Clock.

(** ** vj_pipeline.py: clip selection *)
Module Clips.
Local Open Scope Q_scope.

(** An entry of [scan_media_files]: path and probed duration. *)
Definition media : Type := string * Q.

(** The tuple [(path, seek_start, use_duration, needs_loop)]. *)
Record clip_plan := ClipPlan {
  plan_path : string;
  seek_start : Q;
  use_duration : Q;
  needs_loop : bool }.

(** The random draws of one call of [pick_clip]. *)
Record clip_draws := ClipDraws {
  clip_pick : nat;    (* behind [random.choice(clips)] *)
  dur_roll : Q;       (* [random()] behind [uniform(min_dur, max_dur)] *)
  start_roll : Q }.   (* [random()] behind [uniform(0, max_start)] *)

Definition pick_clip (clips : list media) (min_dur max_dur : Q)
    (d : clip_draws) : option clip_plan :=
  match choice (clip_pick d) clips with
  | None => None
  | Some (clip_path, clip_dur) =>
      let use_dur := uniform min_dur max_dur (dur_roll d) in
      if Qleb clip_dur use_dur then Some (ClipPlan clip_path 0 clip_dur true)
      else
        let max_start := clip_dur - use_dur in
        let start := if Qltb 1 max_start
                     then uniform 0 max_start (start_roll d) else 0 in
        Some (ClipPlan clip_path start use_dur false)
  end.
End Clips.

(** ** vj_pipeline.py: the encoder command lines *)
Module Render.
Import Effects.

(** [str(n)] of a Python int. *)
Definition str_int (z : Z) : string := NilZero.string_of_int (Z.to_int z).

(** Left padding with zeros up to [width] characters, as the [0<width>]
    format flag does. *)
Definition zero_pad (width : nat) (s : string) : string :=
  String.concat "" (repeat "0" (width - String.length s)) +:+ s.

(** [f"{q:.<digits>f}"]. *)
Definition format_fixed (digits : nat) (q : Q) : string :=
  let scale := (10 ^ Z.of_nat digits)%Z in
  let n := round_half_even (q * inject_Z scale)%Q in
  let a := Z.abs n in
  (if (n <? 0)%Z then "-" else "")
  +:+ str_int (a / scale)
  +:+ match digits with
      | O => ""
      | _ => "." +:+ zero_pad digits (str_int (a mod scale))
      end.

(** [f"{speed}"]: the [repr] of a float that [round(_, 2)] produced, that
    is its decimals without trailing zeros, one decimal at least. *)
Definition format_repr2 (q : Q) : string :=
  let n := round_half_even (q * 100)%Q in
  let a := Z.abs n in
  let frac := (a mod 100)%Z in
  (if (n <? 0)%Z then "-" else "")
  +:+ str_int (a / 100) +:+ "."
  +:+ (if (frac mod 10 =? 0)%Z then str_int (frac / 10)
       else zero_pad 2 (str_int frac)).

Record video_cfg := VideoCfg {
  width : Z; height : Z; fps : Z;
  codec : string; preset : string; bitrate : string; pix_fmt : string }.

(** [bug_path and os.path.exists(bug_path)]: a missing key or an empty
    string is falsy; [path_exists] is the file system's answer. *)
Definition bug_present (bug_path : option string)
    (path_exists : string -> bool) : bool :=
  match bug_path with
  | Some p => negb (String.eqb p "") && path_exists p
  | None => false
  end.

Definition _build_scale_filter (video : video_cfg) : string :=
  "scale=" +:+ str_int (width video) +:+ ":" +:+ str_int (height video)
  +:+ ":force_original_aspect_ratio=decrease,"
  +:+ "pad=" +:+ str_int (width video) +:+ ":" +:+ str_int (height video)
  +:+ ":(ow-iw)/2:(oh-ih)/2,"
  +:+ "setsar=1".

(** The scale, speed and fps prefix, followed by the effect chain if any. *)
Definition clip_filters (video : video_cfg) (speed : Q)
    (effect_str : string) : string :=
  let vf := _build_scale_filter video +:+ ",setpts=" +:+ format_repr2 speed
            +:+ "*PTS,fps=" +:+ str_int (fps video) in
  if String.eqb effect_str "" then vf else vf +:+ "," +:+ effect_str.

(** The [cmd] list of [render_clip]. *)
Definition render_clip_cmd (video : video_cfg) (bug : option string)
    (path_exists : string -> bool)
    (clip_path : string) (clip_start clip_dur : Q) (needs_loop : bool)
    (effects : list effect) (output_path : string)
    (ts_offset speed : Q) : list string :=
  let effect_str := build_filter_string effects in
  let vf := clip_filters video speed effect_str in
  ["ffmpeg"; "-y"; "-hide_banner"; "-loglevel"; "warning"]
  ++ (if needs_loop then ["-stream_loop"; "-1"] else [])
  ++ ["-ss"; format_fixed 2 clip_start; "-t"; format_fixed 2 clip_dur;
      "-i"; clip_path]
  ++ (if bug_present bug path_exists
      then ["-i"; default "" bug;
            "-filter_complex";
            "[0:v]" +:+ vf +:+ "[vid];"
            +:+ "[1:v]colorchannelmixer=aa=0.5[bug];[vid][bug]overlay=W-w-45:H-h-40[out]";
            "-map"; "[out]"]
      else ["-vf"; vf])
  ++ ["-an";
      "-c:v"; codec video;
      "-preset"; preset video;
      "-b:v"; bitrate video;
      "-g"; str_int (fps video * 4);
      "-pix_fmt"; pix_fmt video;
      "-output_ts_offset"; format_fixed 3 ts_offset;
      "-f"; "mpegts";
      output_path].

(** The [cmd] list of [render_overlay_clip]. *)
Definition render_overlay_clip_cmd (video : video_cfg) (bug : option string)
    (path_exists : string -> bool)
    (clip1_path : string) (clip1_start : Q)
    (clip2_path : string) (clip2_start : Q) (clip_dur : Q)
    (effects : list effect) (blend_mode : string) (output_path : string)
    (ts_offset speed : Q) : list string :=
  let effect_str := build_filter_string effects in
  let base_filters := clip_filters video speed effect_str in
  let top_filters := clip_filters video speed "" in
  let filter_complex :=
    if bug_present bug path_exists
    then "[0:v]" +:+ base_filters +:+ "[base];"
         +:+ "[1:v]" +:+ top_filters +:+ "[top];"
         +:+ "[base][top]blend=all_mode=" +:+ blend_mode +:+ "[blended];"
         +:+ "[2:v]colorchannelmixer=aa=0.5[bug];[blended][bug]overlay=W-w-45:H-h-40[out]"
    else "[0:v]" +:+ base_filters +:+ "[base];"
         +:+ "[1:v]" +:+ top_filters +:+ "[top];"
         +:+ "[base][top]blend=all_mode=" +:+ blend_mode +:+ "[out]" in
  ["ffmpeg"; "-y"; "-hide_banner"; "-loglevel"; "warning";
   "-ss"; format_fixed 2 clip1_start; "-t"; format_fixed 2 clip_dur;
   "-i"; clip1_path;
   "-ss"; format_fixed 2 clip2_start; "-t"; format_fixed 2 clip_dur;
   "-i"; clip2_path]
  ++ (if bug_present bug path_exists then ["-i"; default "" bug] else [])
  ++ ["-filter_complex"; filter_complex;
      "-map"; "[out]";
      "-an";
      "-c:v"; codec video;
      "-preset"; preset video;
      "-b:v"; bitrate video;
      "-pix_fmt"; pix_fmt video;
      "-output_ts_offset"; format_fixed 3 ts_offset;
      "-f"; "mpegts";
      output_path].

(** The [cmd] list of [render_bumper]. *)
Definition render_bumper_cmd (video : video_cfg) (bumper_path : string)
    (output_path : string) (ts_offset : Q) : list string :=
  ["ffmpeg"; "-y"; "-hide_banner"; "-loglevel"; "warning";
   "-i"; bumper_path]
  ++ ["-vf"; _build_scale_filter video +:+ ",fps=" +:+ str_int (fps video)]
  ++ ["-an";
      "-c:v"; codec video;
      "-preset"; preset video;
      "-b:v"; bitrate video;
      "-g"; str_int (fps video * 4);
      "-pix_fmt"; pix_fmt video;
      "-output_ts_offset"; format_fixed 3 ts_offset;
      "-f"; "mpegts";
      output_path].

(** [cmd] passes the option [flag] with the argument [value]. *)
Definition passes_option (cmd : list string) (flag value : string) : Prop :=
  exists pre post, cmd = pre ++ flag :: value :: post.

End Render.

(** ** vj_pipeline.py: the main loop and its helpers *)
Module Conductor.
Import Effects Clips Render.
Local Open Scope Q_scope.

Definition MAX_STAGING_FILES : nat := 30.
Definition WATCHDOG_TIMEOUT : Q := 90.
Definition prebuffer_size : nat := 4.
(** [queue.Queue(maxsize=20)]. *)
Definition FEED_QUEUE_MAXSIZE : nat := 20.

Inductive render_kind := BumperRender | ClipRender | OverlayRender.

(** What the main thread does to the outside world, in order. *)
Inductive event :=
| EvRender (kind : render_kind) (cmd : list string) (timeout : nat)
| EvSleep (secs : Q)
| EvStartMusic
| EvStopMusic
| EvSpawnStreamer (proc : nat)
| EvKillStreamer (proc : nat).

(** The variables of [main] that the loop and its closures share, the feed
    queue, the item the feeder thread has taken from it and not yet
    unlinked, the [.ts] files of the staging directory, the audio FIFO, and
    the actions performed so far.  [music_thread] stands for
    [music_thread and music_thread.is_alive()]. *)
Record state := State {
  seq : nat;
  cumulative_ts : Q;
  last_bumper_time : Q;
  streamer_proc : option nat;
  music_thread : bool;
  prebuffer : list string;
  feed_queue : list (string * nat);
  feeding : option (string * nat);
  last_feed_time : Q;
  staging : gset string;
  audio_fifo : bool;
  trace : list event }.

Definition set_seq (v : nat) (s : state) : state :=
  State v (cumulative_ts s) (last_bumper_time s) (streamer_proc s)
    (music_thread s) (prebuffer s) (feed_queue s) (feeding s)
    (last_feed_time s) (staging s) (audio_fifo s) (trace s).
Definition set_cumulative_ts (v : Q) (s : state) : state :=
  State (seq s) v (last_bumper_time s) (streamer_proc s) (music_thread s)
    (prebuffer s) (feed_queue s) (feeding s) (last_feed_time s) (staging s)
    (audio_fifo s) (trace s).
Definition set_last_bumper_time (v : Q) (s : state) : state :=
  State (seq s) (cumulative_ts s) v (streamer_proc s) (music_thread s)
    (prebuffer s) (feed_queue s) (feeding s) (last_feed_time s) (staging s)
    (audio_fifo s) (trace s).
Definition set_streamer_proc (v : option nat) (s : state) : state :=
  State (seq s) (cumulative_ts s) (last_bumper_time s) v (music_thread s)
    (prebuffer s) (feed_queue s) (feeding s) (last_feed_time s) (staging s)
    (audio_fifo s) (trace s).
Definition set_music_thread (v : bool) (s : state) : state :=
  State (seq s) (cumulative_ts s) (last_bumper_time s) (streamer_proc s) v
    (prebuffer s) (feed_queue s) (feeding s) (last_feed_time s) (staging s)
    (audio_fifo s) (trace s).
Definition set_prebuffer (v : list string) (s : state) : state :=
  State (seq s) (cumulative_ts s) (last_bumper_time s) (streamer_proc s)
    (music_thread s) v (feed_queue s) (feeding s) (last_feed_time s)
    (staging s) (audio_fifo s) (trace s).
Definition set_feed_queue (v : list (string * nat)) (s : state) : state :=
  State (seq s) (cumulative_ts s) (last_bumper_time s) (streamer_proc s)
    (music_thread s) (prebuffer s) v (feeding s) (last_feed_time s)
    (staging s) (audio_fifo s) (trace s).
Definition set_feeding (v : option (string * nat)) (s : state) : state :=
  State (seq s) (cumulative_ts s) (last_bumper_time s) (streamer_proc s)
    (music_thread s) (prebuffer s) (feed_queue s) v (last_feed_time s)
    (staging s) (audio_fifo s) (trace s).
Definition set_last_feed_time (v : Q) (s : state) : state :=
  State (seq s) (cumulative_ts s) (last_bumper_time s) (streamer_proc s)
    (music_thread s) (prebuffer s) (feed_queue s) (feeding s) v (staging s)
    (audio_fifo s) (trace s).
Definition set_staging (v : gset string) (s : state) : state :=
  State (seq s) (cumulative_ts s) (last_bumper_time s) (streamer_proc s)
    (music_thread s) (prebuffer s) (feed_queue s) (feeding s)
    (last_feed_time s) v (audio_fifo s) (trace s).
Definition set_audio_fifo (v : bool) (s : state) : state :=
  State (seq s) (cumulative_ts s) (last_bumper_time s) (streamer_proc s)
    (music_thread s) (prebuffer s) (feed_queue s) (feeding s)
    (last_feed_time s) (staging s) v (trace s).
Definition log (e : event) (s : state) : state :=
  State (seq s) (cumulative_ts s) (last_bumper_time s) (streamer_proc s)
    (music_thread s) (prebuffer s) (feed_queue s) (feeding s)
    (last_feed_time s) (staging s) (audio_fifo s) (trace s ++ [e]).

(** The state [main] enters its loop with: the staging directory is taken
    as it is found ([os.makedirs(staging_dir, exist_ok=True)], no clean-up
    of its [.ts] files) and the FIFO has just been created. *)
Definition initial_state (found : gset string) (started : Q) : state :=
  State 0 0 0 None false [] [] None started found true [].

(** A step of the main thread either completes or raises, leaving the state
    it reached. *)
Inductive outcome := Ok (s : state) | Raise (s : state).

Definition bind (o : outcome) (f : state -> outcome) : outcome :=
  match o with
  | Ok s => f s
  | Raise s => Raise s
  end.

(** *** Staging files *)

Definition staging_dir : string := "staging".

(** [os.path.join(staging_dir, f"clip_{seq:06d}.ts")]. *)
Definition ts_path (n : nat) : string :=
  staging_dir +:+ "/clip_" +:+ zero_pad 6 (str_int (Z.of_nat n)) +:+ ".ts".

(** [os.unlink(path)] inside [try ... except OSError: pass]: the file is
    gone afterwards, whether or not it was there. *)
Definition unlink_ts (path : string) (s : state) : state :=
  set_staging (staging s ∖ {[ path ]}) s.

(** [count_staging_files]. *)
Definition count_staging_files (s : state) : nat := size (staging s).

(** *** Renders *)

(** How [subprocess.run] ended: with a return code, or by raising
    ([TimeoutExpired] after [timeout] seconds, [OSError]). *)
Inductive run_result := Returned (returncode : Z) | RunRaised.

(** The encoder run as the renderer sees it: its end, and whether it left
    an output file, complete or partial. *)
Record run_outcome := RunOutcome {
  run_end : run_result;
  wrote_output : bool }.

Definition succeeded (o : run_outcome) : bool :=
  match run_end o with
  | Returned Z0 => true
  | _ => false
  end.

(** The common tail of the three render functions: run the command, and on
    a non-zero return code or an exception unlink the output and return
    [False]. *)
Definition run_encoder (kind : render_kind) (cmd : list string)
    (timeout : nat) (output_path : string) (o : run_outcome) (s : state)
    : bool * state :=
  let s1 := log (EvRender kind cmd timeout) s in
  let s2 := if wrote_output o
            then set_staging ({[ output_path ]} ∪ staging s1) s1 else s1 in
  if succeeded o then (true, s2) else (false, unlink_ts output_path s2).

Record config := Config {
  video : video_cfg;
  bug_path : option string;
  clip_min_duration : Q;
  clip_max_duration : Q;
  effects_per_clip_min : nat;
  effects_per_clip_max : nat;
  (** [cfg["bumpers"].get("min_interval_minutes", 10)] *)
  min_interval_minutes : option Q }.

Definition render_clip (cfg : config) (path_exists : string -> bool)
    (plan : clip_plan) (effects : list effect) (output_path : string)
    (ts_offset speed : Q) (o : run_outcome) (s : state) : bool * state :=
  run_encoder ClipRender
    (render_clip_cmd (video cfg) (bug_path cfg) path_exists
       (plan_path plan) (seek_start plan) (use_duration plan)
       (needs_loop plan) effects output_path ts_offset speed)
    300 output_path o s.

Definition render_overlay_clip (cfg : config) (path_exists : string -> bool)
    (clip1_path : string) (clip1_start : Q)
    (clip2_path : string) (clip2_start : Q) (clip_dur : Q)
    (effects : list effect) (blend_mode : string) (output_path : string)
    (ts_offset speed : Q) (o : run_outcome) (s : state) : bool * state :=
  run_encoder OverlayRender
    (render_overlay_clip_cmd (video cfg) (bug_path cfg) path_exists
       clip1_path clip1_start clip2_path clip2_start clip_dur
       effects blend_mode output_path ts_offset speed)
    600 output_path o s.

Definition render_bumper (cfg : config) (bumper_path : string)
    (output_path : string) (ts_offset : Q) (o : run_outcome) (s : state)
    : bool * state :=
  run_encoder BumperRender
    (render_bumper_cmd (video cfg) bumper_path output_path ts_offset)
    300 output_path o s.

(** *** Music thread, feeder thread *)

Definition start_music (s : state) : state :=
  log EvStartMusic (set_music_thread true s).

(** [if music_thread and music_thread.is_alive(): set(); join(timeout=10)].
    [joined] tells whether the worker has returned when the join does; a
    worker blocked on the FIFO, in [open] or in a write, outlives the ten
    seconds, and nothing looks at it afterwards. *)
Definition stop_music (joined : bool) (s : state) : state :=
  if music_thread s
  then log EvStopMusic (set_music_thread (negb joined) s)
  else s.

(** [item = feed_queue.get()] of [feeder_worker]: the thread takes the
    oldest item, if it holds none and there is one; the slot of the queue is
    free from then on, the file stays until the feed is over. *)
Definition feeder_take (s : state) : state :=
  match feeding s, feed_queue s with
  | None, item :: rest => set_feeding (Some item) (set_feed_queue rest s)
  | _, _ => s
  end.

(** The rest of the pass for the item taken: [fed] is what [feed_streamer]
    returned, [now] the clock after it; then the file is unlinked. *)
Definition feeder_finish (fed : bool) (now : Q) (s : state) : state :=
  match feeding s with
  | None => s
  | Some (path, _) =>
      let s1 := set_feeding None s in
      let s2 := if fed then set_last_feed_time now s1 else s1 in
      unlink_ts path s2
  end.

(** A whole pass of [feeder_worker], from a thread that holds no item: take
    the oldest item, feed it ([fed] is the result of [feed_streamer], [now]
    the clock after it), unlink it. *)
Definition feeder_step (fed : bool) (now : Q) (s : state) : state :=
  match feed_queue s with
  | [] => s
  | (path, _) :: rest =>
      let s1 := set_feed_queue rest s in
      let s2 := if fed then set_last_feed_time now s1 else s1 in
      unlink_ts path s2
  end.

(** *** Watchdog recovery *)

(** The sub-steps of the [try] block of [recover_streamer] before the FIFO
    is recreated. *)
Inductive cleanup_step :=
  KillStreamer | StopMusic | Settle | DrainQueue | CleanStaging.

Global Instance cleanup_step_eq_dec : EqDecision cleanup_step.
Proof. solve_decision. Defined.

(** What one call of [recover_streamer] meets. *)
Record recovery_env := RecoveryEnv {
  (** the sub-step that raises, if one does *)
  fault : option cleanup_step;
  (** [streamer_proc.poll() is None] *)
  streamer_alive : bool;
  (** whether the system lets [os.mkfifo] create the FIFO, in the [try]
      block and in the handler's retry *)
  mkfifo_ok : bool;
  mkfifo_retry_ok : bool;
  (** [time.time()] at the final reset *)
  recovered_at : Q;
  (** whether the music worker returns within the ten seconds of
      [music_thread.join(timeout=10)] *)
  music_joined : bool }.

Definition attempt (env : recovery_env) (k : cleanup_step)
    (f : state -> state) (s : state) : outcome :=
  if decide (fault env = Some k) then Raise s else Ok (f s).

Definition kill_streamer (alive : bool) (s : state) : state :=
  match streamer_proc s with
  | Some proc => if alive then log (EvKillStreamer proc) s else s
  | None => s
  end.

Definition drain_queue (s : state) : state :=
  set_feed_queue []
    (foldl (fun acc item => unlink_ts item.1 acc) s (feed_queue s)).

(** [os.mkfifo]: [FileExistsError] on an existing path, otherwise at the
    mercy of the system. *)
Definition mkfifo (allowed : bool) (s : state) : outcome :=
  if audio_fifo s then Raise s
  else if allowed then Ok (set_audio_fifo true s) else Raise s.

Definition recovery_try (env : recovery_env) (s : state) : outcome :=
  bind (attempt env KillStreamer
          (fun s => set_streamer_proc None (kill_streamer (streamer_alive env) s)) s)
  (fun s => bind (attempt env StopMusic (stop_music (music_joined env)) s)
  (fun s => bind (attempt env Settle (log (EvSleep 1)) s)
  (fun s => bind (attempt env DrainQueue drain_queue s)
  (fun s => bind (attempt env CleanStaging (set_staging ∅) s)
  (fun s => mkfifo (mkfifo_ok env) (set_audio_fifo false s)))))).

(** The [except Exception] handler. *)
Definition recovery_handler (env : recovery_env) (s : state) : state :=
  let s1 := set_streamer_proc None s in
  if audio_fifo s1 then s1
  else match mkfifo (mkfifo_retry_ok env) s1 with
       | Ok s2 => s2
       | Raise s2 => s2
       end.

Definition recover_streamer (env : recovery_env) (s : state) : state :=
  let s1 := match recovery_try env s with
            | Ok s' => s'
            | Raise s' => recovery_handler env s'
            end in
  set_last_feed_time (recovered_at env)
    (set_prebuffer [] (set_cumulative_ts 0 s1)).

(** *** Pre-buffer and queue *)

(** [proc] is the handle [start_streamer] returns, [now] the clock after. *)
Definition start_streamer_and_flush (proc : nat) (now : Q) (s : state)
    : state :=
  let s1 := start_music s in
  let s2 := log (EvSleep (1 # 2)) s1 in
  let s3 := set_streamer_proc (Some proc) (log (EvSpawnStreamer proc) s2) in
  let s4 := set_last_feed_time now s3 in
  let s5 := set_feed_queue
              (feed_queue s4 ++ map (fun ts => (ts, proc)) (prebuffer s4)) s4 in
  set_prebuffer [] s5.

(** What one call of [queue_clip] meets. *)
Record queue_env := QueueEnv {
  new_proc : nat;            (* handle of the streamer, if one is started *)
  started_at : Q;            (* [time.time()] after the start *)
  put_timed_out : bool;      (* the feeder freed no slot within 90 s *)
  feeder_fed : bool;         (* otherwise: how the feed it was at ended *)
  feeder_at : Q;
  on_full : recovery_env }.

(** [feed_queue.put(item, timeout=WATCHDOG_TIMEOUT)]: on a full queue the
    put completes once the feeder, done with the item it holds, has taken
    the next one, or raises [queue.Full]. *)
Definition queue_clip (e : queue_env) (path : string) (s : state) : state :=
  match streamer_proc s with
  | None =>
      let s1 := set_prebuffer (prebuffer s ++ [path]) s in
      if decide (prebuffer_size <= length (prebuffer s1))%nat
      then start_streamer_and_flush (new_proc e) (started_at e) s1
      else s1
  | Some proc =>
      if decide (FEED_QUEUE_MAXSIZE <= length (feed_queue s))%nat then
        if put_timed_out e then recover_streamer (on_full e) s
        else
          let s1 := feeder_take
                      (feeder_finish (feeder_fed e) (feeder_at e) s) in
          set_feed_queue (feed_queue s1 ++ [(path, proc)]) s1
      else set_feed_queue (feed_queue s ++ [(path, proc)]) s
  end.

(** *** The loop body *)

(** What a render step hands on: a fragment to queue, nothing (the render
    failed or none was due), or an exception. *)
Inductive rendered :=
| Fragment (path : string) (s : state)
| NoFragment (s : state)
| Failed (s : state).

Definition enqueue (e : queue_env) (r : rendered) : outcome :=
  match r with
  | Fragment path s => Ok (queue_clip e path s)
  | NoFragment s => Ok s
  | Failed s => Raise s
  end.

(** What the bumper branch of one iteration meets. *)
Record bumper_env := BumperEnv {
  bumper_now : Q;            (* [now = time.time()] *)
  bumper_pick : nat;         (* behind [random.choice(bumper_files)] *)
  bumper_run : run_outcome;
  bumper_done : Q;           (* [time.time()] after the render *)
  bumper_queue : queue_env }.

(** The condition of "Check if bumper is due (time-based)". *)
Definition bumper_due (cfg : config) (bumper_files : list media)
    (now : Q) (s : state) : bool :=
  match bumper_files with [] => false | _ => true end
  && Qltb 0 (last_bumper_time s)
  && Qleb (default 10 (min_interval_minutes cfg) * 60)
          (now - last_bumper_time s).

Definition render_bumper_step (cfg : config) (bumper_files : list media)
    (e : bumper_env) (s : state) : rendered :=
  if bumper_due cfg bumper_files (bumper_now e) s then
    match choice (bumper_pick e) bumper_files with
    | None => Failed s
    | Some (bumper_path, bumper_dur) =>
        let s1 := set_seq (S (seq s)) s in
        let path := ts_path (seq s1) in
        let (ok, s2) := render_bumper cfg bumper_path path
                          (cumulative_ts s1) (bumper_run e) s1 in
        if ok
        then Fragment path
               (set_last_bumper_time (bumper_done e)
                  (set_cumulative_ts (cumulative_ts s2 + bumper_dur) s2))
        else NoFragment s2
    end
  else if Qeq_bool (last_bumper_time s) 0
       then NoFragment (set_last_bumper_time (bumper_done e) s)
       else NoFragment s.

Definition bumper_phase (cfg : config) (bumper_files : list media)
    (e : bumper_env) (s : state) : outcome :=
  enqueue (bumper_queue e) (render_bumper_step cfg bumper_files e s).

(** What the clip part of one iteration meets. *)
Record clip_env := ClipEnv {
  active_clips : list media;     (* [get_daypart_clips(cfg, clip_files)] *)
  dp_name : option string;       (* name of [get_current_daypart(cfg)] *)
  speed_roll : Q;
  primary : clip_draws;
  fx : draws;
  overlay_roll : Q;
  secondary : clip_draws;
  blend_pick : nat;
  overlay_fx : draws;
  overlay_extra_roll : Q;
  overlay_extra_pick : nat;
  path_exists : string -> bool;  (* [os.path.exists] *)
  clip_run : run_outcome;
  clip_queue : queue_env }.

Definition render_clip_step (cfg : config) (e : clip_env) (s : state)
    : rendered :=
  let speed := pick_speed (dp_name e) (speed_roll e) in
  match pick_clip (active_clips e) (clip_min_duration cfg)
          (clip_max_duration cfg) (primary e) with
  | None => Failed s
  | Some plan =>
  match pick_effects (effects_per_clip_min cfg) (effects_per_clip_max cfg)
          (dp_name e) (fx e) with
  | None => Failed s
  | Some effects =>
      let s1 := set_seq (S (seq s)) s in
      let path := ts_path (seq s1) in
      let output_dur := use_duration plan * speed in
      if should_overlay (dp_name e) (overlay_roll e)
         && bool_decide (2 <= length (active_clips e))%nat
      then
        match pick_clip (active_clips e) (clip_min_duration cfg)
                (clip_max_duration cfg) (secondary e),
              pick_blend_mode (dp_name e) (blend_pick e),
              pick_overlay_effects (effects_per_clip_min cfg)
                (effects_per_clip_max cfg) (dp_name e) (overlay_fx e)
                (overlay_extra_roll e) (overlay_extra_pick e) with
        | Some plan2, Some blend_mode, Some effects2 =>
            let (ok, s2) :=
              render_overlay_clip cfg (path_exists e)
                (plan_path plan) (seek_start plan)
                (plan_path plan2) (seek_start plan2) (use_duration plan)
                effects2 blend_mode path (cumulative_ts s1) speed
                (clip_run e) s1 in
            if ok
            then Fragment path
                   (set_cumulative_ts (cumulative_ts s2 + output_dur) s2)
            else NoFragment s2
        | _, _, _ => Failed s1
        end
      else
        let (ok, s2) :=
          render_clip cfg (path_exists e) plan effects path
            (cumulative_ts s1) speed (clip_run e) s1 in
        if ok
        then Fragment path
               (set_cumulative_ts (cumulative_ts s2 + output_dur) s2)
        else NoFragment s2
  end
  end.

Definition clip_phase (cfg : config) (e : clip_env) (s : state) : outcome :=
  enqueue (clip_queue e) (render_clip_step cfg e s).

(** [except Exception: recover_streamer()] around the loop body. *)
Definition recovering (env : recovery_env) (o : outcome) : state :=
  match o with
  | Ok s => s
  | Raise s => recover_streamer env s
  end.

(** One iteration from "Check if bumper is due" to its end. *)
Definition loop_body (cfg : config) (bumper_files : list media)
    (be : bumper_env) (ce : clip_env) (re : recovery_env) (s : state)
    : state :=
  recovering re
    (bind (bumper_phase cfg bumper_files be s) (clip_phase cfg ce)).

(** The render commands run so far, by kind. *)
Definition renders (tr : list event) : list render_kind :=
  omap (fun ev => match ev with
                  | EvRender kind _ _ => Some kind
                  | _ => None
                  end) tr.

(** *** The head of the loop, and the loop as a transition system *)

(** What the head of one iteration meets. *)
Record head_env := HeadEnv {
  clock_now : Clock.datetime;     (* [datetime.now()] of [is_on_air] *)
  clock_later : Clock.datetime;   (* ... and of [wait_for_broadcast] *)
  head_streamer_alive : bool;
  head_mkfifo_ok : bool;
  watchdog_now : Q;               (* [time.time()] of the watchdog test *)
  head_recovery : recovery_env;
  head_music_joined : bool }.     (* the join of [stop_music] returns *)

(** "Sign off: stop everything, sleep until broadcast". *)
Definition sign_off (e : head_env) (s : state) : outcome :=
  let s1 := stop_music (head_music_joined e) s in
  let s2 := match streamer_proc s1 with
            | Some proc =>
                if head_streamer_alive e
                then set_streamer_proc None (log (EvKillStreamer proc) s1)
                else s1
            | None => s1
            end in
  let s3 := set_cumulative_ts 0 s2 in
  bind (mkfifo (head_mkfifo_ok e) (set_audio_fifo false s3))
    (fun s4 => Ok match Clock.wait_for_broadcast (clock_later e) with
                 | Some d => log (EvSleep d) s4
                 | None => s4
                 end).

(** Where the main thread stands within an iteration. *)
Inductive pc := AtTop | AtGuard | AtBumper | AtClip.

(** From the top of the loop to the staging guard, or back to the top after
    a recovery ([continue]).  [wait_for_disk_space] in between only sleeps
    and is left out. *)
Definition loop_head (e : head_env) (s : state) : pc * state :=
  match (if Clock.is_on_air (clock_now e) then Ok s else sign_off e s) with
  | Raise s1 => (AtTop, recover_streamer (head_recovery e) s1)
  | Ok s1 =>
      if match streamer_proc s1 with Some _ => true | None => false end
         && Qltb WATCHDOG_TIMEOUT (watchdog_now e - last_feed_time s1)
      then (AtTop, recover_streamer (head_recovery e) s1)
      else (AtGuard, s1)
  end.

Definition after_phase (next : pc) (re : recovery_env) (o : outcome)
    : pc * state :=
  match o with
  | Ok s => (next, s)
  | Raise s => (AtTop, recover_streamer re s)
  end.

(** The main thread and the feeder thread, interleaved. *)
Inductive step (cfg : config) (bumper_files : list media)
    : pc * state -> pc * state -> Prop :=
| step_head e s :
    step cfg bumper_files (AtTop, s) (loop_head e s)
| step_guard_wait s :
    (MAX_STAGING_FILES <= count_staging_files s)%nat ->
    step cfg bumper_files (AtGuard, s) (AtGuard, log (EvSleep 5) s)
| step_guard_pass s :
    (count_staging_files s < MAX_STAGING_FILES)%nat ->
    step cfg bumper_files (AtGuard, s) (AtBumper, s)
| step_bumper e re s :
    step cfg bumper_files (AtBumper, s)
      (after_phase AtClip re (bumper_phase cfg bumper_files e s))
| step_clip e re s :
    step cfg bumper_files (AtClip, s)
      (after_phase AtTop re (clip_phase cfg e s))
| step_feeder_take p s :
    step cfg bumper_files (p, s) (p, feeder_take s)
| step_feeder_finish fed now p s :
    step cfg bumper_files (p, s) (p, feeder_finish fed now s).

(** *** Vocabulary of the properties *)

Definition rendered_state (r : rendered) : state :=
  match r with
  | Fragment _ s => s
  | NoFragment s => s
  | Failed s => s
  end.

Definition state_of (o : outcome) : state :=
  match o with
  | Ok s => s
  | Raise s => s
  end.

(** [s'] comes from [s] by actions that run no render command and add no
    file to the staging directory. *)
Definition calm (s s' : state) : Prop :=
  renders (trace s') = renders (trace s) /\ staging s' ⊆ staging s.

Definition is_render (ev : event) : bool :=
  match ev with
  | EvRender _ _ _ => true
  | _ => false
  end.

(** Fewer than four fragments are pre-buffered. *)
Definition short (s : state) : Prop :=
  (length (prebuffer s) < prebuffer_size)%nat.

(** How many staging files the main thread can meet at each point of an
    iteration, if it entered the loop with at most 31. *)
Definition staging_bound (p : pc) : nat :=
  match p with
  | AtBumper => 29
  | AtClip => 30
  | AtTop | AtGuard => 31
  end.

(** The states the loop can be in, started on [s0]. *)
Definition reachable (cfg : config) (bumper_files : list media)
    (s0 : state) (st : pc * state) : Prop :=
  rtc (step cfg bumper_files) (AtTop, s0) st.

End Conductor.

(** ** vj_pipeline.py: the music thread *)
Module Music.
Import Clips.

(** What [music_worker] does to the FIFO and to its decoders, in order. *)
Inductive event :=
| OpenFifo                       (* [open(audio_fifo_path, "wb")] *)
| Sleep30                        (* [stop_event.wait(30)] *)
| Shuffle (daypart : string) (tracks : nat)
| SpawnDecoder (track : string)  (* [subprocess.Popen] of the decoder *)
| WriteChunk (bytes : N)         (* [fifo_fd.write(chunk); fifo_fd.flush()] *)
| WriteFailed                    (* ... raising [BrokenPipeError]/[OSError] *)
| KillDecoder                    (* [proc.kill()] *)
| ReapDecoder                    (* [proc.stdout.close(); proc.wait()] *)
| CloseFifo.                     (* [fifo_fd.close()] *)

Global Instance event_eq_dec : EqDecision event.
Proof. solve_decision. Defined.

(** One turn of the copy loop: whether the stop event is seen set, and for
    the chunk read (a non-empty one) whether the FIFO takes it. *)
Record chunk_io := ChunkIO {
  stop_seen : bool;
  chunk_len : N;
  write_ok : bool }.

(** What the worker meets at one track: the stop event and the daypart
    between tracks, and the decoder: the chunks it yields before its
    standard output ends, and its return code, which nothing reads. *)
Record track_env := TrackEnv {
  stop_before : bool;
  daypart_now : string;
  decoder_output : list chunk_io;
  decoder_returncode : Z }.

Inductive track_end := TrackDone | TrackStopped | TrackBroken.

(** The [while not stop_event.is_set()] copy loop of one track. *)
Fixpoint pump (ios : list chunk_io) : list event * track_end :=
  match ios with
  | [] => ([], TrackDone)
  | io :: rest =>
      if stop_seen io then ([], TrackStopped)
      else if write_ok io
           then (WriteChunk (chunk_len io) :: (pump rest).1, (pump rest).2)
           else ([WriteFailed; KillDecoder], TrackBroken)
  end.

Inductive playlist_end := PlaylistDone | DaypartChanged | Stopped | Broken.

(** The [for ... in enumerate(playlist)] loop under the daypart
    [current]; a stop seen in the copy loop is seen again at the next
    test. *)
Fixpoint play (current : string) (tracks : list (media * track_env))
    : list event * playlist_end :=
  match tracks with
  | [] => ([], PlaylistDone)
  | (track, te) :: rest =>
      if stop_before te then ([], Stopped)
      else if negb (String.eqb (daypart_now te) current)
           then ([], DaypartChanged)
           else
             let here := SpawnDecoder track.1
                         :: (pump (decoder_output te)).1 ++ [ReapDecoder] in
             match (pump (decoder_output te)).2 with
             | TrackBroken => (here, Broken)
             | TrackStopped => (here, Stopped)
             | TrackDone =>
                 (here ++ (play current rest).1, (play current rest).2)
             end
  end.

(** What one turn of the outer [while] meets: first the stop event, then the
    result of [get_daypart_music]: nothing (and whether the stop event ends
    the 30 s wait), or a daypart and its tracks, here already shuffled and
    paired with what each will meet. *)
Inductive round :=
| NoMusic (stop_at_head : bool) (stop_in_wait : bool)
| Playlist (stop_at_head : bool) (daypart_name : string)
           (shuffled : list (media * track_env)).

(** The worker has returned, or is still in its loop when the script of
    rounds ends. *)
Inductive worker_end := Exited | Running.

Fixpoint supervise (rounds : list round) : list event * worker_end :=
  match rounds with
  | [] => ([], Running)
  | NoMusic stop stop_in_wait :: rest =>
      if stop then ([], Exited)
      else if stop_in_wait then ([Sleep30], Exited)
      else (Sleep30 :: (supervise rest).1, (supervise rest).2)
  | Playlist stop name tracks :: rest =>
      if stop then ([], Exited)
      else
        let here := Shuffle name (length tracks) :: (play name tracks).1 in
        match (play name tracks).2 with
        | Broken | Stopped => (here, Exited)
        | PlaylistDone | DaypartChanged =>
            (here ++ (supervise rest).1, (supervise rest).2)
        end
  end.

(** [music_worker]: the FIFO is opened once; the [finally] clause closes it
    on every way out. *)
Definition music_worker (fifo_opens : bool) (rounds : list round)
    : list event * worker_end :=
  if fifo_opens then
    match (supervise rounds).2 with
    | Running => (OpenFifo :: (supervise rounds).1, Running)
    | Exited => (OpenFifo :: (supervise rounds).1 ++ [CloseFifo], Exited)
    end
  else ([], Exited).

(** The FIFO is closed at most once, as the last thing the worker does. *)
Definition closed_only_at_exit (run : list event * worker_end) : Prop :=
  match run.2 with
  | Running => CloseFifo ∉ run.1
  | Exited => run.1 = [] \/
              exists tr, run.1 = tr ++ [CloseFifo] /\ CloseFifo ∉ tr
  end.

(** A failed FIFO write is followed by the end of the worker only. *)
Definition write_error_ends (run : list event * worker_end) : Prop :=
  WriteFailed ∈ run.1 ->
  run.2 = Exited /\
  exists tr, run.1 = tr ++ [WriteFailed; KillDecoder; ReapDecoder; CloseFifo].

End Music.

(** ** Sample configuration and environments for the examples *)
Module Samples.
Import Effects Clips Render Conductor.
Local Open Scope Q_scope.

Definition sample_video : video_cfg :=
  VideoCfg 1920 1080 30 "h264_nvenc" "p4" "6M" "yuv420p".

(** Clips of 5 to 10 s, one to three effects, a bumper every 6 s at most. *)
Definition sample_cfg : config :=
  Config sample_video None 5 10 1 3 (Some (1 # 10)).

Definition sample_clips : list media :=
  [("/clips/a.mp4", 30); ("/clips/b.mp4", 4)].

Definition sample_bumpers : list media := [("/bumpers/ident.mp4", 6)].

(** The encoder exits with 0 and leaves its output. *)
Definition run_ok : run_outcome := RunOutcome (Returned 0) true.

(** The encoder exits with 1 and leaves a partial output. *)
Definition run_failed : run_outcome := RunOutcome (Returned 1) true.

Definition plain_recovery : recovery_env :=
  RecoveryEnv None true true true 2000 true.

Definition sample_queue : queue_env :=
  QueueEnv 7 50 false true 0 plain_recovery.

(** Three fragments queued after a cold start: all three wait in the
    pre-buffer. *)
Definition three_buffered : state :=
  queue_clip sample_queue (ts_path 3)
    (queue_clip sample_queue (ts_path 2)
       (queue_clip sample_queue (ts_path 1) (initial_state ∅ 0))).

(** The clock reads [now]; the render, if any, takes two seconds. *)
Definition sample_bumper_env (now : Q) : bumper_env :=
  BumperEnv now 0 run_ok (now + 2) sample_queue.

(** A single clip (no overlay) from [a.mp4], in the daytime profile. *)
Definition sample_clip_env : clip_env :=
  ClipEnv sample_clips (Some "daytime") (1 # 2)
    (ClipDraws 0 (1 # 2) (1 # 2))
    (Draws 0 (fun _ => 0) (fun _ => 0%nat))
    (99 # 100)
    (ClipDraws 1 (1 # 2) (1 # 2)) 0
    (Draws 0 (fun _ => 0) (fun _ => 0%nat)) 0 0
    (fun _ => false) run_ok sample_queue.

(** On air at noon, the heartbeat fresh. *)
Definition sample_head_env (now : Q) : head_env :=
  HeadEnv (Clock.DateTime 7 12 0 0 0) (Clock.DateTime 7 12 0 0 0)
    true true now plain_recovery true.

(** 28 fragments of an earlier run, never fed and never unlinked. *)
Definition leftovers : gset string :=
  list_to_set (ts_path <$> List.seq 901 28).

(** A start on that staging directory, and the states after the bumper and
    the clip part of the first two iterations, at times 100 and 110. *)
Definition start0 : state := initial_state leftovers 10.
Definition iter1_bumper : state :=
  state_of (bumper_phase sample_cfg sample_bumpers (sample_bumper_env 100)
              start0).
Definition iter1_clip : state :=
  state_of (clip_phase sample_cfg sample_clip_env iter1_bumper).
Definition iter2_bumper : state :=
  state_of (bumper_phase sample_cfg sample_bumpers (sample_bumper_env 110)
              iter1_clip).
Definition iter2_clip : state :=
  state_of (clip_phase sample_cfg sample_clip_env iter2_bumper).

End Samples.

(** ** vj_pipeline.py: the content index and the disk guard *)
Module Library.
Import Clips.
Import Stdlib.Strings.Ascii.

(** *** Dayparts *)

(** An entry of [cfg["dayparts"]]. *)
Record daypart := Daypart {
  dp_name : string;
  start_hour : Z;
  end_hour : Z;
  subdir : string }.

(** The test of [get_current_daypart] for one entry: a plain interval when
    [start < end], otherwise one that wraps around midnight. *)
Definition covers (dp : daypart) (hour : Z) : bool :=
  if (start_hour dp <? end_hour dp)%Z
  then (start_hour dp <=? hour)%Z && (hour <? end_hour dp)%Z
  else (start_hour dp <=? hour)%Z || (hour <? end_hour dp)%Z.

(** [hour] is [datetime.datetime.now().hour]. *)
Fixpoint get_current_daypart (dayparts : list daypart) (hour : Z)
    : option daypart :=
  match dayparts with
  | [] => None
  | dp :: rest =>
      if covers dp hour then Some dp else get_current_daypart rest hour
  end.

(** *** Scanning a directory *)

Definition MEDIA_EXTENSIONS : gset string :=
  {[ ".mp4"; ".mkv"; ".avi"; ".mov"; ".webm"; ".flv"; ".ts"; ".m4v" ]}.

Definition AUDIO_EXTENSIONS : gset string :=
  {[ ".mp3"; ".flac"; ".ogg"; ".m4a"; ".wav"; ".aac"; ".opus"; ".wma" ]}.

(** What [rglob] and [ffprobe] tell about one path under a directory:
    whether it is a file, and what [probe_duration] returns for it ([None]
    when the probe fails). *)
Record dir_entry := DirEntry {
  entry_path : string;
  entry_is_file : bool;
  entry_probe : option Q }.

(** The file system as the scans see it: [None] for a directory that does
    not exist, otherwise [sorted(dirpath.rglob("*"))]. *)
Definition file_system : Type := string -> option (list dir_entry).

(** The characters after the last [sep] (in order) and the characters
    before it (reversed), scanning from the end. *)
Fixpoint split_at_last (sep : Ascii.ascii)
    (rev_chars after : list Ascii.ascii)
    : option (list Ascii.ascii * list Ascii.ascii) :=
  match rev_chars with
  | [] => None
  | c :: rest =>
      if Ascii.eqb c sep then Some (after, rest)
      else split_at_last sep rest (c :: after)
  end.

(** [PurePath.name]: the final component. *)
Definition path_name (path : string) : string :=
  match split_at_last "/"%char (rev (String.list_ascii_of_string path)) [] with
  | Some (after, _) => String.string_of_list_ascii after
  | None => path
  end.

(** [PurePath.suffix]: with [i = name.rfind(".")], [name[i:]] if
    [0 < i < len(name) - 1], else the empty string. *)
Definition path_suffix (path : string) : string :=
  match split_at_last "."%char (rev (String.list_ascii_of_string (path_name path))) [] with
  | Some (c :: after, _ :: _) => String.string_of_list_ascii ("."%char :: c :: after)
  | _ => ""
  end.

(** [str.lower] on the ASCII letters. *)
Definition lower_char (c : Ascii.ascii) : Ascii.ascii :=
  let n := Ascii.nat_of_ascii c in
  if (65 <=? n)%nat && (n <=? 90)%nat then Ascii.ascii_of_nat (n + 32)
  else c.

Definition lower (s : string) : string :=
  String.string_of_list_ascii (map lower_char (String.list_ascii_of_string s)).

(** The test and the tuple of the loop body of [scan_media_files]: a file
    with a known extension whose probed duration is truthy and positive. *)
Definition scan_entry (extensions : gset string) (f : dir_entry)
    : option media :=
  if entry_is_file f
     && bool_decide (lower (path_suffix (entry_path f)) ∈ extensions)
  then match entry_probe f with
       | Some dur => if Qltb 0 dur then Some (entry_path f, dur) else None
       | None => None
       end
  else None.

Definition scan_media_files (fs : file_system) (directory : string)
    (extensions : gset string) : list media :=
  match fs directory with
  | None => []
  | Some entries => omap (scan_entry extensions) entries
  end.

(** [os.path.join(a, b)] on POSIX paths. *)
Definition path_join (a b : string) : string :=
  match b with
  | String "/"%char _ => b
  | _ =>
      match rev (String.list_ascii_of_string a) with
      | [] => b
      | c :: _ => if Ascii.eqb c "/"%char then a +:+ b else a +:+ "/" +:+ b
      end
  end.

(** *** Content per daypart *)

Definition get_daypart_music (fs : file_system) (music_dir : string)
    (dayparts : list daypart) (hour : Z) : list media * string :=
  let fallback := (scan_media_files fs music_dir AUDIO_EXTENSIONS, "all") in
  match get_current_daypart dayparts hour with
  | Some dp =>
      match scan_media_files fs (path_join music_dir (subdir dp))
              AUDIO_EXTENSIONS with
      | [] => fallback
      | files => (files, dp_name dp)
      end
  | None => fallback
  end.

(** The module-level [_clips_cache]. *)
Record clips_cache := ClipsCache {
  cache_daypart : option string;
  cache_files : option (list media) }.

Definition empty_cache : clips_cache := ClipsCache None None.

(** [dp_name or "default"]: [None] and the empty name are falsy. *)
Definition name_or_default (name : option string) : string :=
  match name with
  | Some n => if String.eqb n "" then "default" else n
  | None => "default"
  end.

(** [get_daypart_clips]: the result and the cache it leaves.
    [clips_dayparts] is [cfg.get("clips_dayparts", {})]. *)
Definition get_daypart_clips (fs : file_system)
    (dayparts : list daypart) (clips_dayparts : gmap string string)
    (hour : Z) (default_clips : list media) (cache : clips_cache)
    : (list media * string) * clips_cache :=
  let dp := get_current_daypart dayparts hour in
  let name := dp_name <$> dp in
  let miss :=
    let fallback :=
      ((default_clips, "default"), ClipsCache name (Some default_clips)) in
    match dp with
    | Some d =>
        match clips_dayparts !! dp_name d with
        | Some override_dir =>
            match scan_media_files fs override_dir MEDIA_EXTENSIONS with
            | [] => fallback
            | files =>
                ((files, dp_name d),
                 ClipsCache (Some (dp_name d)) (Some files))
            end
        | None => fallback
        end
    | None => fallback
    end in
  match cache_files cache with
  | Some files =>
      if bool_decide (name = cache_daypart cache)
      then ((files, name_or_default name), cache)
      else miss
  | None => miss
  end.

(** *** Disk guard *)

Definition MIN_FREE_BYTES : Z := 1024 * 1024 * 1024.
Definition DISK_CHECK_INTERVAL : Q := 30.

(** One pass over the paths: for each, [shutil.disk_usage(p).free], or
    [None] when it raises [OSError]. *)
Definition disk_poll : Type := list (string * option Z).

(** The list [low] of one pass. *)
Definition low_paths (poll : disk_poll) : list (string * Z) :=
  omap (fun pu => match pu.2 with
                  | Some free =>
                      if (free <? MIN_FREE_BYTES)%Z then Some (pu.1, free)
                      else None
                  | None => None
                  end) poll.

(** [wait_for_disk_space] against the passes it will make: the number of
    [time.sleep(DISK_CHECK_INTERVAL)] before it returns, [None] if it is
    still waiting when the passes end. *)
Fixpoint wait_for_disk_space (polls : list disk_poll) : option nat :=
  match polls with
  | [] => None
  | poll :: rest =>
      match low_paths poll with
      | [] => Some 0%nat
      | _ => S <$> wait_for_disk_space rest
      end
  end.

End Library.

(** ** Vocabulary of the further properties *)
Module Traces.
Import Render Conductor.

(** The render events of a trace. *)
Definition render_events (tr : list event) : list event :=
  List.filter is_render tr.

(** The file an encoder command writes: its last argument. *)
Definition render_output (ev : event) : option string :=
  match ev with
  | EvRender _ cmd _ => last cmd
  | _ => None
  end.

Definition render_outputs (tr : list event) : list string :=
  omap render_output tr.

(** [s'] comes from [s] by actions that leave the fragment counter and the
    bumper clock alone and run no encoder command. *)
Definition quiet (s s' : state) : Prop :=
  seq s' = seq s /\ last_bumper_time s' = last_bumper_time s /\
  render_events (trace s') = render_events (trace s).

(** The files written so far are those of distinct fragment numbers, from
    1 to the counter at most. *)
Definition numbered (s : state) : Prop :=
  exists ks, render_outputs (trace s) = ts_path <$> ks /\
             Forall (fun k => 1 <= k <= seq s) ks /\ NoDup ks.

(** While the encoder runs nothing waits in the pre-buffer. *)
Definition live_unbuffered (s : state) : Prop :=
  streamer_proc s <> None -> prebuffer s = [].

(** [feeder_worker] for as many passes as [feeds] has entries: what
    [feed_streamer] returns at each, and the clock after it. *)
Definition feeder_run (feeds : list (bool * Q)) (s : state) : state :=
  foldl (fun acc f => feeder_step f.1 f.2 acc) s feeds.

(** Whether a decoder is alive after the events [tr] of the music thread,
    given whether one was before; [None] if the events break the order of
    things: a decoder spawned while another lives, a chunk written or a
    decoder killed or reaped with none alive, the FIFO opened or closed, a
    playlist shuffled or a 30 s wait begun with one alive. *)
Fixpoint decoder_alive (tr : list Music.event) (alive : bool) : option bool :=
  match tr with
  | [] => Some alive
  | Music.SpawnDecoder _ :: rest =>
      if alive then None else decoder_alive rest true
  | Music.WriteChunk _ :: rest | Music.WriteFailed :: rest
  | Music.KillDecoder :: rest =>
      if alive then decoder_alive rest true else None
  | Music.ReapDecoder :: rest =>
      if alive then decoder_alive rest false else None
  | Music.OpenFifo :: rest | Music.Sleep30 :: rest
  | Music.Shuffle _ _ :: rest | Music.CloseFifo :: rest =>
      if alive then None else decoder_alive rest false
  end.

(** A feeder queue filled to its capacity of twenty, the encoder
    running. *)
Definition full_queue : state :=
  set_feed_queue ((fun k => (ts_path k, 7)) <$> List.seq 1 20)
    (set_streamer_proc (Some 7) (initial_state ∅ 10)).

(** One iteration of the sample run at time [now]: bumper part, then clip
    part. *)
Definition sample_bumper_part (now : Q) (s : state) : state :=
  state_of (bumper_phase Samples.sample_cfg Samples.sample_bumpers
              (Samples.sample_bumper_env now) s).
Definition sample_clip_part (s : state) : state :=
  state_of (clip_phase Samples.sample_cfg Samples.sample_clip_env s).

(** Three iterations on an empty staging directory, at times 100, 110 and
    120: the bumper of the third is the fourth fragment and starts the
    encoder. *)
Definition clean0 : state := initial_state ∅ 10.
Definition clean1 : state := sample_clip_part (sample_bumper_part 100 clean0).
Definition clean2 : state := sample_clip_part (sample_bumper_part 110 clean1).
Definition clean3 : state := sample_clip_part (sample_bumper_part 120 clean2).

End Traces.

(** * Properties *)

(** ** Effects selection *)
Section EffectsProps.
Import Effects.

Lemma choice_elem {A} (k : nat) (l : list A) (x : A) :
  choice k l = Some x -> x ∈ l.
Proof.
  destruct l as [|a l]; [discriminate|]. unfold choice.
  intros H. eapply list_elem_of_lookup_2, H.
Qed.

Lemma choice_is_Some {A} (k : nat) (l : list A) :
  l <> [] -> is_Some (choice k l).
Proof.
  destruct l as [|a l]; [congruence|]. intros _. unfold choice.
  apply lookup_lt_is_Some_2. apply Nat.mod_upper_bound. discriminate.
Qed.

Lemma randint_range (a b k n : nat) :
  randint a b k = Some n -> a <= n <= b.
Proof.
  unfold randint. case_decide; [|discriminate]. intros [= <-].
  pose proof (Nat.mod_upper_bound k (b - a + 1)). lia.
Qed.

Lemma blocked_spec (names : gset string) (x : string) :
  x ∈ blocked names <->
  exists pair, pair ∈ INCOMPATIBLE_PAIRS /\ names ∩ pair ≠ ∅ /\
               x ∈ pair /\ x ∉ names.
Proof.
  unfold blocked, INCOMPATIBLE_PAIRS. simpl. split.
  - case_decide as Ho; [set_solver|]. intros Hx.
    eexists. split; [apply list_elem_of_here|]. set_solver.
  - intros (pair & Hp & Hne & Hx & Hn).
    apply list_elem_of_singleton in Hp. subst pair.
    case_decide; [done|]. set_solver.
Qed.

(** Every table has an effect that no incompatible pair mentions, so the
    [if not eligible] fallback to the unfiltered table never fires. *)
Lemma pool_has_neutral (t : tier) :
  exists w, w ∈ pool_of t /\ forall pair, pair ∈ INCOMPATIBLE_PAIRS -> name w ∉ pair.
Proof.
  destruct t; simpl.
  - exists (Effect "warm_shift" "colorbalance=rs=0.15:gs=-0.05:bs=-0.1").
    split; [apply list_elem_of_here|].
    intros pair Hp. apply list_elem_of_singleton in Hp. subst. set_solver.
  - exists (Effect "frame_blend" "tblend=all_mode=average").
    split; [apply list_elem_of_here|].
    intros pair Hp. apply list_elem_of_singleton in Hp. subst. set_solver.
  - exists (Effect "pixelate"
      "scale=iw/8:ih/8:flags=neighbor,scale=iw*8:ih*8:flags=neighbor").
    split; [apply elem_of_cons; right; apply list_elem_of_here|].
    intros pair Hp. apply list_elem_of_singleton in Hp. subst. set_solver.
Qed.

Lemma eligible_spec (t : tier) (names : gset string) (e : effect) :
  e ∈ eligible (pool_of t) names ->
  e ∈ pool_of t /\ name e ∉ blocked names.
Proof.
  unfold eligible.
  destruct (List.filter _ (pool_of t)) as [|a l] eqn:Hf.
  - exfalso. destruct (pool_has_neutral t) as (w & Hw & Hneutral).
    assert (Hin : w ∈ List.filter
              (fun e => bool_decide (name e ∉ blocked names)) (pool_of t)).
    { apply list_elem_of_In, filter_In. split; [by apply list_elem_of_In|].
      apply bool_decide_eq_true. intros Hb.
      apply blocked_spec in Hb as (pair & Hp & _ & Hx & _).
      by apply (Hneutral pair). }
    rewrite Hf in Hin. by apply not_elem_of_nil in Hin.
  - rewrite <- Hf. intros Hin.
    apply list_elem_of_In, filter_In in Hin as [Hin Hb].
    apply bool_decide_eq_true in Hb. split; [by apply list_elem_of_In|done].
Qed.

Lemma eligible_nonempty (t : tier) (names : gset string) :
  eligible (pool_of t) names <> [].
Proof.
  unfold eligible. destruct (List.filter _ _); [by destruct t|discriminate].
Qed.

Lemma pool_is_tier (t t' : tier) (e : effect) :
  e ∈ pool_of t -> is_tier t' e = true <-> t' = t.
Proof.
  intros Hin.
  assert (Hall : Forall (fun e => forall t', is_tier t' e = true <-> t' = t)
                        (pool_of t)).
  { destruct t; simpl; unfold LIGHT_EFFECTS, MEDIUM_EFFECTS, HEAVY_EFFECTS;
      repeat (apply Forall_cons_2;
              [intros []; vm_compute; split; congruence|]);
      apply Forall_nil_2. }
  rewrite Forall_forall in Hall. by apply Hall.
Qed.

Lemma count_tier_snoc (t : tier) (l : list effect) (e : effect) :
  count_tier t (l ++ [e]) = count_tier t l + (if is_tier t e then 1 else 0).
Proof.
  unfold count_tier. rewrite List.filter_app, length_app. simpl.
  by destruct (is_tier t e).
Qed.

Lemma pick_inv_init : pick_inv (PickState [] ∅ 0 0).
Proof.
  split; simpl; try done; try lia.
  - intros x. set_solver.
  - intros pair a b _ _ _ _ [Ha _]. by apply not_elem_of_nil in Ha.
Qed.

Lemma pick_step_inv (lw mt : Q) (st : pick_state) (roll : Q) (k : nat) :
  pick_inv st ->
  exists st', pick_step lw mt st roll k = Some st' /\ pick_inv st' /\
              length (chosen st') = S (length (chosen st)).
Proof.
  intros [Hn Hm Hh Hmc Hhc Hc]. unfold pick_step.
  set (t := capped_tier (rolled_tier lw mt roll) st).
  destruct (choice_is_Some k _ (eligible_nonempty t (chosen_names st)))
    as [e He].
  rewrite He. eexists. split; [reflexivity|].
  apply choice_elem, eligible_spec in He as [Hpool Hblk].
  pose proof (fun t' => pool_is_tier t t' e Hpool) as Htier.
  split; [|simpl; rewrite length_app; simpl; lia].
  assert (Hcap : (t = Medium -> medium_count st < 2) /\
                 (t = Heavy -> heavy_count st < 1)).
  { subst t. unfold capped_tier.
    destruct (rolled_tier lw mt roll); repeat case_decide;
      split; intros; try discriminate; lia. }
  destruct Hcap as [HcapM HcapH].
  split; simpl.
  - intros x. unfold effect_names in *. rewrite map_app, elem_of_app.
    rewrite elem_of_union, Hn. simpl. rewrite list_elem_of_singleton.
    set_solver.
  - rewrite count_tier_snoc, <- Hm.
    destruct (is_tier Medium e) eqn:E.
    + apply Htier in E. rewrite <- E. lia.
    + destruct t; try lia. exfalso.
      assert (is_tier Medium e = true) by by apply Htier. congruence.
  - rewrite count_tier_snoc, <- Hh.
    destruct (is_tier Heavy e) eqn:E.
    + apply Htier in E. rewrite <- E. lia.
    + destruct t; try lia. exfalso.
      assert (is_tier Heavy e = true) by by apply Htier. congruence.
  - destruct t; try lia. specialize (HcapM eq_refl). lia.
  - destruct t; try lia. specialize (HcapH eq_refl). lia.
  - intros pair a b Hp Ha Hb Hab [Hina Hinb].
    unfold effect_names in Hina, Hinb.
    rewrite map_app, elem_of_app in Hina, Hinb. simpl in Hina, Hinb.
    rewrite list_elem_of_singleton in Hina, Hinb.
    apply Hblk. apply blocked_spec. exists pair.
    destruct Hina as [Hina|Hina], Hinb as [Hinb|Hinb].
    + exfalso. apply (Hc pair a b); auto.
    + subst b. repeat split; auto.
      * apply Hn in Hina. set_solver.
      * intros Hin. apply Hn in Hin. apply (Hc pair a (name e)); auto.
    + subst a. repeat split; auto.
      * apply Hn in Hinb. set_solver.
      * intros Hin. apply Hn in Hin. apply (Hc pair (name e) b); auto.
    + congruence.
Qed.

Lemma pick_loop_inv (lw mt : Q) (rolls : nat -> Q) (picks : nat -> nat)
    (n i : nat) (st : pick_state) :
  pick_inv st ->
  exists st', pick_loop lw mt rolls picks n i st = Some st' /\ pick_inv st' /\
              length (chosen st') = length (chosen st) + n.
Proof.
  revert i st. induction n as [|n IH]; intros i st Hinv; simpl.
  - exists st. split; [done|]. split; [done|lia].
  - destruct (pick_step_inv lw mt st (rolls i) (picks i) Hinv)
      as (st1 & -> & Hinv1 & Hlen1).
    destruct (IH (S i) st1 Hinv1) as (st2 & -> & Hinv2 & Hlen2).
    exists st2. split; [done|]. split; [done|lia].
Qed.

Lemma pick_effects_total
    (min_count max_count : nat) (daypart : option string) (d : draws) :
  min_count <= max_count ->
  is_Some (pick_effects min_count max_count daypart d).
Proof.
  intros Hle. unfold pick_effects, randint. case_decide; [|lia].
  destruct (pick_loop_inv (tier_weights (get_profile daypart)).1.1
              ((tier_weights (get_profile daypart)).1.1 +
               (tier_weights (get_profile daypart)).1.2)%Q
              (rolls d) (picks d)
              (min_count + count_draw d mod (max_count - min_count + 1)) 0
              _ pick_inv_init)
    as (st & Hrun & _).
  simpl in *. rewrite Hrun. by eexists.
Qed.

Lemma pick_overlay_effects_total
    (min_count max_count : nat) (daypart : option string) (d : draws)
    (extra_roll : Q) (extra_pick : nat) :
  min_count <= max_count ->
  is_Some (pick_overlay_effects min_count max_count daypart d
             extra_roll extra_pick).
Proof.
  intros Hle. unfold pick_overlay_effects.
  destruct (pick_effects_total min_count max_count daypart d Hle) as [l ->].
  by eexists.
Qed.

(** Every daypart, known or not, has blend modes to choose from. *)
Lemma blend_modes_nonempty (daypart : option string) :
  blend_modes (get_profile daypart) <> [].
Proof.
  unfold get_profile. destruct daypart as [d|]; simpl; [|discriminate].
  destruct (DAYPART_PROFILES !! d) as [p|] eqn:E; simpl; [|discriminate].
  apply elem_of_list_to_map_2 in E.
  repeat (apply elem_of_cons in E as [[= -> ->]|E];
          [intros Hnil; vm_compute in Hnil; discriminate|]).
  by apply elem_of_nil in E.
Qed.

(** Three heavy rolls in a row: one heavy effect, then two medium ones. *)
Example pick_effects_overnight :
  effect_names <$>
    pick_effects 3 3 (Some "overnight")
      (Draws 0 (fun _ => (99#100)%Q) (fun i => i))
  = Some ["edge_glow"; "frame_blend_screen"; "rgba_shift"].
Proof. vm_compute. reflexivity. Qed.

(** With [edge_glow] chosen, [high_saturation] (index 2 of the light
    table) is filtered out and the draw lands on its neighbour. *)
Example pick_effects_blocks_partner :
  effect_names <$>
    pick_effects 2 2 None
      (Draws 0 (fun i => match i with O => (99#100)%Q | _ => 0%Q end)
               (fun i => match i with O => 0 | _ => 2 end))
  = Some ["edge_glow"; "low_saturation"].
Proof. vm_compute. reflexivity. Qed.

(** C8. For every [min_count <= max_count] and every daypart,
    [pick_effects] returns a list whose length lies between [min_count] and
    [max_count], that holds at most two medium-tier and at most one
    heavy-tier effect, and that never holds both members of an
    incompatible pair. *)
Theorem pick_effects_respects_caps
    (min_count max_count : nat) (daypart : option string) (d : draws) :
  min_count <= max_count ->
  exists l, pick_effects min_count max_count daypart d = Some l /\
            min_count <= length l <= max_count /\
            count_tier Medium l <= 2 /\
            count_tier Heavy l <= 1 /\
            compatible (effect_names l).
Proof.
  intros Hle. unfold pick_effects.
  destruct (randint min_count max_count (count_draw d)) as [count|] eqn:Hr.
  2:{ unfold randint in Hr. by case_decide. }
  apply randint_range in Hr.
  destruct (pick_loop_inv (tier_weights (get_profile daypart)).1.1
              ((tier_weights (get_profile daypart)).1.1 +
               (tier_weights (get_profile daypart)).1.2)%Q
              (rolls d) (picks d) count 0 _ pick_inv_init)
    as (st & Hrun & [Hn Hm Hh Hmc Hhc Hc] & Hlen).
  exists (chosen st). simpl in *. rewrite Hrun. simpl.
  split; [done|]. rewrite Hlen. repeat split; try lia; try done.
Qed.

Lemma pick_effects_respects_caps_witness :
  1 <= 3 /\
  exists l, pick_effects 1 3 (Some "nighttime")
              (Draws 4 (fun _ => (1#2)%Q) (fun i => 3 * i)) = Some l /\
            1 <= length l <= 3 /\
            count_tier Medium l <= 2 /\
            count_tier Heavy l <= 1 /\
            compatible (effect_names l).
Proof.
  split; [lia|].
  apply (pick_effects_respects_caps 1 3 (Some "nighttime")
           (Draws 4 (fun _ => (1#2)%Q) (fun i => 3 * i))).
  lia.
Defined.
End EffectsProps.

(** ** Clip selection *)
Section ClipsProps.
Import Clips.
Local Open Scope Q_scope.

Lemma Qleb_le (x y : Q) : Qleb x y = true <-> x <= y.
Proof. apply Qle_bool_iff. Qed.

Lemma Qltb_lt (x y : Q) : Qltb x y = true <-> x < y.
Proof.
  unfold Qltb. rewrite negb_true_iff. split.
  - intros H. apply Qnot_le_lt. intros Hle.
    apply Qle_bool_iff in Hle. congruence.
  - intros H. destruct (Qle_bool y x) eqn:E; [|done].
    apply Qle_bool_iff in E. exfalso. by apply (Qlt_not_le x y).
Qed.

Lemma Qleb_gt (x y : Q) : Qleb x y = false <-> y < x.
Proof.
  split.
  - intros H. apply Qnot_le_lt. intros Hle. apply Qleb_le in Hle. congruence.
  - intros H. destruct (Qleb x y) eqn:E; [|done].
    apply Qleb_le in E. exfalso. by apply (Qlt_not_le y x).
Qed.

Lemma Qltb_ge (x y : Q) : Qltb x y = false <-> y <= x.
Proof.
  unfold Qltb. rewrite negb_false_iff. apply Qle_bool_iff.
Qed.

(** A 30 s clip and a 7.5 s target: a 7.5 s window starting at 11.25 s. *)
Example pick_clip_window :
  pick_clip [("a.mp4", 30); ("b.mp4", 4)] 5 10 (ClipDraws 0 (1#2) (1#2))
  = Some (ClipPlan "a.mp4" (0 + (30 - (5 + (10 - 5) * (1#2)) - 0) * (1#2))
                   (5 + (10 - 5) * (1#2)) false).
Proof. reflexivity. Qed.

(** A 4 s clip is shorter than any target in [5, 10]: looped, whole clip. *)
Example pick_clip_short :
  pick_clip [("a.mp4", 30); ("b.mp4", 4)] 5 10 (ClipDraws 1 (1#2) (1#2))
  = Some (ClipPlan "b.mp4" 0 4 true).
Proof. reflexivity. Qed.

(** C10. For a non-empty clip list and [min_dur <= max_dur] (the draws of
    [random()] lying in [0, 1)), [pick_clip] returns a plan for the chosen
    clip whose use duration is at most the clip's duration; the loop flag
    is set exactly when the clip's duration is at most the drawn target,
    and then the use duration is the clip's duration; without the loop flag
    seek start plus use duration stays within the clip; and the seek start
    is 0 whenever the slack is at most one second. *)
Theorem pick_clip_caps_duration
    (clips : list media) (min_dur max_dur : Q) (d : clip_draws) :
  clips <> [] -> min_dur <= max_dur ->
  0 <= dur_roll d /\ dur_roll d < 1 ->
  0 <= start_roll d /\ start_roll d < 1 ->
  exists path dur plan,
    choice (clip_pick d) clips = Some (path, dur) /\
    pick_clip clips min_dur max_dur d = Some plan /\
    plan_path plan = path /\
    use_duration plan <= dur /\
    (needs_loop plan = true <->
       dur <= uniform min_dur max_dur (dur_roll d)) /\
    (needs_loop plan = true -> use_duration plan = dur) /\
    (needs_loop plan = false ->
       seek_start plan + use_duration plan <= dur) /\
    (dur - use_duration plan <= 1 -> seek_start plan = 0).
Proof.
  intros Hne _ _ [Hr0 Hr1]. unfold pick_clip.
  destruct (choice_is_Some (clip_pick d) clips Hne) as [[path dur] Hc].
  rewrite Hc. exists path, dur.
  set (target := uniform min_dur max_dur (dur_roll d)).
  destruct (Qleb dur target) eqn:Hloop.
  - eexists. split; [done|]. split; [done|]. simpl.
    apply Qleb_le in Hloop.
    repeat split; try done. apply Qle_refl.
  - eexists. split; [done|]. split; [done|]. simpl.
    apply Qleb_gt in Hloop.
    split; [done|]. split; [by apply Qlt_le_weak|].
    split; [split; [done|intros Hle; exfalso; by apply (Qlt_not_le target dur)]|].
    split; [done|]. split.
    + intros _. destruct (Qltb 1 (dur - target)) eqn:Hslack.
      * apply Qltb_lt in Hslack. unfold uniform.
        assert ((dur - target - 0) * start_roll d <= dur - target) by nra.
        lra.
      * lra.
    + intros Hslack. destruct (Qltb 1 (dur - target)) eqn:E; [|done].
      apply Qltb_lt in E. exfalso. by apply (Qlt_not_le 1 (dur - target)).
Qed.

Lemma pick_clip_caps_duration_witness :
  exists path dur plan,
    choice 0 [("a.mp4", 30); ("b.mp4", 4)] = Some (path, dur) /\
    pick_clip [("a.mp4", 30); ("b.mp4", 4)] 5 10 (ClipDraws 0 (1#2) (1#2))
      = Some plan /\
    plan_path plan = path /\
    use_duration plan <= dur /\
    (needs_loop plan = true <-> dur <= uniform 5 10 (1#2)) /\
    (needs_loop plan = true -> use_duration plan = dur) /\
    (needs_loop plan = false ->
       seek_start plan + use_duration plan <= dur) /\
    (dur - use_duration plan <= 1 -> seek_start plan = 0).
Proof.
  apply (pick_clip_caps_duration [("a.mp4", 30); ("b.mp4", 4)] 5 10
           (ClipDraws 0 (1#2) (1#2))).
  - discriminate.
  - vm_compute. discriminate.
  - split; vm_compute; [discriminate|reflexivity].
  - split; vm_compute; [discriminate|reflexivity].
Defined.
End ClipsProps.

(** ** Broadcast hours *)
Section ClockProps.
Import Clock.
Local Open Scope Z_scope.

(** 09:59:59 is off air and one second short of sign-on. *)
Example wait_one_second :
  is_on_air (DateTime 7 9 59 59 0) = false /\
  (wait_secs (DateTime 7 9 59 59 0) == 1)%Q /\
  wait_for_broadcast (DateTime 7 9 59 59 0) = Some (1000000 # 1000000).
Proof. repeat split. Qed.

(** At 01:00 the anchor is moved to the following day: 33 hours. *)
Example wait_before_two :
  sign_on (DateTime 7 1 0 0 0) = DateTime 8 10 0 0 0 /\
  (wait_secs (DateTime 7 1 0 0 0) == 33 * 3600)%Q.
Proof. repeat split. Qed.

Lemma ten_oclock_micros (t : datetime) :
  ten_oclock t -> to_micros t = (day t * 24 + 10) * 3600000000.
Proof.
  intros (Hh & Hm & Hs & Hu). unfold to_micros, BROADCAST_START in *.
  rewrite Hh, Hm, Hs, Hu. lia.
Qed.

(** Invoked at 10:00:05 (the off-air check passed at 09:59:58 and the
    tear-down took seven seconds) the anchor is the 10:00 that has just
    passed. *)
Lemma sign_on_not_next_after_ten :
  valid (DateTime 7 10 0 5 0) /\
  ~ next_sign_on (DateTime 7 10 0 5 0) (sign_on (DateTime 7 10 0 5 0)).
Proof.
  split; [unfold valid; simpl; lia|].
  intros (_ & Hle & _). vm_compute in Hle. by apply Hle.
Qed.

(** C9 (amended). At an invocation time of the off-air window
    ([2 <= hour < 10]) the sign-on target is the earliest 10:00 not
    earlier than now, and the computed wait is the positive duration to it,
    minimal among the durations to a 10:00 not earlier than now; it is what
    is slept.  At [hour >= 10] the target is the current day's 10:00, the
    computed wait is not positive and nothing is slept. *)
Theorem wait_for_broadcast_off_air (now : datetime) :
  valid now -> BROADCAST_END <= hour now ->
  if hour now <? BROADCAST_START then
    next_sign_on now (sign_on now) /\
    (0 < wait_secs now)%Q /\
    (forall t', ten_oclock t' -> to_micros now <= to_micros t' ->
                (wait_secs now <= total_seconds t' now)%Q) /\
    wait_for_broadcast now = Some (total_seconds (sign_on now) now)
  else
    sign_on now = DateTime (day now) BROADCAST_START 0 0 0 /\
    (wait_secs now <= 0)%Q /\
    wait_for_broadcast now = None.
Proof.
  intros (Hh & Hm & Hs & Hu). unfold BROADCAST_END, BROADCAST_START.
  intros Hend.
  assert (Hso : sign_on now = DateTime (day now) 10 0 0 0).
  { unfold sign_on, BROADCAST_END, BROADCAST_START.
    destruct (Z.leb_spec 2 (hour now)); [done|lia]. }
  destruct (Z.ltb_spec (hour now) 10) as [Hwin|Hwin].
  - assert (Hnext : next_sign_on now (sign_on now)).
    { rewrite Hso. split; [done|]. split.
      - unfold to_micros; simpl. lia.
      - intros t' Hten Hle. rewrite (ten_oclock_micros t' Hten).
        rewrite (ten_oclock_micros t' Hten) in Hle.
        unfold to_micros in *; simpl. lia. }
    assert (Hpos : (0 < wait_secs now)%Q).
    { unfold wait_secs, total_seconds, Qlt. rewrite Hso.
      unfold to_micros; simpl. lia. }
    split; [done|]. split; [done|]. split.
    + intros t' Hten Hle. destruct Hnext as (_ & _ & Hmin).
      specialize (Hmin t' Hten Hle).
      unfold wait_secs, total_seconds, Qle. simpl. lia.
    + unfold wait_for_broadcast.
      destruct (Qltb 0 (wait_secs now)) eqn:E; [done|].
      apply Qltb_ge in E. exfalso. by apply (Qlt_not_le _ _ Hpos).
  - assert (Hneg : (wait_secs now <= 0)%Q).
    { unfold wait_secs, total_seconds, Qle. rewrite Hso.
      unfold to_micros; simpl. lia. }
    split; [done|]. split; [done|].
    unfold wait_for_broadcast.
    destruct (Qltb 0 (wait_secs now)) eqn:E; [|done].
    apply Qltb_lt in E. exfalso. by apply (Qlt_not_le _ _ E).
Qed.

Lemma wait_for_broadcast_off_air_witness :
  valid (DateTime 7 9 59 59 0) /\
  BROADCAST_END <= hour (DateTime 7 9 59 59 0) /\
  next_sign_on (DateTime 7 9 59 59 0) (sign_on (DateTime 7 9 59 59 0)) /\
  (0 < wait_secs (DateTime 7 9 59 59 0))%Q /\
  (forall t', ten_oclock t' ->
              to_micros (DateTime 7 9 59 59 0) <= to_micros t' ->
              (wait_secs (DateTime 7 9 59 59 0)
               <= total_seconds t' (DateTime 7 9 59 59 0))%Q) /\
  wait_for_broadcast (DateTime 7 9 59 59 0)
  = Some (total_seconds (sign_on (DateTime 7 9 59 59 0))
                        (DateTime 7 9 59 59 0)).
Proof.
  assert (Hv : valid (DateTime 7 9 59 59 0)) by (unfold valid; simpl; lia).
  assert (He : BROADCAST_END <= hour (DateTime 7 9 59 59 0))
    by (unfold BROADCAST_END; simpl; lia).
  split; [exact Hv|]. split; [exact He|].
  exact (wait_for_broadcast_off_air (DateTime 7 9 59 59 0) Hv He).
Defined.
End ClockProps.


(** ** Encoder command lines *)
Section RenderProps.
Import Effects Render Samples.

Example format_fixed_samples :
  format_fixed 2 (1125 # 100) = "11.25" /\ format_fixed 2 4 = "4.00" /\
  format_fixed 3 (76 # 10) = "7.600" /\ format_fixed 2 (5 # 1000) = "0.00" /\
  format_repr2 1 = "1.0" /\ format_repr2 (95 # 100) = "0.95" /\
  format_repr2 (22 # 10) = "2.2" /\ zero_pad 6 "42" = "000042".
Proof. vm_compute. repeat split. Qed.

Example render_clip_cmd_sample :
  render_clip_cmd sample_video None (fun _ => false)
    "/clips/a.mp4" (1125 # 100) (75 # 10) false
    [Effect "vignette" "vignette=PI/4"] "staging/clip_000001.ts" 0 1
  = ["ffmpeg"; "-y"; "-hide_banner"; "-loglevel"; "warning";
     "-ss"; "11.25"; "-t"; "7.50"; "-i"; "/clips/a.mp4";
     "-vf";
     "scale=1920:1080:force_original_aspect_ratio=decrease,pad=1920:1080:(ow-iw)/2:(oh-ih)/2,setsar=1,setpts=1.0*PTS,fps=30,vignette=PI/4";
     "-an"; "-c:v"; "h264_nvenc"; "-preset"; "p4"; "-b:v"; "6M";
     "-g"; "120"; "-pix_fmt"; "yuv420p";
     "-output_ts_offset"; "0.000"; "-f"; "mpegts";
     "staging/clip_000001.ts"].
Proof. vm_compute. reflexivity. Qed.

(** The overlay command line for the same encoder settings: two inputs, a
    [blend] graph, and no [-g]. *)
Example render_overlay_clip_cmd_sample :
  render_overlay_clip_cmd sample_video None (fun _ => false)
    "/clips/a.mp4" (1125 # 100) "/clips/b.mp4" 3 (75 # 10)
    [Effect "vignette" "vignette=PI/4"] "screen"
    "staging/clip_000002.ts" (75 # 10) 1
  = ["ffmpeg"; "-y"; "-hide_banner"; "-loglevel"; "warning";
     "-ss"; "11.25"; "-t"; "7.50"; "-i"; "/clips/a.mp4";
     "-ss"; "3.00"; "-t"; "7.50"; "-i"; "/clips/b.mp4";
     "-filter_complex";
     "[0:v]scale=1920:1080:force_original_aspect_ratio=decrease,pad=1920:1080:(ow-iw)/2:(oh-ih)/2,setsar=1,setpts=1.0*PTS,fps=30,vignette=PI/4[base];[1:v]scale=1920:1080:force_original_aspect_ratio=decrease,pad=1920:1080:(ow-iw)/2:(oh-ih)/2,setsar=1,setpts=1.0*PTS,fps=30[top];[base][top]blend=all_mode=screen[out]";
     "-map"; "[out]"; "-an"; "-c:v"; "h264_nvenc"; "-preset"; "p4";
     "-b:v"; "6M"; "-pix_fmt"; "yuv420p";
     "-output_ts_offset"; "7.500"; "-f"; "mpegts";
     "staging/clip_000002.ts"].
Proof. vm_compute. reflexivity. Qed.

Lemma passes_option_app_r (l1 l2 : list string) (flag value : string) :
  passes_option l2 flag value -> passes_option (l1 ++ l2) flag value.
Proof.
  intros (pre & post & ->). exists (l1 ++ pre), post. by rewrite app_assoc.
Qed.

Lemma passes_g_tail (c p b g : string) (rest : list string) :
  passes_option ("-an" :: "-c:v" :: c :: "-preset" :: p :: "-b:v" :: b
                 :: "-g" :: g :: rest) "-g" g.
Proof.
  by exists ["-an"; "-c:v"; c; "-preset"; p; "-b:v"; b], rest.
Qed.

Lemma render_clip_passes_g video bug path_exists clip_path clip_start
    clip_dur needs_loop effects output_path ts_offset speed :
  passes_option
    (render_clip_cmd video bug path_exists clip_path clip_start clip_dur
       needs_loop effects output_path ts_offset speed)
    "-g" (str_int (fps video * 4)).
Proof.
  unfold render_clip_cmd. do 4 apply passes_option_app_r.
  by apply passes_g_tail.
Qed.

Lemma render_bumper_passes_g video bumper_path output_path ts_offset :
  passes_option (render_bumper_cmd video bumper_path output_path ts_offset)
    "-g" (str_int (fps video * 4)).
Proof.
  unfold render_bumper_cmd. do 2 apply passes_option_app_r.
  by apply passes_g_tail.
Qed.

(** C2. The single-clip and the bumper command lines pass [-g] with
    4 x fps; the overlay command line, here for two clips at 30 fps with no
    logo, has no [-g] option at all. *)
Theorem overlay_cmd_lacks_keyframe_interval :
  (forall video bug path_exists clip_path clip_start clip_dur needs_loop
          effects output_path ts_offset speed,
     passes_option
       (render_clip_cmd video bug path_exists clip_path clip_start clip_dur
          needs_loop effects output_path ts_offset speed)
       "-g" (str_int (fps video * 4))) /\
  (forall video bumper_path output_path ts_offset,
     passes_option (render_bumper_cmd video bumper_path output_path ts_offset)
       "-g" (str_int (fps video * 4))) /\
  "-g" ∉ render_overlay_clip_cmd sample_video None (fun _ => false)
           "/clips/a.mp4" (1125 # 100) "/clips/b.mp4" 3 (75 # 10)
           [Effect "vignette" "vignette=PI/4"] "screen"
           "staging/clip_000002.ts" (75 # 10) 1.
Proof.
  split; [intros; apply render_clip_passes_g|].
  split; [intros; apply render_bumper_passes_g|].
  intros Hin. apply (bool_decide_eq_true_2 _) in Hin.
  vm_compute in Hin. discriminate.
Qed.
End RenderProps.

(** ** The conductor: recovery, pre-buffer, PTS accounting *)
Section ConductorProps.
Import Effects Clips Render Conductor Samples.
Local Open Scope Q_scope.

(** Unfolds the state updates so that projections compute. *)
Ltac state_simpl :=
  cbn [set_seq set_cumulative_ts set_last_bumper_time set_streamer_proc
       set_music_thread set_prebuffer set_feed_queue set_feeding
       set_last_feed_time set_staging set_audio_fifo log unlink_ts
       seq cumulative_ts last_bumper_time streamer_proc music_thread
       prebuffer feed_queue feeding last_feed_time staging audio_fifo
       trace] in *.

(** Draining the queue only removes staging files. *)
Lemma drain_fold_fields (items : list (string * nat)) (s : state) :
  let s' := foldl (fun acc item => unlink_ts item.1 acc) s items in
  seq s' = seq s /\ cumulative_ts s' = cumulative_ts s /\
  last_bumper_time s' = last_bumper_time s /\
  streamer_proc s' = streamer_proc s /\ music_thread s' = music_thread s /\
  prebuffer s' = prebuffer s /\ feed_queue s' = feed_queue s /\
  last_feed_time s' = last_feed_time s /\ audio_fifo s' = audio_fifo s /\
  trace s' = trace s /\ staging s' ⊆ staging s.
Proof.
  revert s. induction items as [|[p h] items IH]; intros s; simpl.
  - repeat split; done.
  - destruct (IH (unlink_ts p s)) as (?&?&?&?&?&?&?&?&?&?&Hsub).
    state_simpl. repeat split; try done. set_solver.
Qed.

Lemma drain_queue_fields (s : state) :
  streamer_proc (drain_queue s) = streamer_proc s /\
  music_thread (drain_queue s) = music_thread s /\
  audio_fifo (drain_queue s) = audio_fifo s /\
  trace (drain_queue s) = trace s /\
  staging (drain_queue s) ⊆ staging s.
Proof.
  unfold drain_queue.
  destruct (drain_fold_fields (feed_queue s) s) as (?&?&?&?&?&?&?&?&?&?&?).
  state_simpl. repeat split; done.
Qed.

Lemma stop_music_fields (joined : bool) (s : state) :
  streamer_proc (stop_music joined s) = streamer_proc s /\
  staging (stop_music joined s) = staging s /\
  cumulative_ts (stop_music joined s) = cumulative_ts s /\
  renders (trace (stop_music joined s)) = renders (trace s).
Proof.
  unfold stop_music, renders. destruct (music_thread s); state_simpl.
  - rewrite omap_app. simpl. by rewrite app_nil_r.
  - done.
Qed.

(** The encoder handle is cleared on both ways out of the [try] block. *)
Lemma recovery_try_streamer (env : recovery_env) (s s' : state) :
  recovery_try env s = Ok s' -> streamer_proc s' = None.
Proof.
  unfold recovery_try, attempt, bind, mkfifo.
  repeat case_decide; try discriminate.
  match goal with |- context [set_staging ∅ ?Y] => remember Y as X eqn:HX end.
  assert (HXp : streamer_proc X = None).
  { subst X. destruct (drain_queue_fields
              (log (EvSleep 1)
                 (stop_music (music_joined env)
                    (set_streamer_proc None
                       (kill_streamer (streamer_alive env) s)))))
      as (-> & _).
    unfold log at 1. cbn [streamer_proc].
    by destruct (stop_music_fields (music_joined env)
              (set_streamer_proc None (kill_streamer (streamer_alive env) s)))
      as (-> & _). }
  clear HX. state_simpl. destruct (mkfifo_ok env); intros [= <-]; done.
Qed.

Lemma recovery_try_fifo (env : recovery_env) (s s' : state) :
  recovery_try env s = Ok s' -> audio_fifo s' = true.
Proof.
  unfold recovery_try, attempt, bind, mkfifo.
  repeat case_decide; try discriminate.
  state_simpl. destruct (mkfifo_ok env); intros [= <-]; done.
Qed.

Lemma recovery_try_refused (env : recovery_env) (s s' : state) :
  recovery_try env s = Raise s' -> mkfifo_ok env = false \/ fault env <> None.
Proof.
  unfold recovery_try, attempt, bind, mkfifo.
  repeat case_decide; try (intros _; right; congruence).
  state_simpl. destruct (mkfifo_ok env); [discriminate|by left].
Qed.

Lemma recovery_handler_spec (env : recovery_env) (s : state) :
  streamer_proc (recovery_handler env s) = None /\
  (audio_fifo (recovery_handler env s) = true \/ mkfifo_retry_ok env = false).
Proof.
  unfold recovery_handler, mkfifo. state_simpl.
  destruct (audio_fifo s) eqn:Hf; simpl; rewrite ?Hf; [by auto|].
  destruct (mkfifo_retry_ok env); simpl; auto.
Qed.

(** A recovery whose [os.mkfifo] is refused twice ends without a FIFO. *)
Lemma recover_streamer_without_fifo :
  audio_fifo
    (recover_streamer (RecoveryEnv None true false false 1000 true)
       (set_streamer_proc (Some 7%nat) (initial_state ∅ 0)))
  = false.
Proof. reflexivity. Qed.

(** C5 (amended). After every call of the recovery routine, whichever
    clean-up sub-step raises, [cumulative_ts] is 0, the pre-buffer is empty,
    the heartbeat is the current time and the encoder handle is cleared; the
    audio FIFO exists unless [os.mkfifo] was refused, in the handler's retry
    and (if the clean-up got that far) in the clean-up itself. *)
Theorem recover_streamer_resets (env : recovery_env) (s : state) :
  cumulative_ts (recover_streamer env s) = 0 /\
  prebuffer (recover_streamer env s) = [] /\
  last_feed_time (recover_streamer env s) = recovered_at env /\
  streamer_proc (recover_streamer env s) = None /\
  (audio_fifo (recover_streamer env s) = true \/
   mkfifo_retry_ok env = false /\
   (mkfifo_ok env = false \/ fault env <> None)).
Proof.
  unfold recover_streamer.
  destruct (recovery_try env s) as [s1|s1] eqn:Htry; state_simpl.
  - repeat split; try done.
    + by apply (recovery_try_streamer env s).
    + left. by apply (recovery_try_fifo env s).
  - destruct (recovery_handler_spec env s1) as [Hp Hf].
    repeat split; try done.
    destruct Hf as [Hf|Hf]; [by left|right].
    split; [done|]. by apply (recovery_try_refused env s s1).
Qed.

(** Four fragments after a cold start: nothing is spawned for the first
    three, the fourth starts music and encoder and flushes all four. *)
Example cold_start_prebuffer :
  let e := QueueEnv 7 50 false true 0
             (RecoveryEnv None true true true 0 true) in
  let s3 := foldl (fun s p => queue_clip e p s) (initial_state ∅ 0)
              [ts_path 1; ts_path 2; ts_path 3] in
  streamer_proc s3 = None /\ trace s3 = [] /\ feed_queue s3 = [] /\
  let s4 := queue_clip e (ts_path 4) s3 in
  trace s4 = [EvStartMusic; EvSleep (1 # 2); EvSpawnStreamer 7] /\
  feed_queue s4
  = [("staging/clip_000001.ts", 7%nat); ("staging/clip_000002.ts", 7%nat);
     ("staging/clip_000003.ts", 7%nat); ("staging/clip_000004.ts", 7%nat)] /\
  prebuffer s4 = [].
Proof. vm_compute. repeat split. Qed.

(** C6. While no encoder runs, a fragment that is not the fourth of the
    pre-buffer is only appended to it: nothing is started.  The fourth
    starts the music worker, lets 500 ms pass, spawns the encoder, resets
    the heartbeat, and pushes the four pre-buffered fragments to the feeder
    queue in production order, leaving the pre-buffer empty. *)
Theorem queue_clip_prebuffer (e : queue_env) (path : string) (s : state) :
  streamer_proc s = None ->
  (length (prebuffer s) < prebuffer_size)%nat ->
  if decide (length (prebuffer s) + 1 < prebuffer_size)%nat
  then queue_clip e path s = set_prebuffer (prebuffer s ++ [path]) s /\
       streamer_proc (queue_clip e path s) = None /\
       trace (queue_clip e path s) = trace s
  else length (prebuffer s ++ [path]) = 4%nat /\
       trace (queue_clip e path s)
       = trace s ++ [EvStartMusic; EvSleep (1 # 2);
                     EvSpawnStreamer (new_proc e)] /\
       music_thread (queue_clip e path s) = true /\
       streamer_proc (queue_clip e path s) = Some (new_proc e) /\
       last_feed_time (queue_clip e path s) = started_at e /\
       feed_queue (queue_clip e path s)
       = feed_queue s
         ++ map (fun ts => (ts, new_proc e)) (prebuffer s ++ [path]) /\
       prebuffer (queue_clip e path s) = [].
Proof.
  intros Hnone Hlt. unfold queue_clip, prebuffer_size in *. rewrite Hnone.
  state_simpl. rewrite length_app. simpl.
  case_decide as Hfew; case_decide as Hfull; try lia.
  - repeat split; done.
  - unfold start_streamer_and_flush, start_music. state_simpl.
    rewrite ?length_app. simpl. rewrite <- !app_assoc. simpl.
    repeat split; try done; lia.
Qed.

Lemma queue_clip_prebuffer_witness :
  (streamer_proc (initial_state ∅ 0) = None /\
   (length (prebuffer (initial_state ∅ 0)) < prebuffer_size)%nat /\
   queue_clip sample_queue (ts_path 1) (initial_state ∅ 0)
   = set_prebuffer (prebuffer (initial_state ∅ 0) ++ [ts_path 1])
       (initial_state ∅ 0) /\
   streamer_proc (queue_clip sample_queue (ts_path 1) (initial_state ∅ 0))
   = None /\
   trace (queue_clip sample_queue (ts_path 1) (initial_state ∅ 0))
   = trace (initial_state ∅ 0)) /\
  (streamer_proc three_buffered = None /\
   prebuffer three_buffered = [ts_path 1; ts_path 2; ts_path 3] /\
   (length (prebuffer three_buffered) < prebuffer_size)%nat /\
   length (prebuffer three_buffered ++ [ts_path 4]) = 4%nat /\
   trace (queue_clip sample_queue (ts_path 4) three_buffered)
   = trace three_buffered
     ++ [EvStartMusic; EvSleep (1 # 2);
         EvSpawnStreamer (new_proc sample_queue)] /\
   music_thread (queue_clip sample_queue (ts_path 4) three_buffered)
   = true /\
   streamer_proc (queue_clip sample_queue (ts_path 4) three_buffered)
   = Some (new_proc sample_queue) /\
   last_feed_time (queue_clip sample_queue (ts_path 4) three_buffered)
   = started_at sample_queue /\
   feed_queue (queue_clip sample_queue (ts_path 4) three_buffered)
   = feed_queue three_buffered
     ++ map (fun ts => (ts, new_proc sample_queue))
          (prebuffer three_buffered ++ [ts_path 4]) /\
   prebuffer (queue_clip sample_queue (ts_path 4) three_buffered) = []).
Proof.
  split.
  - assert (H1 : streamer_proc (initial_state ∅ 0) = None) by reflexivity.
    assert (H2 : (length (prebuffer (initial_state ∅ 0))
                  < prebuffer_size)%nat)
      by (unfold prebuffer_size; simpl; lia).
    split; [exact H1|]. split; [exact H2|].
    exact (queue_clip_prebuffer sample_queue (ts_path 1) (initial_state ∅ 0)
             H1 H2).
  - assert (H1 : streamer_proc three_buffered = None) by reflexivity.
    assert (H2 : (length (prebuffer three_buffered) < prebuffer_size)%nat)
      by (unfold prebuffer_size; simpl; lia).
    split; [exact H1|]. split; [reflexivity|]. split; [exact H2|].
    generalize (queue_clip_prebuffer sample_queue (ts_path 4) three_buffered
                  H1 H2).
    destruct (decide (length (prebuffer three_buffered) + 1
                      < prebuffer_size)%nat) as [Hlt|Hge].
    + exfalso. unfold prebuffer_size in Hlt. simpl in Hlt. lia.
    + intros H. exact H.
Defined.

(** What every render function does to the state. *)
Lemma run_encoder_spec (kind : render_kind) (cmd : list string)
    (timeout : nat) (out : string) (o : run_outcome) (s : state) :
  exists s', run_encoder kind cmd timeout out o s = (succeeded o, s') /\
    seq s' = seq s /\ cumulative_ts s' = cumulative_ts s /\
    last_bumper_time s' = last_bumper_time s /\
    streamer_proc s' = streamer_proc s /\ prebuffer s' = prebuffer s /\
    feed_queue s' = feed_queue s /\
    trace s' = trace s ++ [EvRender kind cmd timeout] /\
    staging s' ⊆ {[ out ]} ∪ staging s /\
    (succeeded o = false -> out ∉ staging s').
Proof.
  unfold run_encoder.
  destruct (succeeded o), (wrote_output o); eexists; (split; [reflexivity|]);
    state_simpl; repeat split; try done; set_solver.
Qed.

Lemma renders_app (tr1 tr2 : list event) :
  renders (tr1 ++ tr2) = renders tr1 ++ renders tr2.
Proof. apply omap_app. Qed.

(** C4. A clip or overlay render that succeeds advances [cumulative_ts] by
    the use duration times the speed multiplier, a bumper render that
    succeeds by the bumper's duration; a render that fails (non-zero return
    code, time-out or another exception) leaves [cumulative_ts] as it was
    and no output file behind; and [cumulative_ts] does not move when no
    render is attempted. *)
Theorem cumulative_ts_follows_renders
    (cfg : config) (bumper_files : list media)
    (be : bumper_env) (ce : clip_env) (s : state) :
  match render_clip_step cfg ce s with
  | Fragment path s' =>
      succeeded (clip_run ce) = true /\ path = ts_path (S (seq s)) /\
      exists plan,
        pick_clip (active_clips ce) (clip_min_duration cfg)
          (clip_max_duration cfg) (primary ce) = Some plan /\
        cumulative_ts s'
        = cumulative_ts s
          + use_duration plan * pick_speed (dp_name ce) (speed_roll ce)
  | NoFragment s' =>
      succeeded (clip_run ce) = false /\
      cumulative_ts s' = cumulative_ts s /\
      ts_path (S (seq s)) ∉ staging s'
  | Failed s' =>
      cumulative_ts s' = cumulative_ts s /\ trace s' = trace s
  end /\
  match render_bumper_step cfg bumper_files be s with
  | Fragment path s' =>
      succeeded (bumper_run be) = true /\ path = ts_path (S (seq s)) /\
      exists bumper_path bumper_dur,
        choice (bumper_pick be) bumper_files
        = Some (bumper_path, bumper_dur) /\
        cumulative_ts s' = cumulative_ts s + bumper_dur
  | NoFragment s' =>
      cumulative_ts s' = cumulative_ts s /\
      if bumper_due cfg bumper_files (bumper_now be) s
      then succeeded (bumper_run be) = false /\
           ts_path (S (seq s)) ∉ staging s'
      else trace s' = trace s
  | Failed s' =>
      cumulative_ts s' = cumulative_ts s /\ trace s' = trace s
  end.
Proof.
  split.
  - unfold render_clip_step.
    destruct (pick_clip _ _ _ (primary ce)) as [plan|]; [|done].
    destruct (pick_effects _ _ _ (fx ce)) as [effects|]; [|done].
    destruct (should_overlay _ _ && _).
    + destruct (pick_clip _ _ _ (secondary ce)) as [plan2|]; [|done].
      destruct (pick_blend_mode _ _) as [blend|]; [|done].
      destruct (pick_overlay_effects _ _ _ _ _ _) as [effects2|]; [|done].
      unfold render_overlay_clip.
      match goal with |- context [run_encoder ?k ?c ?t ?out ?o ?s0] =>
        destruct (run_encoder_spec k c t out o s0)
          as (s2 & -> & Hseq & Hts & _ & _ & _ & _ & _ & _ & Hgone) end.
      state_simpl.
      destruct (succeeded (clip_run ce)) eqn:Hok; state_simpl.
      * split; [done|]. split; [done|]. exists plan. by rewrite Hts.
      * split; [done|]. split; [done|]. by apply Hgone.
    + unfold render_clip.
      match goal with |- context [run_encoder ?k ?c ?t ?out ?o ?s0] =>
        destruct (run_encoder_spec k c t out o s0)
          as (s2 & -> & Hseq & Hts & _ & _ & _ & _ & _ & _ & Hgone) end.
      state_simpl.
      destruct (succeeded (clip_run ce)) eqn:Hok; state_simpl.
      * split; [done|]. split; [done|]. exists plan. by rewrite Hts.
      * split; [done|]. split; [done|]. by apply Hgone.
  - unfold render_bumper_step.
    destruct (bumper_due cfg bumper_files (bumper_now be) s) eqn:Hdue.
    + destruct (choice (bumper_pick be) bumper_files) as [[bp bd]|] eqn:Hc;
        [|done].
      unfold render_bumper.
      match goal with |- context [run_encoder ?k ?c ?t ?out ?o ?s0] =>
        destruct (run_encoder_spec k c t out o s0)
          as (s2 & -> & Hseq & Hts & _ & _ & _ & _ & _ & _ & Hgone) end.
      state_simpl.
      destruct (succeeded (bumper_run be)) eqn:Hok; state_simpl.
      * split; [done|]. split; [done|]. exists bp, bd. by rewrite Hts.
      * split; [done|]. split; [done|]. by apply Hgone.
    + destruct (Qeq_bool (last_bumper_time s) 0); state_simpl; done.
Qed.
(** *** Actions that neither render nor stage *)

Lemma calm_refl (s : state) : calm s s.
Proof. by split. Qed.

Lemma calm_trans (s1 s2 s3 : state) : calm s1 s2 -> calm s2 s3 -> calm s1 s3.
Proof. intros [H1 H2] [H3 H4]. split; [congruence|set_solver]. Qed.

Lemma calm_same (s s' : state) :
  trace s' = trace s -> staging s' = staging s -> calm s s'.
Proof. intros Ht Hs. split; [by rewrite Ht|by rewrite Hs]. Qed.

Lemma calm_log (ev : event) (s : state) :
  is_render ev = false -> calm s (log ev s).
Proof.
  intros Hev. split; state_simpl; [|done].
  rewrite renders_app. destruct ev; try discriminate; simpl;
    by rewrite app_nil_r.
Qed.

Lemma calm_stop_music (joined : bool) (s : state) :
  calm s (stop_music joined s).
Proof.
  unfold stop_music. destruct (music_thread s); [|apply calm_refl].
  eapply calm_trans; [|by apply calm_log]. by apply calm_same.
Qed.

Lemma calm_kill_streamer (alive : bool) (s : state) :
  calm s (kill_streamer alive s).
Proof.
  unfold kill_streamer. destruct (streamer_proc s), alive;
    try apply calm_refl. by apply calm_log.
Qed.

Lemma calm_drain_queue (s : state) : calm s (drain_queue s).
Proof.
  destruct (drain_queue_fields s) as (_ & _ & _ & Ht & Hs).
  split; [by rewrite Ht|done].
Qed.

Lemma calm_mkfifo (allowed : bool) (s : state) :
  calm s (state_of (mkfifo allowed s)).
Proof.
  unfold mkfifo. destruct (audio_fifo s), allowed; simpl;
    try apply calm_refl. by apply calm_same.
Qed.

Lemma calm_bind (s : state) (o : outcome) (f : state -> outcome) :
  calm s (state_of o) -> (forall s1, calm s1 (state_of (f s1))) ->
  calm s (state_of (bind o f)).
Proof.
  intros Ho Hf. destruct o as [s1|s1]; simpl in *; [|done].
  eapply calm_trans; [exact Ho|apply Hf].
Qed.

Lemma calm_attempt (env : recovery_env) (k : cleanup_step)
    (f : state -> state) (s : state) :
  (forall s1, calm s1 (f s1)) -> calm s (state_of (attempt env k f s)).
Proof.
  intros Hf. unfold attempt. case_decide; simpl; [apply calm_refl|apply Hf].
Qed.

Lemma calm_recovery_try (env : recovery_env) (s : state) :
  calm s (state_of (recovery_try env s)).
Proof.
  unfold recovery_try.
  apply calm_bind.
  { apply calm_attempt. intros s1.
    eapply calm_trans; [apply calm_kill_streamer|by apply calm_same]. }
  intros s1. apply calm_bind; [apply calm_attempt, calm_stop_music|].
  intros s2. apply calm_bind.
  { apply calm_attempt. intros s'. by apply calm_log. }
  intros s3. apply calm_bind; [apply calm_attempt, calm_drain_queue|].
  intros s4. apply calm_bind.
  { apply calm_attempt. intros s'. split; state_simpl; [done|set_solver]. }
  intros s5. eapply calm_trans; [|apply calm_mkfifo]. by apply calm_same.
Qed.

Lemma calm_recovery_handler (env : recovery_env) (s : state) :
  calm s (recovery_handler env s).
Proof.
  unfold recovery_handler.
  destruct (audio_fifo (set_streamer_proc None s)); [by apply calm_same|].
  pose proof (calm_mkfifo (mkfifo_retry_ok env) (set_streamer_proc None s))
    as Hm.
  destruct (mkfifo _ _); simpl in Hm;
    (eapply calm_trans; [|exact Hm]); by apply calm_same.
Qed.

Lemma calm_recover_streamer (env : recovery_env) (s : state) :
  calm s (recover_streamer env s).
Proof.
  unfold recover_streamer.
  pose proof (calm_recovery_try env s) as Htry.
  destruct (recovery_try env s) as [s1|s1]; simpl in Htry.
  - eapply calm_trans; [exact Htry|]. by apply calm_same.
  - eapply calm_trans; [exact Htry|].
    eapply calm_trans; [apply calm_recovery_handler|]. by apply calm_same.
Qed.

Lemma calm_feeder_take (s : state) : calm s (feeder_take s).
Proof.
  unfold feeder_take. destruct (feeding s); [apply calm_refl|].
  destruct (feed_queue s) as [|item rest]; [apply calm_refl|].
  by apply calm_same.
Qed.

Lemma calm_feeder_finish (fed : bool) (now : Q) (s : state) :
  calm s (feeder_finish fed now s).
Proof.
  unfold feeder_finish. destruct (feeding s) as [[path h]|];
    [|apply calm_refl].
  destruct fed; split; state_simpl; try done; set_solver.
Qed.

Lemma calm_start_streamer_and_flush (proc : nat) (now : Q) (s : state) :
  calm s (start_streamer_and_flush proc now s).
Proof.
  unfold start_streamer_and_flush, start_music. split; state_simpl; [|done].
  rewrite !renders_app. simpl. by rewrite !app_nil_r.
Qed.

Lemma calm_queue_clip (e : queue_env) (path : string) (s : state) :
  calm s (queue_clip e path s).
Proof.
  unfold queue_clip. destruct (streamer_proc s) as [proc|].
  - case_decide; [|by apply calm_same].
    destruct (put_timed_out e); [apply calm_recover_streamer|].
    eapply calm_trans; [apply calm_feeder_finish|].
    eapply calm_trans; [apply calm_feeder_take|]. by apply calm_same.
  - case_decide; [|by apply calm_same].
    eapply calm_trans; [|apply calm_start_streamer_and_flush].
    by apply calm_same.
Qed.

Lemma calm_sign_off (e : head_env) (s : state) :
  calm s (state_of (sign_off e s)).
Proof.
  unfold sign_off.
  eapply calm_trans; [apply calm_stop_music|].
  set (s1 := stop_music (head_music_joined e) s).
  apply calm_bind.
  - eapply calm_trans; [|apply calm_mkfifo].
    destruct (streamer_proc s1), (head_streamer_alive e);
      try (by apply calm_same).
    eapply calm_trans; [by apply (calm_log (EvKillStreamer n))|].
    by apply calm_same.
  - intros s4. simpl. destruct (Clock.wait_for_broadcast _);
      [by apply calm_log|apply calm_refl].
Qed.

Lemma calm_loop_head (e : head_env) (s : state) : calm s (loop_head e s).2.
Proof.
  unfold loop_head.
  assert (Hso : calm s (state_of
            (if Clock.is_on_air (clock_now e) then Ok s else sign_off e s))).
  { destruct (Clock.is_on_air _); [apply calm_refl|apply calm_sign_off]. }
  destruct (if Clock.is_on_air (clock_now e) then Ok s else sign_off e s)
    as [s1|s1]; simpl in Hso.
  - destruct (_ && _); simpl; [|done].
    eapply calm_trans; [exact Hso|apply calm_recover_streamer].
  - simpl. eapply calm_trans; [exact Hso|apply calm_recover_streamer].
Qed.
(** *** The render steps *)

Lemma enqueue_calm (e : queue_env) (r : rendered) :
  calm (rendered_state r) (state_of (enqueue e r)).
Proof.
  destruct r; simpl; try apply calm_refl. apply calm_queue_clip.
Qed.

Lemma render_bumper_step_spec (cfg : config) (bumper_files : list media)
    (e : bumper_env) (s : state) :
  (forall s', render_bumper_step cfg bumper_files e s <> Failed s') /\
  renders (trace (rendered_state (render_bumper_step cfg bumper_files e s)))
  = renders (trace s)
    ++ (if bumper_due cfg bumper_files (bumper_now e) s
        then [BumperRender] else []) /\
  staging (rendered_state (render_bumper_step cfg bumper_files e s))
  ⊆ {[ ts_path (S (seq s)) ]} ∪ staging s.
Proof.
  unfold render_bumper_step.
  destruct (bumper_due cfg bumper_files (bumper_now e) s) eqn:Hdue.
  - assert (Hne : bumper_files <> []).
    { unfold bumper_due in Hdue. by destruct bumper_files. }
    destruct (choice_is_Some (bumper_pick e) bumper_files Hne)
      as [[bp bd] ->].
    unfold render_bumper.
    match goal with |- context [run_encoder ?k ?c ?t ?out ?o ?s0] =>
      destruct (run_encoder_spec k c t out o s0)
        as (s2 & -> & _ & _ & _ & _ & _ & _ & Htr & Hst & _) end.
    state_simpl.
    destruct (succeeded (bumper_run e)); cbn [rendered_state]; state_simpl;
      (split; [done|]); rewrite Htr, renders_app; done.
  - destruct (Qeq_bool (last_bumper_time s) 0); cbn [rendered_state];
      state_simpl; (split; [done|]); rewrite app_nil_r;
      split; try done; set_solver.
Qed.

Lemma render_clip_step_staging (cfg : config) (e : clip_env) (s : state) :
  staging (rendered_state (render_clip_step cfg e s))
  ⊆ {[ ts_path (S (seq s)) ]} ∪ staging s.
Proof.
  unfold render_clip_step.
  destruct (pick_clip _ _ _ (primary e)) as [plan|]; [|set_solver].
  destruct (pick_effects _ _ _ (fx e)) as [effects|]; [|set_solver].
  destruct (should_overlay _ _ && _).
  - destruct (pick_clip _ _ _ (secondary e)) as [plan2|];
      [|state_simpl; set_solver].
    destruct (pick_blend_mode _ _) as [blend|]; [|state_simpl; set_solver].
    destruct (pick_overlay_effects _ _ _ _ _ _) as [effects2|];
      [|state_simpl; set_solver].
    unfold render_overlay_clip.
    match goal with |- context [run_encoder ?k ?c ?t ?out ?o ?s0] =>
      destruct (run_encoder_spec k c t out o s0)
        as (s2 & -> & _ & _ & _ & _ & _ & _ & _ & Hst & _) end.
    state_simpl. by destruct (succeeded (clip_run e)); cbn [rendered_state];
      state_simpl.
  - unfold render_clip.
    match goal with |- context [run_encoder ?k ?c ?t ?out ?o ?s0] =>
      destruct (run_encoder_spec k c t out o s0)
        as (s2 & -> & _ & _ & _ & _ & _ & _ & _ & Hst & _) end.
    state_simpl. by destruct (succeeded (clip_run e)); cbn [rendered_state];
      state_simpl.
Qed.

Lemma render_clip_step_renders (cfg : config) (e : clip_env) (s : state) :
  active_clips e <> [] ->
  (effects_per_clip_min cfg <= effects_per_clip_max cfg)%nat ->
  (forall s', render_clip_step cfg e s <> Failed s') /\
  exists kind, (kind = ClipRender \/ kind = OverlayRender) /\
    renders (trace (rendered_state (render_clip_step cfg e s)))
    = renders (trace s) ++ [kind].
Proof.
  intros Hclips Hfx. unfold render_clip_step.
  destruct (choice_is_Some (clip_pick (primary e)) _ Hclips) as [[p1 d1] Hc1].
  destruct (choice_is_Some (clip_pick (secondary e)) _ Hclips)
    as [[p2 d2] Hc2].
  destruct (pick_clip _ _ _ (primary e)) as [plan|] eqn:Hp1.
  2:{ unfold pick_clip in Hp1. rewrite Hc1 in Hp1.
      by destruct (Qleb _ _). }
  destruct (pick_effects_total _ _ (dp_name e) (fx e) Hfx) as [effects ->].
  destruct (should_overlay _ _ && _).
  - destruct (pick_clip _ _ _ (secondary e)) as [plan2|] eqn:Hp2.
    2:{ unfold pick_clip in Hp2. rewrite Hc2 in Hp2.
        by destruct (Qleb _ _). }
    destruct (choice_is_Some (blend_pick e) _
                (blend_modes_nonempty (dp_name e))) as [blend Hb].
    unfold pick_blend_mode. rewrite Hb.
    destruct (pick_overlay_effects_total _ _ (dp_name e) (overlay_fx e)
                (overlay_extra_roll e) (overlay_extra_pick e) Hfx)
      as [effects2 ->].
    unfold render_overlay_clip.
    match goal with |- context [run_encoder ?k ?c ?t ?out ?o ?s0] =>
      destruct (run_encoder_spec k c t out o s0)
        as (s2 & -> & _ & _ & _ & _ & _ & _ & Htr & _ & _) end.
    state_simpl.
    destruct (succeeded (clip_run e)); cbn [rendered_state]; state_simpl;
      (split; [done|]); exists OverlayRender;
      (split; [by right|]); by rewrite Htr, renders_app.
  - unfold render_clip.
    match goal with |- context [run_encoder ?k ?c ?t ?out ?o ?s0] =>
      destruct (run_encoder_spec k c t out o s0)
        as (s2 & -> & _ & _ & _ & _ & _ & _ & Htr & _ & _) end.
    state_simpl.
    destruct (succeeded (clip_run e)); cbn [rendered_state]; state_simpl;
      (split; [done|]); exists ClipRender;
      (split; [by left|]); by rewrite Htr, renders_app.
Qed.
Lemma enqueue_ok (e : queue_env) (r : rendered) :
  (forall s', r <> Failed s') ->
  exists s1, enqueue e r = Ok s1 /\ calm (rendered_state r) s1.
Proof.
  intros Hnf. destruct r as [path s|s|s]; simpl.
  - eexists. split; [done|]. apply calm_queue_clip.
  - eexists. split; [done|]. apply calm_refl.
  - by destruct (Hnf s).
Qed.

(** *** One iteration renders a clip, and a bumper before it when due *)

(** A bumper is due and both renders succeed: two fragments are rendered
    and staged within one iteration. *)
Lemma loop_body_renders_two :
  renders (trace (loop_body sample_cfg sample_bumpers
                    (sample_bumper_env 110) sample_clip_env plain_recovery
                    (set_last_bumper_time 100 (initial_state ∅ 0))))
  = [BumperRender; ClipRender] /\
  prebuffer (loop_body sample_cfg sample_bumpers
               (sample_bumper_env 110) sample_clip_env plain_recovery
               (set_last_bumper_time 100 (initial_state ∅ 0)))
  = ["staging/clip_000001.ts"; "staging/clip_000002.ts"] /\
  ~ (length (renders (trace (loop_body sample_cfg sample_bumpers
                      (sample_bumper_env 110) sample_clip_env plain_recovery
                      (set_last_bumper_time 100 (initial_state ∅ 0)))))
     <= 1)%nat.
Proof.
  assert (H : renders (trace (loop_body sample_cfg sample_bumpers
                    (sample_bumper_env 110) sample_clip_env plain_recovery
                    (set_last_bumper_time 100 (initial_state ∅ 0))))
              = [BumperRender; ClipRender]) by (vm_compute; reflexivity).
  split; [exact H|]. split; [vm_compute; reflexivity|].
  rewrite H. simpl. lia.
Qed.

(** C1 (amended). Every iteration that reaches the render stage (with
    clips to choose from and a valid effect count range) selects and
    renders a clip, single or overlay; when bumpers exist, a bumper time
    has been recorded ([last_bumper_time > 0]) and at least
    [min_interval_minutes] have passed since, a bumper is rendered before
    that clip in the same iteration.  So an iteration renders one fragment,
    or two when a bumper is due. *)
Theorem loop_body_renders (cfg : config) (bumper_files : list media)
    (be : bumper_env) (ce : clip_env) (re : recovery_env) (s : state) :
  active_clips ce <> [] ->
  (effects_per_clip_min cfg <= effects_per_clip_max cfg)%nat ->
  exists kind, (kind = ClipRender \/ kind = OverlayRender) /\
    renders (trace (loop_body cfg bumper_files be ce re s))
    = renders (trace s)
      ++ (if bumper_due cfg bumper_files (bumper_now be) s
          then [BumperRender] else [])
      ++ [kind].
Proof.
  intros Hclips Hfx. unfold loop_body, bumper_phase, clip_phase.
  destruct (render_bumper_step_spec cfg bumper_files be s) as (Hnf & Hr & _).
  destruct (enqueue_ok (bumper_queue be) _ Hnf) as (s1 & -> & [Hc1 _]).
  simpl.
  destruct (render_clip_step_renders cfg ce s1 Hclips Hfx)
    as (Hnf2 & kind & Hkind & Hr2).
  destruct (enqueue_ok (clip_queue ce) _ Hnf2) as (s2 & -> & [Hc2 _]).
  simpl. exists kind. split; [done|].
  rewrite Hc2, Hr2, Hc1, Hr. by rewrite <- app_assoc.
Qed.

Lemma loop_body_renders_witness :
  exists kind, (kind = ClipRender \/ kind = OverlayRender) /\
    renders (trace (loop_body sample_cfg sample_bumpers
                      (sample_bumper_env 110) sample_clip_env plain_recovery
                      (set_last_bumper_time 100 (initial_state ∅ 0))))
    = renders (trace (set_last_bumper_time 100 (initial_state ∅ 0)))
      ++ (if bumper_due sample_cfg sample_bumpers
                (bumper_now (sample_bumper_env 110))
                (set_last_bumper_time 100 (initial_state ∅ 0))
          then [BumperRender] else [])
      ++ [kind].
Proof.
  apply (loop_body_renders sample_cfg sample_bumpers
           (sample_bumper_env 110) sample_clip_env plain_recovery
           (set_last_bumper_time 100 (initial_state ∅ 0))).
  - discriminate.
  - vm_compute. lia.
Defined.

(** *** The pre-buffer never holds four fragments between two steps *)

Lemma recover_streamer_short (env : recovery_env) (s : state) :
  short (recover_streamer env s).
Proof.
  unfold short, recover_streamer, prebuffer_size. state_simpl. simpl. lia.
Qed.

Lemma feeder_take_prebuffer (s : state) :
  prebuffer (feeder_take s) = prebuffer s.
Proof.
  unfold feeder_take. destruct (feeding s); [done|].
  by destruct (feed_queue s).
Qed.

Lemma feeder_finish_prebuffer (fed : bool) (now : Q) (s : state) :
  prebuffer (feeder_finish fed now s) = prebuffer s.
Proof.
  unfold feeder_finish. destruct (feeding s) as [[path h]|]; [|done].
  by destruct fed.
Qed.

Lemma queue_clip_short (e : queue_env) (path : string) (s : state) :
  short s -> short (queue_clip e path s).
Proof.
  unfold short, queue_clip, prebuffer_size. intros Hs.
  destruct (streamer_proc s) as [proc|].
  - case_decide; [|done].
    destruct (put_timed_out e); [apply recover_streamer_short|].
    state_simpl.
    by rewrite feeder_take_prebuffer, feeder_finish_prebuffer.
  - state_simpl. case_decide as Hfull.
    + unfold start_streamer_and_flush, start_music. state_simpl. simpl. lia.
    + state_simpl. lia.
Qed.

Lemma render_bumper_step_prebuffer (cfg : config)
    (bumper_files : list media) (e : bumper_env) (s : state) :
  prebuffer (rendered_state (render_bumper_step cfg bumper_files e s))
  = prebuffer s.
Proof.
  unfold render_bumper_step.
  destruct (bumper_due _ _ _ _).
  - destruct (choice _ _) as [[bp bd]|]; [|done]. unfold render_bumper.
    match goal with |- context [run_encoder ?k ?c ?t ?out ?o ?s0] =>
      destruct (run_encoder_spec k c t out o s0)
        as (s2 & -> & _ & _ & _ & _ & Hp & _) end.
    by destruct (succeeded (bumper_run e)).
  - by destruct (Qeq_bool _ _).
Qed.

Lemma render_clip_step_prebuffer (cfg : config) (e : clip_env) (s : state) :
  prebuffer (rendered_state (render_clip_step cfg e s)) = prebuffer s.
Proof.
  unfold render_clip_step.
  destruct (pick_clip _ _ _ (primary e)) as [plan|]; [|done].
  destruct (pick_effects _ _ _ (fx e)) as [effects|]; [|done].
  destruct (should_overlay _ _ && _).
  - destruct (pick_clip _ _ _ (secondary e)) as [plan2|]; [|done].
    destruct (pick_blend_mode _ _) as [blend|]; [|done].
    destruct (pick_overlay_effects _ _ _ _ _ _) as [effects2|]; [|done].
    unfold render_overlay_clip.
    match goal with |- context [run_encoder ?k ?c ?t ?out ?o ?s0] =>
      destruct (run_encoder_spec k c t out o s0)
        as (s2 & -> & _ & _ & _ & _ & Hp & _) end.
    by destruct (succeeded (clip_run e)).
  - unfold render_clip.
    match goal with |- context [run_encoder ?k ?c ?t ?out ?o ?s0] =>
      destruct (run_encoder_spec k c t out o s0)
        as (s2 & -> & _ & _ & _ & _ & Hp & _) end.
    by destruct (succeeded (clip_run e)).
Qed.

Lemma enqueue_short (e : queue_env) (r : rendered) :
  short (rendered_state r) -> short (state_of (enqueue e r)).
Proof. destruct r; simpl; try done. apply queue_clip_short. Qed.

Lemma after_phase_short (next : pc) (re : recovery_env) (o : outcome) :
  short (state_of o) -> short (after_phase next re o).2.
Proof.
  destruct o; simpl; [done|]. intros _. apply recover_streamer_short.
Qed.

Lemma sign_off_prebuffer (e : head_env) (s : state) :
  prebuffer (state_of (sign_off e s)) = prebuffer s.
Proof.
  unfold sign_off, mkfifo, stop_music, bind. state_simpl.
  destruct (music_thread s); state_simpl;
    destruct (streamer_proc s), (head_streamer_alive e),
      (head_mkfifo_ok e), (Clock.wait_for_broadcast (clock_later e)); done.
Qed.

Lemma loop_head_short (e : head_env) (s : state) :
  short s -> short (loop_head e s).2.
Proof.
  intros Hs. unfold loop_head.
  assert (Hso : short (state_of
            (if Clock.is_on_air (clock_now e) then Ok s else sign_off e s))).
  { destruct (Clock.is_on_air _); [done|].
    unfold short. by rewrite sign_off_prebuffer. }
  destruct (if Clock.is_on_air (clock_now e) then Ok s else sign_off e s);
    simpl in *; [|apply recover_streamer_short].
  destruct (_ && _); simpl; [apply recover_streamer_short|done].
Qed.

(** Whatever the loop does, four fragments are never left in the
    pre-buffer: the fourth is flushed with the first three. *)
Lemma reachable_short (cfg : config) (bumper_files : list media)
    (s0 : state) (st : pc * state) :
  short s0 -> reachable cfg bumper_files s0 st -> short st.2.
Proof.
  intros H0 Hreach. unfold reachable in Hreach. revert st Hreach.
  apply (rtc_ind_r (fun st => short st.2) (AtTop, s0)); [done|].
  intros y z _ Hstep IH.
  destruct Hstep as [e s|s Hfull|s Hfree|e re s|e re s|p s|fed now p s];
    simpl in *.
  - by apply loop_head_short.
  - done.
  - done.
  - apply after_phase_short, enqueue_short. unfold short.
    by rewrite render_bumper_step_prebuffer.
  - apply after_phase_short, enqueue_short. unfold short.
    by rewrite render_clip_step_prebuffer.
  - unfold short. by rewrite feeder_take_prebuffer.
  - unfold short. by rewrite feeder_finish_prebuffer.
Qed.

(** *** The staging guard *)

Local Open Scope nat_scope.

Lemma size_staged_one (path : string) (X Y : gset string) :
  Y ⊆ {[ path ]} ∪ X -> size Y <= S (size X).
Proof.
  intros Hsub. apply subseteq_size in Hsub.
  rewrite size_union_alt, size_singleton in Hsub.
  assert (size (X ∖ {[ path ]}) <= size X)
    by (apply subseteq_size; set_solver).
  lia.
Qed.

Lemma calm_size (s s' : state) :
  calm s s' -> count_staging_files s' <= count_staging_files s.
Proof.
  intros [_ Hsub]. unfold count_staging_files. by apply subseteq_size.
Qed.

Lemma loop_head_pc (e : head_env) (s : state) :
  (loop_head e s).1 = AtTop \/ (loop_head e s).1 = AtGuard.
Proof.
  unfold loop_head.
  destruct (if Clock.is_on_air (clock_now e) then Ok s else sign_off e s);
    [|by left].
  destruct (_ && _); simpl; auto.
Qed.

Lemma after_phase_bound (next : pc) (re : recovery_env) (o : outcome)
    (n : nat) :
  count_staging_files (state_of o) <= n ->
  n <= staging_bound next -> n <= 31 ->
  count_staging_files (after_phase next re o).2
  <= staging_bound (after_phase next re o).1.
Proof.
  intros Ho Hn H31. destruct o as [s|s]; simpl in *; [lia|].
  pose proof (calm_size _ _ (calm_recover_streamer re s)). lia.
Qed.

(** From at most 31 staging files the loop never gets beyond 31: it passes
    the guard with at most 29 and stages at most a bumper and a clip before
    it meets the guard again. *)
Lemma step_staging_bound (cfg : config) (bumper_files : list media)
    (st st' : pc * state) :
  step cfg bumper_files st st' ->
  count_staging_files st.2 <= staging_bound st.1 ->
  count_staging_files st'.2 <= staging_bound st'.1.
Proof.
  intros Hstep.
  destruct Hstep as [e s|s Hfull|s Hfree|e re s|e re s|p s|fed now p s];
    simpl; intros Hb.
  - pose proof (calm_size _ _ (calm_loop_head e s)).
    destruct (loop_head_pc e s) as [-> | ->]; simpl; lia.
  - done.
  - unfold MAX_STAGING_FILES in Hfree. lia.
  - apply (after_phase_bound _ _ _ 30); simpl; try lia.
    unfold bumper_phase.
    destruct (render_bumper_step_spec cfg bumper_files e s) as (_ & _ & Hst).
    pose proof (calm_size _ _ (enqueue_calm (bumper_queue e)
                  (render_bumper_step cfg bumper_files e s))).
    apply size_staged_one in Hst. unfold count_staging_files in *. lia.
  - apply (after_phase_bound _ _ _ 31); simpl; try lia.
    unfold clip_phase.
    pose proof (render_clip_step_staging cfg e s) as Hst.
    pose proof (calm_size _ _ (enqueue_calm (clip_queue e)
                  (render_clip_step cfg e s))).
    apply size_staged_one in Hst. unfold count_staging_files in *. lia.
  - pose proof (calm_size _ _ (calm_feeder_take s)).
    destruct p; simpl in *; lia.
  - pose proof (calm_size _ _ (calm_feeder_finish fed now s)).
    destruct p; simpl in *; lia.
Qed.

Lemma reachable_staging_bound (cfg : config) (bumper_files : list media)
    (s0 : state) (st : pc * state) :
  count_staging_files s0 <= 31 ->
  reachable cfg bumper_files s0 st ->
  count_staging_files st.2 <= 31.
Proof.
  intros H0 Hreach.
  assert (count_staging_files st.2 <= staging_bound st.1) as Hb.
  { unfold reachable in Hreach. revert st Hreach.
    apply (rtc_ind_r
             (fun st => count_staging_files st.2 <= staging_bound st.1)
             (AtTop, s0)); [simpl; lia|].
    intros y z _ Hstep IH. by eapply step_staging_bound. }
  destruct st as [[] s]; simpl in *; lia.
Qed.
(** C3. Started on a staging directory that holds 28 fragments of an
    earlier run, the loop stages a clip in its first iteration (29 files,
    below the guard's threshold) and a bumper and a clip in the second:
    31 [.ts] files, more than [MAX_STAGING_FILES]. *)
Theorem staging_exceeds_max :
  reachable sample_cfg sample_bumpers start0 (AtTop, iter2_clip) /\
  count_staging_files start0 = 28 /\
  count_staging_files iter1_clip = 29 /\
  count_staging_files iter2_clip = 31 /\
  ~ count_staging_files iter2_clip <= MAX_STAGING_FILES.
Proof.
  assert (H31 : count_staging_files iter2_clip = 31)
    by (vm_compute; reflexivity).
  split; [|split; [vm_compute; reflexivity|]; split;
             [vm_compute; reflexivity|]; split;
             [exact H31|rewrite H31; unfold MAX_STAGING_FILES; lia]].
  unfold reachable.
  eapply rtc_l; [apply (step_head _ _ (sample_head_env 100))|].
  replace (loop_head (sample_head_env 100) start0) with (AtGuard, start0)
    by (vm_compute; reflexivity).
  eapply rtc_l.
  { apply step_guard_pass. vm_compute. lia. }
  eapply rtc_l;
    [apply (step_bumper _ _ (sample_bumper_env 100) plain_recovery)|].
  replace (after_phase AtClip plain_recovery
             (bumper_phase sample_cfg sample_bumpers (sample_bumper_env 100)
                start0))
    with (AtClip, iter1_bumper) by (vm_compute; reflexivity).
  eapply rtc_l; [apply (step_clip _ _ sample_clip_env plain_recovery)|].
  replace (after_phase AtTop plain_recovery
             (clip_phase sample_cfg sample_clip_env iter1_bumper))
    with (AtTop, iter1_clip) by (vm_compute; reflexivity).
  eapply rtc_l; [apply (step_head _ _ (sample_head_env 110))|].
  replace (loop_head (sample_head_env 110) iter1_clip)
    with (AtGuard, iter1_clip) by (vm_compute; reflexivity).
  eapply rtc_l.
  { apply step_guard_pass. vm_compute. lia. }
  eapply rtc_l;
    [apply (step_bumper _ _ (sample_bumper_env 110) plain_recovery)|].
  replace (after_phase AtClip plain_recovery
             (bumper_phase sample_cfg sample_bumpers (sample_bumper_env 110)
                iter1_clip))
    with (AtClip, iter2_bumper) by (vm_compute; reflexivity).
  eapply rtc_l; [apply (step_clip _ _ sample_clip_env plain_recovery)|].
  replace (after_phase AtTop plain_recovery
             (clip_phase sample_cfg sample_clip_env iter2_bumper))
    with (AtTop, iter2_clip) by (vm_compute; reflexivity).
  apply rtc_refl.
Qed.
End ConductorProps.

(** ** The music thread *)
Section MusicProps.
Import Clips Music.

(** Two tracks; the decoder of the first fails at once (no output, return
    code 1): the second is played, and the FIFO stays open. *)
Example failed_decoder_skipped :
  music_worker true
    [Playlist false "daytime"
       [(("/music/broken.mp3", 200%Q), TrackEnv false "daytime" [] 1);
        (("/music/fine.mp3", 180%Q),
         TrackEnv false "daytime"
           [ChunkIO false 65536%N true; ChunkIO false 1024%N true] 0)]]
  = ([OpenFifo; Shuffle "daytime" 2;
      SpawnDecoder "/music/broken.mp3"; ReapDecoder;
      SpawnDecoder "/music/fine.mp3"; WriteChunk 65536%N; WriteChunk 1024%N;
      ReapDecoder], Running).
Proof. reflexivity. Qed.

(** A write into a FIFO whose reader is gone ends the worker. *)
Example broken_pipe_ends_worker :
  music_worker true
    [Playlist false "daytime"
       [(("/music/fine.mp3", 180%Q),
         TrackEnv false "daytime"
           [ChunkIO false 65536%N true; ChunkIO false 65536%N false] 0);
        (("/music/next.mp3", 100%Q), TrackEnv false "daytime" [] 0)];
     NoMusic false false]
  = ([OpenFifo; Shuffle "daytime" 2;
      SpawnDecoder "/music/fine.mp3"; WriteChunk 65536%N;
      WriteFailed; KillDecoder; ReapDecoder; CloseFifo], Exited).
Proof. reflexivity. Qed.

Lemma pump_no_close (ios : list chunk_io) : CloseFifo ∉ (pump ios).1.
Proof.
  induction ios as [|io ios IH]; simpl; [apply not_elem_of_nil|].
  destruct (stop_seen io); [apply not_elem_of_nil|].
  destruct (write_ok io); simpl; set_solver.
Qed.

Lemma play_no_close (current : string) (tracks : list (media * track_env)) :
  CloseFifo ∉ (play current tracks).1.
Proof.
  induction tracks as [|[track te] tracks IH]; simpl; [apply not_elem_of_nil|].
  destruct (stop_before te); [apply not_elem_of_nil|].
  destruct (negb _); [apply not_elem_of_nil|].
  pose proof (pump_no_close (decoder_output te)).
  destruct (pump (decoder_output te)).2; simpl; set_solver.
Qed.

Lemma supervise_no_close (rounds : list round) :
  CloseFifo ∉ (supervise rounds).1.
Proof.
  induction rounds as [|[stop w|stop name tracks] rounds IH]; simpl;
    [apply not_elem_of_nil| |].
  - destruct stop; [apply not_elem_of_nil|].
    destruct w; simpl; set_solver.
  - destruct stop; [apply not_elem_of_nil|].
    pose proof (play_no_close name tracks).
    destruct (play name tracks).2; simpl; set_solver.
Qed.

(** A write error is the last but one event of the copy loop ... *)
Lemma pump_write_failed (ios : list chunk_io) :
  WriteFailed ∈ (pump ios).1 ->
  (pump ios).2 = TrackBroken /\
  exists tr, (pump ios).1 = tr ++ [WriteFailed; KillDecoder].
Proof.
  induction ios as [|io ios IH]; simpl; [by intros ?%elem_of_nil|].
  destruct (stop_seen io); [by intros ?%elem_of_nil|].
  destruct (write_ok io); simpl.
  - intros [?|Hin]%elem_of_cons; [done|].
    destruct (IH Hin) as (He & tr & Htr). split; [done|].
    exists (WriteChunk (chunk_len io) :: tr). by rewrite Htr.
  - intros _. split; [done|]. by exists [].
Qed.

Lemma pump_broken (ios : list chunk_io) :
  (pump ios).2 = TrackBroken -> WriteFailed ∈ (pump ios).1.
Proof.
  induction ios as [|io ios IH]; simpl; [done|].
  destruct (stop_seen io); [done|].
  destruct (write_ok io); simpl; [|set_solver].
  intros H. apply elem_of_cons. right. by apply IH.
Qed.

(** ... of the playlist loop ... *)
Lemma play_write_failed (current : string)
    (tracks : list (media * track_env)) :
  WriteFailed ∈ (play current tracks).1 ->
  (play current tracks).2 = Broken /\
  exists tr, (play current tracks).1
             = tr ++ [WriteFailed; KillDecoder; ReapDecoder].
Proof.
  induction tracks as [|[track te] tracks IH]; simpl;
    [by intros ?%elem_of_nil|].
  destruct (stop_before te); [by intros ?%elem_of_nil|].
  destruct (negb _); [by intros ?%elem_of_nil|].
  destruct (pump (decoder_output te)).2 eqn:He; simpl.
  - intros [?|Hin]%elem_of_cons; [done|].
    rewrite !elem_of_app in Hin. destruct Hin as [[Hin|Hin]|Hin].
    + apply pump_write_failed in Hin as [Hb _]. congruence.
    + apply list_elem_of_singleton in Hin. done.
    + destruct (IH Hin) as (Hb & tr & Htr). split; [done|].
      exists (SpawnDecoder track.1
              :: ((pump (decoder_output te)).1 ++ [ReapDecoder]) ++ tr).
      rewrite Htr. simpl. by rewrite !app_assoc.
  - intros [?|Hin]%elem_of_cons; [done|].
    rewrite elem_of_app in Hin. destruct Hin as [Hin|Hin].
    + apply pump_write_failed in Hin as [Hb _]. congruence.
    + apply list_elem_of_singleton in Hin. done.
  - intros _. split; [done|].
    destruct (pump_write_failed _ (pump_broken _ He)) as (_ & tr & ->).
    exists (SpawnDecoder track.1 :: tr). simpl. by rewrite <- app_assoc.
Qed.

Lemma play_broken (current : string) (tracks : list (media * track_env)) :
  (play current tracks).2 = Broken -> WriteFailed ∈ (play current tracks).1.
Proof.
  induction tracks as [|[track te] tracks IH]; simpl; [done|].
  destruct (stop_before te); [done|]. destruct (negb _); [done|].
  destruct (pump (decoder_output te)).2 eqn:He; simpl; [|done|].
  - intros H. apply elem_of_cons. right. rewrite !elem_of_app. right.
    by apply IH.
  - intros _. apply pump_broken in He. set_solver.
Qed.

(** ... and of the worker's loop. *)
Lemma supervise_write_failed (rounds : list round) :
  WriteFailed ∈ (supervise rounds).1 ->
  (supervise rounds).2 = Exited /\
  exists tr, (supervise rounds).1
             = tr ++ [WriteFailed; KillDecoder; ReapDecoder].
Proof.
  induction rounds as [|[stop w|stop name tracks] rounds IH]; simpl;
    [by intros ?%elem_of_nil| |].
  - destruct stop; [by intros ?%elem_of_nil|].
    destruct w; simpl.
    + intros [?|?%elem_of_nil]%elem_of_cons; done.
    + intros [?|Hin]%elem_of_cons; [done|].
      destruct (IH Hin) as (He & tr & Htr). split; [done|].
      exists (Sleep30 :: tr). by rewrite Htr.
  - destruct stop; [by intros ?%elem_of_nil|].
    destruct (play name tracks).2 eqn:He; simpl.
    + intros [?|Hin]%elem_of_cons; [done|].
      rewrite elem_of_app in Hin. destruct Hin as [Hin|Hin].
      * apply play_write_failed in Hin as [Hb _]. congruence.
      * destruct (IH Hin) as (Hx & tr & Htr). split; [done|].
        exists (Shuffle name (length tracks) :: (play name tracks).1 ++ tr).
        rewrite Htr. simpl. by rewrite app_assoc.
    + intros [?|Hin]%elem_of_cons; [done|].
      rewrite elem_of_app in Hin. destruct Hin as [Hin|Hin].
      * apply play_write_failed in Hin as [Hb _]. congruence.
      * destruct (IH Hin) as (Hx & tr & Htr). split; [done|].
        exists (Shuffle name (length tracks) :: (play name tracks).1 ++ tr).
        rewrite Htr. simpl. by rewrite app_assoc.
    + intros [?|Hin]%elem_of_cons; [done|].
      apply play_write_failed in Hin as [Hb _]. congruence.
    + intros _. split; [done|].
      destruct (play_write_failed _ _ (play_broken _ _ He)) as (_ & tr & ->).
      by exists (Shuffle name (length tracks) :: tr).
Qed.

(** A track whose decoder stops early, or yields nothing at all, is reaped
    and followed by the next track. *)
Lemma pump_all_written (ios : list chunk_io) :
  Forall (fun io => stop_seen io = false /\ write_ok io = true) ios ->
  pump ios = (map (fun io => WriteChunk (chunk_len io)) ios, TrackDone).
Proof.
  induction 1 as [|io ios [Hs Hw] _ IH]; simpl; [done|].
  by rewrite Hs, Hw, IH.
Qed.

(** C7. In every run of the music worker the FIFO is closed at most once,
    as the worker's last action: not between tracks and not between
    reshuffles.  A failed FIFO write is followed only by the killing and
    reaping of the decoder and the closing of the FIFO: the worker exits.
    A track whose decoder ends early or fails outright (whatever its return
    code), with the FIFO taking what it yielded, is followed by the rest of
    the playlist. *)
Theorem music_worker_fifo (fifo_opens : bool) (rounds : list round)
    (current : string) (track : media) (te : track_env)
    (rest : list (media * track_env)) :
  stop_before te = false ->
  daypart_now te = current ->
  Forall (fun io => stop_seen io = false /\ write_ok io = true)
         (decoder_output te) ->
  closed_only_at_exit (music_worker fifo_opens rounds) /\
  write_error_ends (music_worker fifo_opens rounds) /\
  play current ((track, te) :: rest)
  = (SpawnDecoder track.1
     :: map (fun io => WriteChunk (chunk_len io)) (decoder_output te)
     ++ [ReapDecoder] ++ (play current rest).1,
     (play current rest).2).
Proof.
  intros Hstop Hday Hout. split; [|split].
  - unfold closed_only_at_exit, music_worker.
    pose proof (supervise_no_close rounds) as Hnc.
    destruct fifo_opens; simpl; [|by left].
    destruct (supervise rounds).2; simpl.
    + right. exists (OpenFifo :: (supervise rounds).1). split; [done|].
      set_solver.
    + set_solver.
  - unfold write_error_ends, music_worker.
    destruct fifo_opens; simpl; [|by intros ?%elem_of_nil].
    destruct (supervise rounds).2 eqn:He; simpl.
    + intros [?|Hin]%elem_of_cons; [done|].
      rewrite elem_of_app in Hin. destruct Hin as [Hin|Hin].
      * destruct (supervise_write_failed rounds Hin) as (_ & tr & ->).
        split; [done|]. exists (OpenFifo :: tr). simpl.
        by rewrite <- app_assoc.
      * apply list_elem_of_singleton in Hin. done.
    + intros [?|Hin]%elem_of_cons; [done|].
      apply supervise_write_failed in Hin as [Hx _]. congruence.
  - simpl. rewrite Hstop, Hday, String.eqb_refl. simpl.
    rewrite (pump_all_written _ Hout). simpl.
    by rewrite <- app_assoc.
Qed.

Lemma music_worker_fifo_witness :
  closed_only_at_exit
    (music_worker true
       [Playlist false "daytime"
          [(("/music/fine.mp3", 180%Q),
            TrackEnv false "daytime"
              [ChunkIO false 65536%N true; ChunkIO false 65536%N false] 0)]]) /\
  write_error_ends
    (music_worker true
       [Playlist false "daytime"
          [(("/music/fine.mp3", 180%Q),
            TrackEnv false "daytime"
              [ChunkIO false 65536%N true; ChunkIO false 65536%N false] 0)]]) /\
  play "daytime"
    [(("/music/broken.mp3", 200%Q), TrackEnv false "daytime" [] 1);
     (("/music/fine.mp3", 180%Q),
      TrackEnv false "daytime" [ChunkIO false 65536%N true] 0)]
  = (SpawnDecoder "/music/broken.mp3"
     :: map (fun io => WriteChunk (chunk_len io)) []
     ++ [ReapDecoder]
     ++ (play "daytime"
           [(("/music/fine.mp3", 180%Q),
             TrackEnv false "daytime" [ChunkIO false 65536%N true] 0)]).1,
     (play "daytime"
        [(("/music/fine.mp3", 180%Q),
          TrackEnv false "daytime" [ChunkIO false 65536%N true] 0)]).2).
Proof.
  apply (music_worker_fifo true
           [Playlist false "daytime"
              [(("/music/fine.mp3", 180%Q),
                TrackEnv false "daytime"
                  [ChunkIO false 65536%N true; ChunkIO false 65536%N false] 0)]]
           "daytime" ("/music/broken.mp3", 200%Q)
           (TrackEnv false "daytime" [] 1)
           [(("/music/fine.mp3", 180%Q),
             TrackEnv false "daytime" [ChunkIO false 65536%N true] 0)]).
  - reflexivity.
  - reflexivity.
  - simpl. apply Forall_nil_2.
Defined.
End MusicProps.


(** * Further properties of the code *)

(** ** Dayparts, scans and the disk guard *)
Section LibraryProps.
Import Clips Library.

Example suffix_samples :
  map path_suffix ["a/b/c.MP4"; ".hidden"; "x."; "dir.d/file"; "a.tar.gz"]
  = [".MP4"; ""; ""; ""; ".gz"] /\
  lower ".MP4" = ".mp4" /\ path_join "/music" "day" = "/music/day" /\
  path_join "/music/" "day" = "/music/day" /\
  path_join "/music" "/abs" = "/abs".
Proof. vm_compute. repeat split. Qed.

(** X1. [get_current_daypart] returns the first daypart of the list that
    covers the hour, and [None] exactly when none does. *)
Theorem get_current_daypart_first (dayparts : list daypart) (hour : Z) :
  match get_current_daypart dayparts hour with
  | Some dp =>
      covers dp hour = true /\
      exists before after,
        dayparts = before ++ dp :: after /\
        Forall (fun d => covers d hour = false) before
  | None => Forall (fun d => covers d hour = false) dayparts
  end.
Proof.
  induction dayparts as [|d rest IH]; simpl; [by apply Forall_nil_2|].
  destruct (covers d hour) eqn:Hd.
  - split; [done|]. exists [], rest. split; [done|]. by apply Forall_nil_2.
  - destruct (get_current_daypart rest hour) as [dp|].
    + destruct IH as (Hc & before & after & -> & Hb). split; [done|].
      exists (d :: before), after. split; [done|]. by apply Forall_cons_2.
    + by apply Forall_cons_2.
Qed.

(** X2. A daypart that runs from [e] to [s] with [s < e] and the daypart
    that runs from [s] on and wraps around midnight to [e] share the day:
    every hour is covered by exactly one of them. *)
Theorem wrapping_daypart_complements (day night : daypart) (hour : Z) :
  (start_hour day < end_hour day)%Z ->
  start_hour night = end_hour day ->
  end_hour night = start_hour day ->
  covers night hour = negb (covers day hour).
Proof.
  intros Hlt Hs He. unfold covers. rewrite Hs, He.
  destruct (Z.ltb_spec (start_hour day) (end_hour day)); [|lia].
  destruct (Z.ltb_spec (end_hour day) (start_hour day)); [lia|].
  destruct (Z.leb_spec (start_hour day) hour),
    (Z.ltb_spec hour (end_hour day)),
    (Z.leb_spec (end_hour day) hour),
    (Z.ltb_spec hour (start_hour day)); simpl; try done; lia.
Qed.

Lemma wrapping_daypart_complements_witness :
  (start_hour (Daypart "daytime" 10 18 "day")
   < end_hour (Daypart "daytime" 10 18 "day"))%Z /\
  covers (Daypart "nighttime" 18 10 "night") 3
  = negb (covers (Daypart "daytime" 10 18 "day") 3).
Proof.
  assert (H : (start_hour (Daypart "daytime" 10 18 "day")
               < end_hour (Daypart "daytime" 10 18 "day"))%Z)
    by (simpl; lia).
  split; [exact H|].
  exact (wrapping_daypart_complements (Daypart "daytime" 10 18 "day")
           (Daypart "nighttime" 18 10 "night") 3 H eq_refl eq_refl).
Defined.

(** X3. A daypart whose start and end hour coincide covers every hour:
    placed first, it is the current daypart at any time and the entries
    after it are never reached. *)
Theorem degenerate_daypart_shadows (dp : daypart) (rest : list daypart)
    (hour : Z) :
  start_hour dp = end_hour dp ->
  get_current_daypart (dp :: rest) hour = Some dp.
Proof.
  intros Heq. simpl. unfold covers. rewrite Heq.
  rewrite Z.ltb_irrefl.
  destruct (Z.leb_spec (end_hour dp) hour), (Z.ltb_spec hour (end_hour dp));
    simpl; try done; lia.
Qed.

Lemma degenerate_daypart_shadows_witness :
  get_current_daypart
    [Daypart "always" 0 0 "all"; Daypart "daytime" 10 18 "day"] 12
  = Some (Daypart "always" 0 0 "all").
Proof.
  exact (degenerate_daypart_shadows (Daypart "always" 0 0 "all")
           [Daypart "daytime" 10 18 "day"] 12 eq_refl).
Defined.

Lemma scan_entry_Some (extensions : gset string) (f : dir_entry) (m : media) :
  scan_entry extensions f = Some m ->
  m.1 = entry_path f /\ entry_is_file f = true /\
  lower (path_suffix (entry_path f)) ∈ extensions /\
  entry_probe f = Some m.2 /\ (0 < m.2)%Q.
Proof.
  unfold scan_entry.
  destruct (entry_is_file f); simpl; [|done].
  case_bool_decide as Hext; simpl; [|done].
  destruct (entry_probe f) as [dur|]; [|done].
  destruct (Qltb 0 dur) eqn:Hpos; [|done].
  intros [= <-]. simpl. repeat split; try done. by apply Qltb_lt.
Qed.

(** X4. [scan_media_files] returns nothing for a missing directory.
    Otherwise every entry it returns is a regular file of the listing with
    one of the wanted extensions (compared in lower case) and a probed
    duration that is strictly positive, and the entries come in the order
    of the listing. *)
Theorem scan_media_files_sound (fs : file_system) (directory : string)
    (extensions : gset string) :
  match fs directory with
  | None => scan_media_files fs directory extensions = []
  | Some entries =>
      Forall (fun m =>
                (0 < m.2)%Q /\
                exists f, f ∈ entries /\ entry_path f = m.1 /\
                          entry_is_file f = true /\
                          entry_probe f = Some m.2 /\
                          lower (path_suffix m.1) ∈ extensions)
             (scan_media_files fs directory extensions) /\
      sublist (map fst (scan_media_files fs directory extensions))
              (map entry_path entries)
  end.
Proof.
  unfold scan_media_files. destruct (fs directory) as [entries|]; [|done].
  split.
  - apply Forall_forall. intros m Hm.
    apply list_elem_of_omap in Hm as (f & Hf & Hs).
    apply scan_entry_Some in Hs as (Hp & Hfile & Hext & Hprobe & Hpos).
    split; [done|]. exists f. rewrite <- Hp in *. done.
  - induction entries as [|f entries IH]; simpl; [constructor|].
    destruct (scan_entry extensions f) as [m|] eqn:Hs; simpl.
    + apply scan_entry_Some in Hs as (-> & _). by apply sublist_skip.
    + by apply sublist_cons.
Qed.

(** X5. Clips that come from a scan always give a usable plan: with
    [0 < min_dur <= max_dur], [pick_clip] on a non-empty scan result
    returns a clip of the scan with a use duration that is strictly
    positive and at most [max_dur], and a seek start that is not
    negative. *)
Theorem pick_clip_on_scan (fs : file_system) (directory : string)
    (min_dur max_dur : Q) (d : clip_draws) :
  scan_media_files fs directory MEDIA_EXTENSIONS <> [] ->
  (0 < min_dur)%Q -> (min_dur <= max_dur)%Q ->
  (0 <= dur_roll d)%Q /\ (dur_roll d < 1)%Q ->
  (0 <= start_roll d)%Q /\ (start_roll d < 1)%Q ->
  exists plan dur,
    pick_clip (scan_media_files fs directory MEDIA_EXTENSIONS)
      min_dur max_dur d = Some plan /\
    (plan_path plan, dur) ∈ scan_media_files fs directory MEDIA_EXTENSIONS /\
    (0 < use_duration plan)%Q /\ (use_duration plan <= max_dur)%Q /\
    (use_duration plan <= dur)%Q /\ (0 <= seek_start plan)%Q.
Proof.
  intros Hne Hmin Hle [Hd0 Hd1] [Hs0 Hs1].
  destruct (choice_is_Some (clip_pick d) _ Hne) as [[path dur] Hc].
  assert (Hin := choice_elem _ _ _ Hc).
  assert (Hpos : (0 < dur)%Q).
  { pose proof (scan_media_files_sound fs directory MEDIA_EXTENSIONS) as Hs.
    unfold scan_media_files in *. destruct (fs directory); [|done].
    destruct Hs as [Hall _]. rewrite Forall_forall in Hall.
    by destruct (Hall _ Hin). }
  unfold pick_clip. rewrite Hc.
  assert (Hu : (min_dur <= uniform min_dur max_dur (dur_roll d))%Q /\
               (uniform min_dur max_dur (dur_roll d) <= max_dur)%Q).
  { unfold uniform.
    assert (0 <= (max_dur - min_dur) * dur_roll d)%Q
      by (apply Qmult_le_0_compat; lra).
    assert (0 <= (max_dur - min_dur) * (1 - dur_roll d))%Q
      by (apply Qmult_le_0_compat; lra).
    split; lra. }
  destruct Hu as [Hu1 Hu2].
  destruct (Qleb dur _) eqn:Hloop.
  - apply Qleb_le in Hloop. exists (ClipPlan path 0 dur true), dur. simpl.
    repeat split; try done; lra.
  - apply Qleb_gt in Hloop. eexists _, dur. split; [done|]. simpl.
    split; [done|]. repeat split; try lra.
    destruct (Qltb 1 _) eqn:Hslack; [|lra].
    apply Qltb_lt in Hslack. unfold uniform.
    assert (0 <= (dur - uniform min_dur max_dur (dur_roll d) - 0)
                 * start_roll d)%Q
      by (apply Qmult_le_0_compat; lra).
    unfold uniform in *. lra.
Qed.

Lemma pick_clip_on_scan_witness :
  exists plan dur,
    pick_clip
      (scan_media_files
         (fun _ => Some [DirEntry "/clips/a.mp4" true (Some 30%Q);
                         DirEntry "/clips/notes.txt" true None;
                         DirEntry "/clips/b.MKV" true (Some 0%Q)])
         "/clips" MEDIA_EXTENSIONS)
      5 10 (ClipDraws 0 (1 # 2) (1 # 2)) = Some plan /\
    (plan_path plan, dur)
    ∈ scan_media_files
        (fun _ => Some [DirEntry "/clips/a.mp4" true (Some 30%Q);
                        DirEntry "/clips/notes.txt" true None;
                        DirEntry "/clips/b.MKV" true (Some 0%Q)])
        "/clips" MEDIA_EXTENSIONS /\
    (0 < use_duration plan)%Q /\ (use_duration plan <= 10)%Q /\
    (use_duration plan <= dur)%Q /\ (0 <= seek_start plan)%Q.
Proof.
  apply (pick_clip_on_scan
           (fun _ => Some [DirEntry "/clips/a.mp4" true (Some 30%Q);
                           DirEntry "/clips/notes.txt" true None;
                           DirEntry "/clips/b.MKV" true (Some 0%Q)])
           "/clips" 5 10 (ClipDraws 0 (1 # 2) (1 # 2))).
  - vm_compute. discriminate.
  - reflexivity.
  - vm_compute. discriminate.
  - split; vm_compute; [discriminate|reflexivity].
  - split; vm_compute; [discriminate|reflexivity].
Defined.

(** X6. [get_daypart_music] returns the tracks of the current daypart's
    sub-directory under the daypart's name when there are any; with no
    current daypart or an empty sub-directory it returns the scan of the
    whole music directory under the name "all".  So it returns no track
    only when the whole music directory has none. *)
Theorem get_daypart_music_fallback (fs : file_system) (music_dir : string)
    (dayparts : list daypart) (hour : Z) :
  ((exists dp,
      get_current_daypart dayparts hour = Some dp /\
      scan_media_files fs (path_join music_dir (subdir dp)) AUDIO_EXTENSIONS
      <> [] /\
      get_daypart_music fs music_dir dayparts hour
      = (scan_media_files fs (path_join music_dir (subdir dp))
           AUDIO_EXTENSIONS, dp_name dp)) \/
   (match get_current_daypart dayparts hour with
    | Some dp =>
        scan_media_files fs (path_join music_dir (subdir dp))
          AUDIO_EXTENSIONS = []
    | None => True
    end /\
    get_daypart_music fs music_dir dayparts hour
    = (scan_media_files fs music_dir AUDIO_EXTENSIONS, "all"))) /\
  ((get_daypart_music fs music_dir dayparts hour).1 = [] ->
   (get_daypart_music fs music_dir dayparts hour).2 = "all" /\
   scan_media_files fs music_dir AUDIO_EXTENSIONS = []).
Proof.
  unfold get_daypart_music.
  destruct (get_current_daypart dayparts hour) as [dp|].
  - destruct (scan_media_files fs (path_join music_dir (subdir dp))
                AUDIO_EXTENSIONS) as [|m files] eqn:Hsub.
    + split; [by right|]. simpl. by intros ->.
    + split; [|simpl; discriminate]. left. exists dp. by rewrite Hsub.
  - split; [by right|]. simpl. by intros ->.
Qed.

(** X7. With default clips to fall back on, [get_daypart_clips] never
    returns an empty clip list and never caches one.  When the cache does
    not answer the call (it is empty or holds another daypart) and the
    current daypart has no override directory, or one that is missing or
    holds no usable clip, or there is no current daypart, the call returns
    the default clips under the name "default" and caches them for the
    daypart. *)
Theorem get_daypart_clips_nonempty (fs : file_system)
    (dayparts : list daypart) (clips_dayparts : gmap string string)
    (hour : Z) (default_clips : list media) (cache : clips_cache) :
  default_clips <> [] ->
  cache_files cache <> Some [] ->
  (get_daypart_clips fs dayparts clips_dayparts hour default_clips cache).1.1
  <> [] /\
  cache_files
    (get_daypart_clips fs dayparts clips_dayparts hour default_clips cache).2
  <> Some [] /\
  ((cache_files cache = None \/
    dp_name <$> get_current_daypart dayparts hour <> cache_daypart cache) ->
   match get_current_daypart dayparts hour with
   | Some d =>
       match clips_dayparts !! dp_name d with
       | Some override_dir =>
           scan_media_files fs override_dir MEDIA_EXTENSIONS = []
       | None => True
       end
   | None => True
   end ->
   get_daypart_clips fs dayparts clips_dayparts hour default_clips cache
   = ((default_clips, "default"),
      ClipsCache (dp_name <$> get_current_daypart dayparts hour)
        (Some default_clips))).
Proof.
  intros Hdef Hcache.
  assert (Hmiss : forall files : list media, files <> [] ->
            files <> [] /\ Some files <> Some []).
  { intros files Hf. split; [done|]. by intros [= ->]. }
  assert (Hboth :
    (get_daypart_clips fs dayparts clips_dayparts hour default_clips
       cache).1.1 <> [] /\
    cache_files
      (get_daypart_clips fs dayparts clips_dayparts hour default_clips
         cache).2 <> Some []).
  { unfold get_daypart_clips.
    destruct (cache_files cache) as [cached|] eqn:Hc.
    - case_bool_decide; simpl.
      + rewrite Hc. split; [|done]. by intros ->.
      + destruct (get_current_daypart dayparts hour) as [d|]; simpl;
          [|by apply Hmiss].
        destruct (clips_dayparts !! dp_name d); simpl; [|by apply Hmiss].
        destruct (scan_media_files fs _ MEDIA_EXTENSIONS) eqn:Hs; simpl;
          by apply Hmiss.
    - destruct (get_current_daypart dayparts hour) as [d|]; simpl;
        [|by apply Hmiss].
      destruct (clips_dayparts !! dp_name d); simpl; [|by apply Hmiss].
      destruct (scan_media_files fs _ MEDIA_EXTENSIONS) eqn:Hs; simpl;
        by apply Hmiss. }
  destruct Hboth as [Hres Hkept]. split; [done|]. split; [done|].
  intros Hunanswered Hoverride. unfold get_daypart_clips.
  assert (Hfall :
    match get_current_daypart dayparts hour with
    | Some d =>
        match clips_dayparts !! dp_name d with
        | Some override_dir =>
            match scan_media_files fs override_dir MEDIA_EXTENSIONS with
            | [] =>
                ((default_clips, "default"),
                 ClipsCache (dp_name <$> get_current_daypart dayparts hour)
                   (Some default_clips))
            | files =>
                ((files, dp_name d),
                 ClipsCache (Some (dp_name d)) (Some files))
            end
        | None =>
            ((default_clips, "default"),
             ClipsCache (dp_name <$> get_current_daypart dayparts hour)
               (Some default_clips))
        end
    | None =>
        ((default_clips, "default"),
         ClipsCache (dp_name <$> get_current_daypart dayparts hour)
           (Some default_clips))
    end
    = ((default_clips, "default"),
       ClipsCache (dp_name <$> get_current_daypart dayparts hour)
         (Some default_clips))).
  { destruct (get_current_daypart dayparts hour) as [d|]; [|done].
    destruct (clips_dayparts !! dp_name d); [|done].
    by rewrite Hoverride. }
  destruct (cache_files cache) as [cached|].
  - destruct Hunanswered as [?|Hother]; [done|].
    by rewrite bool_decide_eq_false_2.
  - done.
Qed.

Lemma get_daypart_clips_nonempty_witness :
  (get_daypart_clips (fun _ => None) [Daypart "daytime" 10 18 "day"]
     {[ "daytime" := "/clips/day" ]} 12 [("/clips/a.mp4", 30%Q)]
     empty_cache).1.1 <> [] /\
  cache_files
    (get_daypart_clips (fun _ => None) [Daypart "daytime" 10 18 "day"]
       {[ "daytime" := "/clips/day" ]} 12 [("/clips/a.mp4", 30%Q)]
       empty_cache).2 <> Some [] /\
  get_daypart_clips (fun _ => None) [Daypart "daytime" 10 18 "day"]
    {[ "daytime" := "/clips/day" ]} 12 [("/clips/a.mp4", 30%Q)] empty_cache
  = (([("/clips/a.mp4", 30%Q)], "default"),
     ClipsCache (Some "daytime") (Some [("/clips/a.mp4", 30%Q)])).
Proof.
  destruct (get_daypart_clips_nonempty (fun _ => None)
              [Daypart "daytime" 10 18 "day"]
              {[ "daytime" := "/clips/day" ]}
              12 [("/clips/a.mp4", 30%Q)] empty_cache)
    as (H1 & H2 & H3).
  - discriminate.
  - discriminate.
  - split; [exact H1|]. split; [exact H2|].
    apply H3; [by left|reflexivity].
Defined.

(** After a fallback the first call reports "default", the cached call the
    daypart's name, for the same files. *)
Example get_daypart_clips_labels :
  (get_daypart_clips (fun _ => None) [Daypart "daytime" 10 18 "day"]
     ∅ 12 [("/clips/a.mp4", 30%Q)] empty_cache).1
  = ([("/clips/a.mp4", 30%Q)], "default") /\
  (get_daypart_clips (fun _ => None) [Daypart "daytime" 10 18 "day"]
     ∅ 12 [("/clips/a.mp4", 30%Q)]
     (get_daypart_clips (fun _ => None) [Daypart "daytime" 10 18 "day"]
        ∅ 12 [("/clips/a.mp4", 30%Q)] empty_cache).2).1
  = ([("/clips/a.mp4", 30%Q)], "daytime").
Proof. vm_compute. done. Qed.

(** X8. Once [get_daypart_clips] has been called, a further call within the
    same daypart returns the clips of that call from the cache and leaves
    the cache as it is, whatever the file system and the default clips hold
    by then; it reports them under the daypart's name ("default" when there
    is no current daypart or its name is empty), also when the first call
    had fallen back to the default clips and reported "default". *)
Theorem get_daypart_clips_cached (fs fs' : file_system)
    (dayparts : list daypart) (clips_dayparts clips_dayparts' : gmap string string)
    (hour hour' : Z) (default_clips default_clips' : list media)
    (cache : clips_cache) :
  dp_name <$> get_current_daypart dayparts hour'
  = dp_name <$> get_current_daypart dayparts hour ->
  get_daypart_clips fs' dayparts clips_dayparts' hour' default_clips'
    (get_daypart_clips fs dayparts clips_dayparts hour default_clips cache).2
  = (((get_daypart_clips fs dayparts clips_dayparts hour default_clips
         cache).1.1,
      name_or_default (dp_name <$> get_current_daypart dayparts hour)),
     (get_daypart_clips fs dayparts clips_dayparts hour default_clips
        cache).2).
Proof.
  intros Hsame.
  assert (Hfill :
    cache_files (get_daypart_clips fs dayparts clips_dayparts hour
                   default_clips cache).2
    = Some (get_daypart_clips fs dayparts clips_dayparts hour default_clips
              cache).1.1 /\
    cache_daypart (get_daypart_clips fs dayparts clips_dayparts hour
                     default_clips cache).2
    = dp_name <$> get_current_daypart dayparts hour).
  { unfold get_daypart_clips.
    destruct (cache_files cache) as [cached|] eqn:Hc.
    - case_bool_decide as Hname; simpl; [by rewrite Hc|].
      destruct (get_current_daypart dayparts hour) as [d|]; simpl; [|done].
      destruct (clips_dayparts !! dp_name d); simpl; [|done].
      by destruct (scan_media_files fs _ MEDIA_EXTENSIONS).
    - destruct (get_current_daypart dayparts hour) as [d|]; simpl; [|done].
      destruct (clips_dayparts !! dp_name d); simpl; [|done].
      by destruct (scan_media_files fs _ MEDIA_EXTENSIONS). }
  destruct Hfill as [Hfiles Hday].
  unfold get_daypart_clips at 1. rewrite Hfiles, Hday, Hsame.
  by rewrite bool_decide_eq_true_2.
Qed.

Lemma get_daypart_clips_cached_witness :
  get_daypart_clips (fun _ => Some [DirEntry "/x/n.mp4" true (Some 9%Q)])
    [Daypart "daytime" 10 18 "day"] {[ "daytime" := "/x" ]} 13 []
    (get_daypart_clips (fun _ => None) [Daypart "daytime" 10 18 "day"]
       ∅ 12 [("/clips/a.mp4", 30%Q)] empty_cache).2
  = (((get_daypart_clips (fun _ => None) [Daypart "daytime" 10 18 "day"]
         ∅ 12 [("/clips/a.mp4", 30%Q)] empty_cache).1.1,
      name_or_default
        (dp_name <$> get_current_daypart [Daypart "daytime" 10 18 "day"] 12)),
     (get_daypart_clips (fun _ => None) [Daypart "daytime" 10 18 "day"]
        ∅ 12 [("/clips/a.mp4", 30%Q)] empty_cache).2).
Proof.
  apply (get_daypart_clips_cached (fun _ => None)
           (fun _ => Some [DirEntry "/x/n.mp4" true (Some 9%Q)])
           [Daypart "daytime" 10 18 "day"] ∅ {[ "daytime" := "/x" ]}
           12 13 [("/clips/a.mp4", 30%Q)] [] empty_cache).
  reflexivity.
Defined.

Lemma low_paths_nil (poll : disk_poll) :
  low_paths poll = [] <->
  Forall (fun pu => match pu.2 with
                    | Some free => (MIN_FREE_BYTES <= free)%Z
                    | None => True
                    end) poll.
Proof.
  unfold low_paths. induction poll as [|[p u] poll IH]; simpl.
  - split; [intros _; by apply Forall_nil_2|done].
  - destruct u as [free|]; simpl.
    + destruct (Z.ltb_spec free MIN_FREE_BYTES); simpl.
      * split; [done|]. intros [Hhd _]%Forall_cons_1. simpl in Hhd. lia.
      * rewrite IH. split.
        -- intros. by apply Forall_cons_2.
        -- by intros [_ ?]%Forall_cons_1.
    + rewrite IH. split.
      * intros. by apply Forall_cons_2.
      * by intros [_ ?]%Forall_cons_1.
Qed.

(** X9. [wait_for_disk_space] returns after [k] sleeps of 30 s exactly when
    pass [k] is the first in which every path that could be measured has at
    least 1 GiB free; a path whose measurement raises [OSError] never makes
    it wait. *)
Theorem wait_for_disk_space_returns (polls : list disk_poll) (k : nat) :
  wait_for_disk_space polls = Some k <->
  exists poll,
    polls !! k = Some poll /\
    Forall (fun pu => match pu.2 with
                      | Some free => (MIN_FREE_BYTES <= free)%Z
                      | None => True
                      end) poll /\
    forall j earlier, j < k -> polls !! j = Some earlier ->
                      low_paths earlier <> [].
Proof.
  revert k. induction polls as [|poll polls IH]; intros k; simpl.
  - split; [done|]. by intros (? & ? & _).
  - destruct (low_paths poll) as [|l ls] eqn:Hlow.
    + split.
      * intros [= <-]. exists poll. split; [done|].
        split; [by apply low_paths_nil|]. intros; lia.
      * intros (p & Hk & Hp & Hearlier). destruct k as [|k]; [done|].
        exfalso. by apply (Hearlier 0 poll); [lia|done|].
    + destruct k as [|k].
      * split.
        -- by destruct (wait_for_disk_space polls).
        -- intros (p & [= <-] & Hp & _). apply low_paths_nil in Hp.
           congruence.
      * split.
        -- destruct (wait_for_disk_space polls) as [n|] eqn:Hw; [|done].
           simpl. intros [= <-].
           destruct (proj1 (IH n) eq_refl) as (p & Hk & Hp & Hearlier).
           exists p. split; [done|]. split; [done|].
           intros [|j] earlier Hj Hl; simpl in Hl.
           ++ injection Hl as <-. by rewrite Hlow.
           ++ apply (Hearlier j); [lia|done].
        -- intros (p & Hk & Hp & Hearlier). simpl in Hk.
           assert (Hw : wait_for_disk_space polls = Some k).
           { apply IH. exists p. split; [done|]. split; [done|].
             intros j earlier Hj Hl. apply (Hearlier (S j)); [lia|done]. }
           by rewrite Hw.
Qed.
End LibraryProps.


(** ** Effects policy *)
Section PolicyProps.
Import Effects.

Lemma get_profile_cases (daypart : option string) :
  get_profile daypart
  ∈ [ Profile (60#100, 30#100, 10#100)%Q (85#100, 1)%Q (40#100)%Q
              ["screen"; "addition"; "softlight"];
      Profile (25#100, 40#100, 35#100)%Q (15#10, 22#10)%Q (50#100)%Q
              ["multiply"; "overlay"; "softlight"; "screen"];
      Profile (15#100, 30#100, 55#100)%Q (15#10, 25#10)%Q (55#100)%Q
              ["difference"; "hardlight"; "exclusion"; "multiply"];
      default_profile ].
Proof.
  unfold get_profile. destruct daypart as [d|]; simpl.
  - destruct (DAYPART_PROFILES !! d) as [p|] eqn:E; simpl.
    + apply elem_of_list_to_map_2 in E.
      repeat (apply elem_of_cons in E as [[= -> ->]|E];
              [set_solver|]).
      by apply elem_of_nil in E.
    + set_solver.
  - set_solver.
Qed.

(** X10. A daypart name without a profile of its own, and no daypart at
    all, get the default profile: the effects, speed and overlay policy of
    "default", and a blend mode out of screen, overlay and softlight. *)
Theorem get_profile_fallback (d : string) (k : nat) :
  d ∉ ["daytime"; "nighttime"; "overnight"] ->
  get_profile (Some d) = default_profile /\
  get_profile None = default_profile /\
  exists mode, pick_blend_mode (Some d) k = Some mode /\
               mode ∈ ["screen"; "overlay"; "softlight"].
Proof.
  intros Hd.
  assert (Hp : get_profile (Some d) = default_profile).
  { unfold get_profile. simpl.
    destruct (DAYPART_PROFILES !! d) as [p|] eqn:E; simpl; [|done].
    apply elem_of_list_to_map_2 in E.
    repeat (apply elem_of_cons in E as [[= -> ->]|E];
            [first [done | exfalso; apply Hd; set_solver]|]).
    by apply elem_of_nil in E. }
  split; [done|]. split; [done|].
  unfold pick_blend_mode. rewrite Hp.
  destruct (choice_is_Some k (blend_modes default_profile)) as [mode Hm];
    [discriminate|].
  exists mode. split; [done|]. by apply choice_elem in Hm.
Qed.

Lemma get_profile_fallback_witness :
  ("sunrise" ∉ ["daytime"; "nighttime"; "overnight"]) /\
  get_profile (Some "sunrise") = default_profile /\
  get_profile None = default_profile /\
  exists mode, pick_blend_mode (Some "sunrise") 5 = Some mode /\
               mode ∈ ["screen"; "overlay"; "softlight"].
Proof.
  assert (H : "sunrise" ∉ ["daytime"; "nighttime"; "overnight"])
    by (intros Hin; apply (bool_decide_eq_true_2 _) in Hin;
        vm_compute in Hin; discriminate).
  split; [exact H|]. exact (get_profile_fallback "sunrise" 5 H).
Defined.

Lemma round_half_even_ge (q : Q) (k : Z) :
  (inject_Z k <= q)%Q -> (k <= round_half_even q)%Z.
Proof.
  destruct q as [n m]. unfold Qle, round_half_even. simpl. intros Hle.
  assert (Hdm := Z.div_mod n (Zpos m) (ltac:(lia))).
  assert (Hr := Z.mod_pos_bound n (Zpos m) (ltac:(lia))).
  assert (k <= n / Zpos m)%Z by nia.
  destruct (_ <? _)%Z; [done|].
  destruct (_ <? _)%Z; [lia|]. destruct (Z.even _); lia.
Qed.

Lemma round_half_even_le (q : Q) (k : Z) :
  (q <= inject_Z k)%Q -> (round_half_even q <= k)%Z.
Proof.
  destruct q as [n m]. unfold Qle, round_half_even. simpl. intros Hle.
  assert (Hdm := Z.div_mod n (Zpos m) (ltac:(lia))).
  assert (Hr := Z.mod_pos_bound n (Zpos m) (ltac:(lia))).
  assert (n / Zpos m <= k)%Z by nia.
  destruct (Z.ltb_spec (2 * (n mod Zpos m)) (Zpos m)); [done|].
  assert (n / Zpos m < k)%Z by nia.
  destruct (_ <? _)%Z; [lia|]. destruct (Z.even _); lia.
Qed.

(** X11. Whatever the daypart, known or not, [pick_speed] returns a
    multiplier within the speed range of the profile in force. *)
Theorem pick_speed_in_range (daypart : option string) (roll : Q) :
  (0 <= roll)%Q -> (roll < 1)%Q ->
  ((speed_range (get_profile daypart)).1 <= pick_speed daypart roll)%Q /\
  (pick_speed daypart roll <= (speed_range (get_profile daypart)).2)%Q.
Proof.
  intros H0 H1. unfold pick_speed.
  pose proof (get_profile_cases daypart) as Hp.
  repeat (apply elem_of_cons in Hp as [->|Hp]);
    [| | | |by apply elem_of_nil in Hp];
    cbn [speed_range fst snd default_profile]; unfold uniform.
  - split.
    + assert (85 <= round_half_even (((85#100) + (1 - (85#100)) * roll) * 100))%Z
        by (apply round_half_even_ge; unfold inject_Z; lra).
      unfold Qle; simpl; lia.
    + assert (round_half_even (((85#100) + (1 - (85#100)) * roll) * 100) <= 100)%Z
        by (apply round_half_even_le; unfold inject_Z; lra).
      unfold Qle; simpl; lia.
  - split.
    + assert (150 <= round_half_even (((15#10) + ((22#10) - (15#10)) * roll) * 100))%Z
        by (apply round_half_even_ge; unfold inject_Z; lra).
      unfold Qle; simpl; lia.
    + assert (round_half_even (((15#10) + ((22#10) - (15#10)) * roll) * 100) <= 220)%Z
        by (apply round_half_even_le; unfold inject_Z; lra).
      unfold Qle; simpl; lia.
  - split.
    + assert (150 <= round_half_even (((15#10) + ((25#10) - (15#10)) * roll) * 100))%Z
        by (apply round_half_even_ge; unfold inject_Z; lra).
      unfold Qle; simpl; lia.
    + assert (round_half_even (((15#10) + ((25#10) - (15#10)) * roll) * 100) <= 250)%Z
        by (apply round_half_even_le; unfold inject_Z; lra).
      unfold Qle; simpl; lia.
  - split.
    + assert (90 <= round_half_even (((9#10) + ((11#10) - (9#10)) * roll) * 100))%Z
        by (apply round_half_even_ge; unfold inject_Z; lra).
      unfold Qle; simpl; lia.
    + assert (round_half_even (((9#10) + ((11#10) - (9#10)) * roll) * 100) <= 110)%Z
        by (apply round_half_even_le; unfold inject_Z; lra).
      unfold Qle; simpl; lia.
Qed.

Lemma pick_speed_in_range_witness :
  ((speed_range (get_profile (Some "nighttime"))).1
   <= pick_speed (Some "nighttime") (1 # 3))%Q /\
  (pick_speed (Some "nighttime") (1 # 3)
   <= (speed_range (get_profile (Some "nighttime"))).2)%Q.
Proof.
  apply (pick_speed_in_range (Some "nighttime") (1 # 3)).
  - vm_compute. discriminate.
  - reflexivity.
Defined.

Lemma pool_in_catalogue (t : tier) (e : effect) :
  e ∈ pool_of t -> e ∈ catalogue.
Proof. unfold catalogue. destruct t; simpl; set_solver. Qed.

Lemma pick_loop_catalogue (lw mt : Q) (rolls : nat -> Q) (picks : nat -> nat)
    (n i : nat) (st st' : pick_state) :
  Forall (fun e => e ∈ catalogue) (chosen st) ->
  pick_loop lw mt rolls picks n i st = Some st' ->
  Forall (fun e => e ∈ catalogue) (chosen st').
Proof.
  revert i st. induction n as [|n IH]; intros i st Hall; simpl.
  - by intros [= <-].
  - unfold pick_step.
    destruct (choice _ _) as [e|] eqn:Hc; [|done].
    apply IH. simpl. apply Forall_app. split; [done|].
    apply Forall_singleton.
    apply choice_elem, eligible_spec in Hc as [Hpool _].
    by eapply pool_in_catalogue.
Qed.

(** X12. Every effect [pick_effects] returns is an entry of one of the three
    effect tables, name and filter expression together: no filter reaches
    the encoder command that the catalogue does not list. *)
Theorem pick_effects_from_catalogue (min_count max_count : nat)
    (daypart : option string) (d : draws) (l : list effect) :
  pick_effects min_count max_count daypart d = Some l ->
  Forall (fun e => e ∈ catalogue) l.
Proof.
  unfold pick_effects.
  destruct (randint _ _ _) as [count|]; [|done].
  destruct (pick_loop _ _ _ _ _ _ _) as [st|] eqn:Hrun; [|done].
  intros Heq.
  assert (Hl : l = chosen st) by (simpl in Heq; congruence).
  subst l. clear Heq.
  eapply pick_loop_catalogue; [|exact Hrun]. by apply Forall_nil_2.
Qed.

Lemma pick_effects_from_catalogue_witness :
  pick_effects 2 2 None
    (Draws 0 (fun i => match i with O => (99#100)%Q | _ => 0%Q end)
             (fun i => match i with O => 0 | _ => 2 end))
  = Some [Effect "edge_glow" "edgedetect=low=0.1:high=0.3:mode=colormix";
          Effect "low_saturation" "eq=saturation=0.6"] /\
  Forall (fun e => e ∈ catalogue)
    [Effect "edge_glow" "edgedetect=low=0.1:high=0.3:mode=colormix";
     Effect "low_saturation" "eq=saturation=0.6"].
Proof.
  assert (H : pick_effects 2 2 None
    (Draws 0 (fun i => match i with O => (99#100)%Q | _ => 0%Q end)
             (fun i => match i with O => 0 | _ => 2 end))
  = Some [Effect "edge_glow" "edgedetect=low=0.1:high=0.3:mode=colormix";
          Effect "low_saturation" "eq=saturation=0.6"])
    by (vm_compute; reflexivity).
  split; [exact H|].
  exact (pick_effects_from_catalogue 2 2 None
           (Draws 0 (fun i => match i with O => (99#100)%Q | _ => 0%Q end)
                    (fun i => match i with O => 0 | _ => 2 end)) _ H).
Defined.

(** X13. [pick_overlay_effects] returns what [pick_effects] returns for the
    same draws: with no overlay-only effect in the catalogue its extra draw
    never adds one, so overlays keep the length range and the caps of two
    medium and one heavy effect. *)
Theorem pick_overlay_effects_same (min_count max_count : nat)
    (daypart : option string) (d : draws) (extra_roll : Q)
    (extra_pick : nat) :
  min_count <= max_count ->
  exists l,
    pick_overlay_effects min_count max_count daypart d extra_roll extra_pick
    = Some l /\
    pick_effects min_count max_count daypart d = Some l /\
    min_count <= length l <= max_count /\
    count_tier Medium l <= 2 /\ count_tier Heavy l <= 1.
Proof.
  intros Hle. unfold pick_overlay_effects, pick_effects.
  destruct (randint min_count max_count (count_draw d)) as [count|] eqn:Hr.
  2:{ unfold randint in Hr. by case_decide. }
  apply randint_range in Hr.
  destruct (pick_loop_inv (tier_weights (get_profile daypart)).1.1
              ((tier_weights (get_profile daypart)).1.1 +
               (tier_weights (get_profile daypart)).1.2)%Q
              (rolls d) (picks d) count 0 _ pick_inv_init)
    as (st & Hrun & [Hn Hm Hh Hmc Hhc Hc] & Hlen).
  exists (chosen st). simpl in *. rewrite Hrun. simpl.
  split; [done|]. split; [done|]. rewrite Hlen. lia.
Qed.

Lemma pick_overlay_effects_same_witness :
  1 <= 3 /\
  exists l,
    pick_overlay_effects 1 3 (Some "overnight")
      (Draws 2 (fun _ => (99#100)%Q) (fun i => i)) (1#10) 0 = Some l /\
    pick_effects 1 3 (Some "overnight")
      (Draws 2 (fun _ => (99#100)%Q) (fun i => i)) = Some l /\
    1 <= length l <= 3 /\
    count_tier Medium l <= 2 /\ count_tier Heavy l <= 1.
Proof.
  split; [lia|].
  apply (pick_overlay_effects_same 1 3 (Some "overnight")
           (Draws 2 (fun _ => (99#100)%Q) (fun i => i)) (1#10) 0).
  lia.
Defined.
End PolicyProps.

(** ** Broadcast hours *)
Section BroadcastProps.
Import Clock.
Local Open Scope Z_scope.

(** X14. Whenever the loop finds itself off air, [wait_for_broadcast] called
    at that time sleeps: for a positive time of at most eight hours, up to
    an instant at which [is_on_air] holds. *)
Theorem off_air_sleep_ends_on_air (now : datetime) :
  valid now -> is_on_air now = false ->
  exists d,
    wait_for_broadcast now = Some d /\
    (0 < d)%Q /\ (d <= 8 * 3600)%Q /\
    to_micros (sign_on now) - to_micros now = Qnum d /\ Qden d = 1000000%positive /\
    is_on_air (sign_on now) = true.
Proof.
  intros (Hh & Hm & Hs & Hu) Hoff.
  unfold is_on_air, BROADCAST_START, BROADCAST_END in Hoff.
  apply orb_false_iff in Hoff as [H10 H2].
  apply Z.leb_gt in H10. apply Z.ltb_ge in H2.
  assert (Hso : sign_on now = DateTime (day now) 10 0 0 0).
  { unfold sign_on, BROADCAST_END, BROADCAST_START.
    destruct (Z.leb_spec 2 (hour now)); [done|lia]. }
  assert (Hpos : (0 < wait_secs now)%Q).
  { unfold wait_secs, total_seconds, Qlt. rewrite Hso.
    unfold to_micros; simpl. lia. }
  exists (wait_secs now). split.
  { unfold wait_for_broadcast.
    destruct (Qltb 0 (wait_secs now)) eqn:E; [done|].
    apply Qltb_ge in E. exfalso. by apply (Qlt_not_le _ _ Hpos). }
  split; [done|]. split.
  { unfold wait_secs, total_seconds, Qle. rewrite Hso.
    unfold to_micros; simpl. lia. }
  split; [done|]. split; [done|]. by rewrite Hso.
Qed.

Lemma off_air_sleep_ends_on_air_witness :
  exists d,
    wait_for_broadcast (DateTime 7 2 0 0 0) = Some d /\
    (0 < d)%Q /\ (d <= 8 * 3600)%Q /\
    to_micros (sign_on (DateTime 7 2 0 0 0)) - to_micros (DateTime 7 2 0 0 0)
    = Qnum d /\ Qden d = 1000000%positive /\
    is_on_air (sign_on (DateTime 7 2 0 0 0)) = true.
Proof.
  apply (off_air_sleep_ends_on_air (DateTime 7 2 0 0 0)).
  - unfold valid; simpl; lia.
  - reflexivity.
Defined.
End BroadcastProps.

(** ** The main loop, its helpers and the feeder thread *)
Section RunProps.
Import Stdlib.Strings.Ascii.
Import Effects Clips Render Conductor Samples Traces.

Ltac fields :=
  cbn [set_seq set_cumulative_ts set_last_bumper_time set_streamer_proc
       set_music_thread set_prebuffer set_feed_queue set_feeding
       set_last_feed_time set_staging set_audio_fifo log unlink_ts
       seq cumulative_ts last_bumper_time streamer_proc music_thread
       prebuffer feed_queue feeding last_feed_time staging audio_fifo
       trace] in *.

(** *** Fragment names *)

Lemma length_append (a b : string) :
  String.length (a +:+ b) = String.length a + String.length b.
Proof. induction a as [|c a IH]; simpl; [done|by rewrite IH]. Qed.

Lemma append_inv_tail (a b t : string) : a +:+ t = b +:+ t -> a = b.
Proof.
  intros H.
  assert (Hlen : String.length a = String.length b).
  { apply (f_equal String.length) in H.
    rewrite !length_append in H. lia. }
  revert b H Hlen. induction a as [|c a IH]; intros [|c' b] H Hlen;
    simpl in *; try done.
  injection H as -> H. f_equal. apply IH; [done|lia].
Qed.

Lemma zeros_succ (k : nat) :
  String.concat "" (repeat "0" (S k))
  = String "0"%char (String.concat "" (repeat "0" k)).
Proof. by destruct k. Qed.

(** Padding with zeros prepends [D0] digits. *)
Lemma zeros_string_of_uint (k : nat) (d : Decimal.uint) :
  String.concat "" (repeat "0" k) +:+ NilEmpty.string_of_uint d
  = NilEmpty.string_of_uint (Nat.iter k Decimal.D0 d).
Proof.
  induction k as [|k IH]; [done|].
  rewrite zeros_succ.
  change (Nat.iter (S k) Decimal.D0 d)
    with (Decimal.D0 (Nat.iter k Decimal.D0 d)).
  transitivity (String "0"%char
                  (String.concat "" (repeat "0" k)
                   +:+ NilEmpty.string_of_uint d)); [done|].
  by rewrite IH.
Qed.

Lemma of_uint_iter_D0 (k : nat) (d : Decimal.uint) :
  Pos.of_uint (Nat.iter k Decimal.D0 d) = Pos.of_uint d.
Proof. induction k; simpl; auto. Qed.

Lemma str_int_of_nat (n : nat) :
  exists d, str_int (Z.of_nat n) = NilEmpty.string_of_uint d /\
            Pos.of_uint d = N.of_nat n.
Proof.
  unfold str_int. destruct n as [|n].
  - by exists (Decimal.D0 Decimal.Nil).
  - simpl. exists (Pos.to_uint (Pos.of_succ_nat n)). split.
    + pose proof (DecimalPos.Unsigned.to_uint_nonnil (Pos.of_succ_nat n)).
      by destruct (Pos.to_uint (Pos.of_succ_nat n)).
    + pose proof (DecimalPos.Unsigned.of_to (Pos.of_succ_nat n)) as H.
      rewrite H. lia.
Qed.

Lemma zero_pad_inj (w n m : nat) :
  zero_pad w (str_int (Z.of_nat n)) = zero_pad w (str_int (Z.of_nat m)) ->
  n = m.
Proof.
  unfold zero_pad.
  destruct (str_int_of_nat n) as (d1 & -> & H1).
  destruct (str_int_of_nat m) as (d2 & -> & H2).
  rewrite !zeros_string_of_uint. intros H.
  apply (f_equal NilEmpty.uint_of_string) in H.
  rewrite !NilEmpty.usu in H. injection H as H.
  apply (f_equal Pos.of_uint) in H. rewrite !of_uint_iter_D0 in H. lia.
Qed.

Lemma ts_path_inj (n m : nat) : ts_path n = ts_path m -> n = m.
Proof.
  intros H. unfold ts_path in H.
  do 2 apply String.app_inj in H.
  apply append_inv_tail in H. by apply zero_pad_inj in H.
Qed.

(** X15. Fragment numbers that differ give staging paths that differ, also
    beyond 999999, where the six-digit padding no longer applies. *)
Theorem ts_path_distinct (n m : nat) : n <> m -> ts_path n <> ts_path m.
Proof. intros Hne H. by apply Hne, ts_path_inj. Qed.

Lemma ts_path_distinct_witness : 7 <> 12 /\ ts_path 7 <> ts_path 12.
Proof. split; [lia|]. apply (ts_path_distinct 7 12). lia. Defined.

(** *** Actions that leave the counters alone *)

Lemma quiet_refl (s : state) : quiet s s.
Proof. by repeat split. Qed.

Lemma quiet_trans (s1 s2 s3 : state) :
  quiet s1 s2 -> quiet s2 s3 -> quiet s1 s3.
Proof. intros (?&?&?) (?&?&?). repeat split; congruence. Qed.

Lemma quiet_same (s s' : state) :
  seq s' = seq s -> last_bumper_time s' = last_bumper_time s ->
  trace s' = trace s -> quiet s s'.
Proof. intros H1 H2 H3. repeat split; [done..|by rewrite H3]. Qed.

Lemma quiet_log (ev : event) (s : state) :
  is_render ev = false -> quiet s (log ev s).
Proof.
  intros Hev. repeat split. fields. unfold render_events.
  rewrite List.filter_app. simpl. rewrite Hev. by rewrite app_nil_r.
Qed.

Lemma quiet_stop_music (joined : bool) (s : state) :
  quiet s (stop_music joined s).
Proof.
  unfold stop_music. destruct (music_thread s); [|apply quiet_refl].
  eapply quiet_trans; [|by apply quiet_log]. by apply quiet_same.
Qed.

Lemma quiet_kill_streamer (alive : bool) (s : state) :
  quiet s (kill_streamer alive s).
Proof.
  unfold kill_streamer. destruct (streamer_proc s), alive;
    try apply quiet_refl. by apply quiet_log.
Qed.

Lemma quiet_drain_queue (s : state) : quiet s (drain_queue s).
Proof.
  unfold drain_queue.
  destruct (drain_fold_fields (feed_queue s) s) as (?&?&?&?&?&?&?&?&?&?&?).
  by apply quiet_same.
Qed.

Lemma quiet_mkfifo (allowed : bool) (s : state) :
  quiet s (state_of (mkfifo allowed s)).
Proof.
  unfold mkfifo. destruct (audio_fifo s), allowed; simpl;
    try apply quiet_refl. by apply quiet_same.
Qed.

Lemma quiet_bind (s : state) (o : outcome) (f : state -> outcome) :
  quiet s (state_of o) -> (forall s1, quiet s1 (state_of (f s1))) ->
  quiet s (state_of (bind o f)).
Proof.
  intros Ho Hf. destruct o as [s1|s1]; simpl in *; [|done].
  eapply quiet_trans; [exact Ho|apply Hf].
Qed.

Lemma quiet_attempt (env : recovery_env) (k : cleanup_step)
    (f : state -> state) (s : state) :
  (forall s1, quiet s1 (f s1)) -> quiet s (state_of (attempt env k f s)).
Proof.
  intros Hf. unfold attempt. case_decide; simpl; [apply quiet_refl|apply Hf].
Qed.

Lemma quiet_recovery_try (env : recovery_env) (s : state) :
  quiet s (state_of (recovery_try env s)).
Proof.
  unfold recovery_try.
  apply quiet_bind.
  { apply quiet_attempt. intros s1.
    eapply quiet_trans; [apply quiet_kill_streamer|by apply quiet_same]. }
  intros s1. apply quiet_bind; [apply quiet_attempt, quiet_stop_music|].
  intros s2. apply quiet_bind.
  { apply quiet_attempt. intros s'. by apply quiet_log. }
  intros s3. apply quiet_bind; [apply quiet_attempt, quiet_drain_queue|].
  intros s4. apply quiet_bind.
  { apply quiet_attempt. intros s'. by apply quiet_same. }
  intros s5. eapply quiet_trans; [|apply quiet_mkfifo]. by apply quiet_same.
Qed.

Lemma quiet_recovery_handler (env : recovery_env) (s : state) :
  quiet s (recovery_handler env s).
Proof.
  unfold recovery_handler.
  destruct (audio_fifo (set_streamer_proc None s)); [by apply quiet_same|].
  pose proof (quiet_mkfifo (mkfifo_retry_ok env) (set_streamer_proc None s))
    as Hm.
  destruct (mkfifo _ _); simpl in Hm;
    (eapply quiet_trans; [|exact Hm]); by apply quiet_same.
Qed.

Lemma quiet_recover_streamer (env : recovery_env) (s : state) :
  quiet s (recover_streamer env s).
Proof.
  unfold recover_streamer.
  pose proof (quiet_recovery_try env s) as Htry.
  destruct (recovery_try env s) as [s1|s1]; simpl in Htry.
  - eapply quiet_trans; [exact Htry|]. by apply quiet_same.
  - eapply quiet_trans; [exact Htry|].
    eapply quiet_trans; [apply quiet_recovery_handler|]. by apply quiet_same.
Qed.

Lemma quiet_feeder_take (s : state) : quiet s (feeder_take s).
Proof.
  unfold feeder_take. destruct (feeding s); [apply quiet_refl|].
  destruct (feed_queue s) as [|item rest]; [apply quiet_refl|].
  by apply quiet_same.
Qed.

Lemma quiet_feeder_finish (fed : bool) (now : Q) (s : state) :
  quiet s (feeder_finish fed now s).
Proof.
  unfold feeder_finish. destruct (feeding s) as [[path h]|];
    [|apply quiet_refl].
  by destruct fed; apply quiet_same.
Qed.

Lemma quiet_start_streamer_and_flush (proc : nat) (now : Q) (s : state) :
  quiet s (start_streamer_and_flush proc now s).
Proof.
  unfold start_streamer_and_flush, start_music. repeat split. fields.
  unfold render_events. rewrite !List.filter_app. simpl.
  by rewrite !app_nil_r.
Qed.

Lemma quiet_queue_clip (e : queue_env) (path : string) (s : state) :
  quiet s (queue_clip e path s).
Proof.
  unfold queue_clip. destruct (streamer_proc s) as [proc|].
  - case_decide; [|by apply quiet_same].
    destruct (put_timed_out e); [apply quiet_recover_streamer|].
    eapply quiet_trans; [apply quiet_feeder_finish|].
    eapply quiet_trans; [apply quiet_feeder_take|]. by apply quiet_same.
  - case_decide; [|by apply quiet_same].
    eapply quiet_trans; [|apply quiet_start_streamer_and_flush].
    by apply quiet_same.
Qed.

Lemma quiet_sign_off (e : head_env) (s : state) :
  quiet s (state_of (sign_off e s)).
Proof.
  unfold sign_off.
  eapply quiet_trans; [apply quiet_stop_music|].
  set (s1 := stop_music (head_music_joined e) s).
  apply quiet_bind.
  - eapply quiet_trans; [|apply quiet_mkfifo].
    destruct (streamer_proc s1), (head_streamer_alive e);
      try (by apply quiet_same).
    eapply quiet_trans; [by apply (quiet_log (EvKillStreamer n))|].
    by apply quiet_same.
  - intros s4. simpl. destruct (Clock.wait_for_broadcast _);
      [by apply quiet_log|apply quiet_refl].
Qed.

Lemma quiet_loop_head (e : head_env) (s : state) : quiet s (loop_head e s).2.
Proof.
  unfold loop_head.
  assert (Hso : quiet s (state_of
            (if Clock.is_on_air (clock_now e) then Ok s else sign_off e s))).
  { destruct (Clock.is_on_air _); [apply quiet_refl|apply quiet_sign_off]. }
  destruct (if Clock.is_on_air (clock_now e) then Ok s else sign_off e s)
    as [s1|s1]; simpl in Hso.
  - destruct (_ && _); simpl; [|done].
    eapply quiet_trans; [exact Hso|apply quiet_recover_streamer].
  - simpl. eapply quiet_trans; [exact Hso|apply quiet_recover_streamer].
Qed.

Lemma quiet_enqueue (e : queue_env) (r : rendered) :
  quiet (rendered_state r) (state_of (enqueue e r)).
Proof.
  destruct r; simpl; try apply quiet_refl. apply quiet_queue_clip.
Qed.

Lemma quiet_after_phase (next : pc) (re : recovery_env) (o : outcome) :
  quiet (state_of o) (after_phase next re o).2.
Proof.
  destruct o; simpl; [apply quiet_refl|apply quiet_recover_streamer].
Qed.

(** X16. The recovery routine, whichever of its sub-steps raises, runs no
    encoder command, adds no staging file, and leaves the fragment counter
    and the bumper clock as they are: numbering goes on after a recovery
    and the bumper interval is not restarted. *)
Theorem recover_streamer_keeps_counters (env : recovery_env) (s : state) :
  seq (recover_streamer env s) = seq s /\
  last_bumper_time (recover_streamer env s) = last_bumper_time s /\
  render_events (trace (recover_streamer env s)) = render_events (trace s) /\
  staging (recover_streamer env s) ⊆ staging s.
Proof.
  destruct (quiet_recover_streamer env s) as (H1 & H2 & H3).
  destruct (calm_recover_streamer env s) as [_ H4]. done.
Qed.

(** X17. A recovery in which no clean-up sub-step raises kills the encoder
    if it is set and alive, asks the music thread to stop if it is alive and
    waits up to ten seconds for it, waits a second, and leaves the feeder
    queue and the staging directory empty.  The music thread is gone
    afterwards only if it was not alive or returned within the ten seconds
    of the join.  The audio FIFO exists afterwards iff [os.mkfifo] was
    allowed at the first or at the second try. *)
Theorem recover_streamer_clean (env : recovery_env) (s : state) :
  fault env = None ->
  trace (recover_streamer env s)
  = trace s
    ++ match streamer_proc s with
       | Some proc => if streamer_alive env then [EvKillStreamer proc] else []
       | None => []
       end
    ++ (if music_thread s then [EvStopMusic] else [])
    ++ [EvSleep 1] /\
  feed_queue (recover_streamer env s) = [] /\
  staging (recover_streamer env s) = ∅ /\
  music_thread (recover_streamer env s)
  = music_thread s && negb (music_joined env) /\
  audio_fifo (recover_streamer env s) = mkfifo_ok env || mkfifo_retry_ok env.
Proof.
  intros Hf. unfold recover_streamer, recovery_try, attempt, bind.
  rewrite Hf. repeat (case_decide; [discriminate|]).
  unfold mkfifo. fields.
  set (s1 := set_streamer_proc None (kill_streamer (streamer_alive env) s)).
  set (s2 := log (EvSleep 1) (stop_music (music_joined env) s1)).
  destruct (drain_fold_fields (feed_queue s2) s2)
    as (_&_&_&_&Hm&_&_&_&_&Ht&_).
  assert (Hs2 : trace s2
    = trace s
      ++ match streamer_proc s with
         | Some proc =>
             if streamer_alive env then [EvKillStreamer proc] else []
         | None => []
         end
      ++ (if music_thread s then [EvStopMusic] else [])
      ++ [EvSleep 1] /\
      music_thread s2 = music_thread s && negb (music_joined env)).
  { subst s2 s1. unfold stop_music, kill_streamer. fields.
    destruct (streamer_proc s), (streamer_alive env); fields;
      destruct (music_thread s) eqn:Hmus; fields;
      rewrite <- ?app_assoc; simpl; rewrite ?app_nil_r; done. }
  destruct Hs2 as [Htr Hmt].
  unfold drain_queue.
  destruct (mkfifo_ok env); fields.
  - rewrite Ht, Hm. done.
  - unfold recovery_handler, mkfifo. fields.
    destruct (mkfifo_retry_ok env); fields; rewrite Ht, Hm; done.
Qed.

Lemma recover_streamer_clean_witness :
  fault (RecoveryEnv None true true true 2000 false) = None /\
  trace (recover_streamer (RecoveryEnv None true true true 2000 false) clean3)
  = trace clean3 ++ [EvKillStreamer 7; EvStopMusic; EvSleep 1] /\
  feed_queue (recover_streamer (RecoveryEnv None true true true 2000 false)
                clean3) = [] /\
  staging (recover_streamer (RecoveryEnv None true true true 2000 false)
             clean3) = ∅ /\
  music_thread (recover_streamer (RecoveryEnv None true true true 2000 false)
                  clean3) = true /\
  audio_fifo (recover_streamer (RecoveryEnv None true true true 2000 false)
                clean3) = true.
Proof.
  split; [reflexivity|].
  exact (recover_streamer_clean (RecoveryEnv None true true true 2000 false)
           clean3 eq_refl).
Defined.

(** *** Bumpers *)

(** X18. A bumper is rendered only when bumpers exist, a bumper time has
    been recorded and the configured interval (ten minutes by default) has
    passed since; a successful render records the time after it, a failed
    one leaves the recorded time, so that the bumper is due again at the
    next iteration.  When no bumper is due the step renders nothing and only
    records the time if none was recorded.  The step never raises. *)
Theorem bumper_cadence (cfg : config) (bumper_files : list media)
    (e : bumper_env) (s : state) :
  match render_bumper_step cfg bumper_files e s with
  | Fragment path s' =>
      bumper_files <> [] /\ (0 < last_bumper_time s)%Q /\
      (default 10 (min_interval_minutes cfg) * 60
       <= bumper_now e - last_bumper_time s)%Q /\
      succeeded (bumper_run e) = true /\
      last_bumper_time s' = bumper_done e
  | NoFragment s' =>
      if bumper_due cfg bumper_files (bumper_now e) s
      then succeeded (bumper_run e) = false /\
           last_bumper_time s' = last_bumper_time s
      else trace s' = trace s /\ seq s' = seq s /\
           last_bumper_time s'
           = (if Qeq_bool (last_bumper_time s) 0 then bumper_done e
              else last_bumper_time s)
  | Failed _ => False
  end.
Proof.
  unfold render_bumper_step.
  destruct (bumper_due cfg bumper_files (bumper_now e) s) eqn:Hdue.
  - unfold bumper_due in Hdue.
    apply andb_true_iff in Hdue as [Hdue Hint].
    apply andb_true_iff in Hdue as [Hne Hpos].
    apply Qleb_le in Hint. apply Qltb_lt in Hpos.
    assert (Hne' : bumper_files <> []) by (by destruct bumper_files).
    destruct (choice_is_Some (bumper_pick e) bumper_files Hne')
      as [[bp bd] ->].
    unfold render_bumper.
    match goal with |- context [run_encoder ?k ?c ?t ?out ?o ?s0] =>
      destruct (run_encoder_spec k c t out o s0)
        as (s2 & -> & _ & _ & Hlb & _) end.
    fields. destruct (succeeded (bumper_run e)); fields; done.
  - destruct (Qeq_bool (last_bumper_time s) 0); fields; done.
Qed.

(** *** Sign-off *)

(** X19. Signing off asks the music thread to stop, zeroes the timestamp
    offset and replaces the FIFO, and that is all: pre-buffered and queued
    fragments and the staging files stay, as do the fragment counter, the
    bumper clock and the heartbeat.  The music thread is gone afterwards only
    if it was not alive or returned within the ten seconds of the join.  The
    encoder handle is cleared only if the encoder was still alive: the
    handle of an encoder that had already exited is kept.  The step raises
    iff [os.mkfifo] is refused, and then does not sleep. *)
Theorem sign_off_effects (e : head_env) (s : state) :
  let s' := state_of (sign_off e s) in
  cumulative_ts s' = 0%Q /\
  music_thread s' = music_thread s && negb (head_music_joined e) /\
  streamer_proc s'
  = (if head_streamer_alive e then None else streamer_proc s) /\
  prebuffer s' = prebuffer s /\ feed_queue s' = feed_queue s /\
  feeding s' = feeding s /\
  staging s' = staging s /\ seq s' = seq s /\
  last_bumper_time s' = last_bumper_time s /\
  last_feed_time s' = last_feed_time s /\
  audio_fifo s' = head_mkfifo_ok e /\
  (if head_mkfifo_ok e then sign_off e s = Ok s'
   else sign_off e s = Raise s' /\
        Forall (fun ev => match ev with EvSleep _ => False | _ => True end)
          (drop (length (trace s)) (trace s'))).
Proof.
  unfold sign_off, mkfifo, stop_music, bind. fields.
  destruct (music_thread s) eqn:Hmus; fields;
    destruct (streamer_proc s) as [proc|] eqn:Hproc,
      (head_streamer_alive e); fields;
    destruct (head_mkfifo_ok e); cbn [state_of]; fields;
    try destruct (Clock.wait_for_broadcast (clock_later e)); fields;
    rewrite ?Hmus, ?Hproc; repeat split; try done;
    rewrite <- ?app_assoc, ?drop_app_length, ?drop_ge by done;
    repeat constructor.
Qed.

(** *** The pre-buffer is empty while the encoder runs *)

Lemma render_bumper_step_streamer (cfg : config)
    (bumper_files : list media) (e : bumper_env) (s : state) :
  streamer_proc (rendered_state (render_bumper_step cfg bumper_files e s))
  = streamer_proc s.
Proof.
  unfold render_bumper_step.
  destruct (bumper_due _ _ _ _).
  - destruct (choice _ _) as [[bp bd]|]; [|done]. unfold render_bumper.
    match goal with |- context [run_encoder ?k ?c ?t ?out ?o ?s0] =>
      destruct (run_encoder_spec k c t out o s0)
        as (s2 & -> & _ & _ & _ & Hp & _) end.
    by destruct (succeeded (bumper_run e)).
  - by destruct (Qeq_bool _ _).
Qed.

Lemma render_clip_step_streamer (cfg : config) (e : clip_env) (s : state) :
  streamer_proc (rendered_state (render_clip_step cfg e s)) = streamer_proc s.
Proof.
  unfold render_clip_step.
  destruct (pick_clip _ _ _ (primary e)) as [plan|]; [|done].
  destruct (pick_effects _ _ _ (fx e)) as [effects|]; [|done].
  destruct (should_overlay _ _ && _).
  - destruct (pick_clip _ _ _ (secondary e)) as [plan2|]; [|done].
    destruct (pick_blend_mode _ _) as [blend|]; [|done].
    destruct (pick_overlay_effects _ _ _ _ _ _) as [effects2|]; [|done].
    unfold render_overlay_clip.
    match goal with |- context [run_encoder ?k ?c ?t ?out ?o ?s0] =>
      destruct (run_encoder_spec k c t out o s0)
        as (s2 & -> & _ & _ & _ & Hp & _) end.
    by destruct (succeeded (clip_run e)).
  - unfold render_clip.
    match goal with |- context [run_encoder ?k ?c ?t ?out ?o ?s0] =>
      destruct (run_encoder_spec k c t out o s0)
        as (s2 & -> & _ & _ & _ & Hp & _) end.
    by destruct (succeeded (clip_run e)).
Qed.

Lemma recover_streamer_unbuffered (env : recovery_env) (s : state) :
  live_unbuffered (recover_streamer env s).
Proof. intros _. unfold recover_streamer. by fields. Qed.

Lemma feeder_take_streamer (s : state) :
  streamer_proc (feeder_take s) = streamer_proc s.
Proof.
  unfold feeder_take. destruct (feeding s); [done|].
  by destruct (feed_queue s).
Qed.

Lemma feeder_finish_streamer (fed : bool) (now : Q) (s : state) :
  streamer_proc (feeder_finish fed now s) = streamer_proc s.
Proof.
  unfold feeder_finish. destruct (feeding s) as [[path h]|]; [|done].
  by destruct fed.
Qed.

Lemma queue_clip_unbuffered (e : queue_env) (path : string) (s : state) :
  live_unbuffered s -> live_unbuffered (queue_clip e path s).
Proof.
  unfold live_unbuffered, queue_clip. intros Hs.
  destruct (streamer_proc s) as [proc|] eqn:Hp.
  - case_decide.
    + destruct (put_timed_out e); [apply recover_streamer_unbuffered|].
      fields. rewrite feeder_take_prebuffer, feeder_finish_prebuffer.
      intros _. by apply Hs.
    + fields. intros _. by apply Hs.
  - fields. case_decide.
    + unfold start_streamer_and_flush, start_music. by fields.
    + fields. by rewrite Hp.
Qed.

Lemma enqueue_unbuffered (e : queue_env) (r : rendered) :
  live_unbuffered (rendered_state r) -> live_unbuffered (state_of (enqueue e r)).
Proof. destruct r; simpl; try done. apply queue_clip_unbuffered. Qed.

Lemma after_phase_unbuffered (next : pc) (re : recovery_env) (o : outcome) :
  live_unbuffered (state_of o) -> live_unbuffered (after_phase next re o).2.
Proof.
  destruct o; simpl; [done|]. intros _. apply recover_streamer_unbuffered.
Qed.

Lemma sign_off_streamer (e : head_env) (s : state) :
  streamer_proc (state_of (sign_off e s))
  = (if head_streamer_alive e then None else streamer_proc s).
Proof.
  unfold sign_off, mkfifo, stop_music, bind. fields.
  destruct (music_thread s); fields;
    destruct (streamer_proc s) eqn:Hproc, (head_streamer_alive e); fields;
    destruct (head_mkfifo_ok e); cbn [state_of]; fields;
    try destruct (Clock.wait_for_broadcast (clock_later e)); fields;
    rewrite ?Hproc; done.
Qed.

Lemma loop_head_unbuffered (e : head_env) (s : state) :
  live_unbuffered s -> live_unbuffered (loop_head e s).2.
Proof.
  intros Hs. unfold loop_head.
  assert (Hso : live_unbuffered (state_of
            (if Clock.is_on_air (clock_now e) then Ok s else sign_off e s))).
  { destruct (Clock.is_on_air _); [done|].
    unfold live_unbuffered.
    rewrite sign_off_prebuffer, sign_off_streamer.
    destruct (head_streamer_alive e); [done|apply Hs]. }
  destruct (if Clock.is_on_air (clock_now e) then Ok s else sign_off e s);
    simpl in *; [|apply recover_streamer_unbuffered].
  destruct (_ && _); simpl; [apply recover_streamer_unbuffered|done].
Qed.

Lemma step_unbuffered (cfg : config) (bumper_files : list media)
    (st st' : pc * state) :
  step cfg bumper_files st st' ->
  live_unbuffered st.2 -> live_unbuffered st'.2.
Proof.
  intros Hstep Hs.
  destruct Hstep as [e s|s Hfull|s Hfree|e re s|e re s|p s|fed now p s];
    simpl in *.
  - by apply loop_head_unbuffered.
  - done.
  - done.
  - apply after_phase_unbuffered, enqueue_unbuffered. unfold live_unbuffered.
    by rewrite render_bumper_step_prebuffer, render_bumper_step_streamer.
  - apply after_phase_unbuffered, enqueue_unbuffered. unfold live_unbuffered.
    by rewrite render_clip_step_prebuffer, render_clip_step_streamer.
  - unfold live_unbuffered.
    by rewrite feeder_take_prebuffer, feeder_take_streamer.
  - unfold live_unbuffered.
    by rewrite feeder_finish_prebuffer, feeder_finish_streamer.
Qed.

(** One sample iteration as steps of the loop. *)
Lemma sample_iteration (now : Q) (s : state) :
  loop_head (sample_head_env now) s = (AtGuard, s) ->
  count_staging_files s < MAX_STAGING_FILES ->
  bumper_phase sample_cfg sample_bumpers (sample_bumper_env now) s
  = Ok (sample_bumper_part now s) ->
  clip_phase sample_cfg sample_clip_env (sample_bumper_part now s)
  = Ok (sample_clip_part (sample_bumper_part now s)) ->
  rtc (step sample_cfg sample_bumpers)
    (AtTop, s) (AtTop, sample_clip_part (sample_bumper_part now s)).
Proof.
  intros Hhead Hfree Hb Hc.
  eapply rtc_l; [apply (step_head _ _ (sample_head_env now))|].
  rewrite Hhead.
  eapply rtc_l; [by apply step_guard_pass|].
  eapply rtc_l;
    [apply (step_bumper _ _ (sample_bumper_env now) plain_recovery)|].
  rewrite Hb. cbn [after_phase].
  eapply rtc_l; [apply (step_clip _ _ sample_clip_env plain_recovery)|].
  rewrite Hc. cbn [after_phase]. apply rtc_refl.
Qed.

(** The sample run of three iterations, as a run of the loop. *)
Lemma sample_run : reachable sample_cfg sample_bumpers clean0 (AtTop, clean3).
Proof.
  unfold reachable.
  etrans; [apply (sample_iteration 100 clean0)|];
    [vm_compute; reflexivity|vm_compute; lia|vm_compute; reflexivity..|].
  etrans; [apply (sample_iteration 110 clean1)|];
    [vm_compute; reflexivity|vm_compute; lia|vm_compute; reflexivity..|].
  apply (sample_iteration 120 clean2);
    [vm_compute; reflexivity|vm_compute; lia|vm_compute; reflexivity..].
Qed.

(** X20. Started in pre-buffer mode, the loop never holds an encoder handle
    and pre-buffered fragments at once, the feeder thread interleaved:
    fragments rendered while the encoder runs go to the feeder queue, and
    whatever clears the handle short of a sign-off empties the pre-buffer
    too. *)
Theorem reachable_live_unbuffered (cfg : config) (bumper_files : list media)
    (found : gset string) (started : Q) (st : pc * state) :
  reachable cfg bumper_files (initial_state found started) st ->
  streamer_proc st.2 = None \/ prebuffer st.2 = [].
Proof.
  intros Hreach.
  assert (Hlive : live_unbuffered st.2).
  { unfold reachable in Hreach. revert st Hreach.
    apply (rtc_ind_r (fun st => live_unbuffered st.2)
             (AtTop, initial_state found started)); [done|].
    intros y z _ Hstep IH. by eapply step_unbuffered. }
  unfold live_unbuffered in Hlive.
  destruct (streamer_proc st.2); [right; by apply Hlive|by left].
Qed.

Lemma reachable_live_unbuffered_witness :
  reachable sample_cfg sample_bumpers (initial_state ∅ 10) (AtTop, clean3) /\
  streamer_proc clean3 = Some 7 /\
  (streamer_proc (AtTop, clean3).2 = None \/ prebuffer (AtTop, clean3).2 = []).
Proof.
  split; [exact sample_run|]. split; [vm_compute; reflexivity|].
  apply (reachable_live_unbuffered sample_cfg sample_bumpers ∅ 10
           (AtTop, clean3)).
  exact sample_run.
Defined.

(** *** Every render writes a file of its own *)

Lemma render_clip_cmd_last (video : video_cfg) (bug : option string)
    (path_exists : string -> bool) (clip_path : string)
    (clip_start clip_dur : Q) (needs_loop : bool) (effects : list effect)
    (output_path : string) (ts_offset speed : Q) :
  last (render_clip_cmd video bug path_exists clip_path clip_start clip_dur
          needs_loop effects output_path ts_offset speed)
  = Some output_path.
Proof. unfold render_clip_cmd. by rewrite !last_app. Qed.

Lemma render_overlay_clip_cmd_last (video : video_cfg) (bug : option string)
    (path_exists : string -> bool)
    (clip1_path : string) (clip1_start : Q)
    (clip2_path : string) (clip2_start : Q) (clip_dur : Q)
    (effects : list effect) (blend_mode : string) (output_path : string)
    (ts_offset speed : Q) :
  last (render_overlay_clip_cmd video bug path_exists clip1_path clip1_start
          clip2_path clip2_start clip_dur effects blend_mode output_path
          ts_offset speed)
  = Some output_path.
Proof. unfold render_overlay_clip_cmd. by rewrite !last_app. Qed.

Lemma render_bumper_cmd_last (video : video_cfg) (bumper_path : string)
    (output_path : string) (ts_offset : Q) :
  last (render_bumper_cmd video bumper_path output_path ts_offset)
  = Some output_path.
Proof. unfold render_bumper_cmd. by rewrite !last_app. Qed.

Lemma render_outputs_events (tr : list event) :
  render_outputs (render_events tr) = render_outputs tr.
Proof.
  unfold render_outputs, render_events.
  induction tr as [|ev tr IH]; [done|].
  change (ev :: tr) with ([ev] ++ tr).
  rewrite List.filter_app, !omap_app, IH. f_equal.
  by destruct ev.
Qed.

Lemma quiet_outputs (s s' : state) :
  quiet s s' -> render_outputs (trace s') = render_outputs (trace s).
Proof.
  intros (_ & _ & H).
  by rewrite <- (render_outputs_events (trace s')), H, render_outputs_events.
Qed.

(** The files written so far are those of distinct fragment numbers, none
    above the counter. *)
Lemma numbered_quiet (s s' : state) :
  numbered s -> quiet s s' -> numbered s'.
Proof.
  intros (ks & Hout & Hall & Hnd) Hq. exists ks.
  rewrite (quiet_outputs _ _ Hq). destruct Hq as (-> & _). done.
Qed.

Lemma numbered_same (s s' : state) :
  numbered s -> seq s' = seq s -> trace s' = trace s -> numbered s'.
Proof.
  intros (ks & Hout & Hall & Hnd) Hseq Htr. exists ks.
  by rewrite Htr, Hseq.
Qed.

Lemma numbered_skip (s s' : state) :
  numbered s -> seq s' = S (seq s) -> trace s' = trace s -> numbered s'.
Proof.
  intros (ks & Hout & Hall & Hnd) Hseq Htr. exists ks.
  rewrite Htr, Hseq. split; [done|]. split; [|done].
  eapply Forall_impl; [exact Hall|]. simpl. lia.
Qed.

Lemma numbered_render (s s' : state) (kind : render_kind)
    (cmd : list string) (timeout : nat) :
  numbered s -> seq s' = S (seq s) ->
  trace s' = trace s ++ [EvRender kind cmd timeout] ->
  last cmd = Some (ts_path (S (seq s))) ->
  numbered s'.
Proof.
  intros (ks & Hout & Hall & Hnd) Hseq Htr Hlast.
  exists (ks ++ [S (seq s)]).
  rewrite Htr, Hseq. unfold render_outputs in *.
  rewrite omap_app, Hout, fmap_app. simpl. rewrite Hlast.
  split; [done|]. split.
  - apply Forall_app. split.
    + eapply Forall_impl; [exact Hall|]. simpl. lia.
    + apply Forall_singleton. lia.
  - apply NoDup_app. split; [done|]. split; [|apply NoDup_singleton].
    intros k Hk Hk'. apply list_elem_of_singleton in Hk'. subst k.
    rewrite Forall_forall in Hall. specialize (Hall _ Hk). simpl in Hall. lia.
Qed.

Lemma render_bumper_step_numbered (cfg : config)
    (bumper_files : list media) (e : bumper_env) (s : state) :
  numbered s ->
  numbered (rendered_state (render_bumper_step cfg bumper_files e s)).
Proof.
  intros Hs. unfold render_bumper_step.
  destruct (bumper_due _ _ _ _).
  - destruct (choice _ _) as [[bp bd]|]; [|done]. unfold render_bumper.
    match goal with |- context [run_encoder ?k ?c ?t ?out ?o ?s0] =>
      destruct (run_encoder_spec k c t out o s0)
        as (s2 & -> & Hseq & _ & _ & _ & _ & _ & Htr & _) end.
    fields.
    assert (numbered s2).
    { eapply numbered_render; [exact Hs|exact Hseq|exact Htr|].
      apply render_bumper_cmd_last. }
    destruct (succeeded (bumper_run e)); cbn [rendered_state]; [|done].
    by eapply numbered_same.
  - destruct (Qeq_bool _ _); cbn [rendered_state]; [|done].
    by eapply numbered_same.
Qed.

Lemma render_clip_step_numbered (cfg : config) (e : clip_env) (s : state) :
  numbered s -> numbered (rendered_state (render_clip_step cfg e s)).
Proof.
  intros Hs. unfold render_clip_step.
  destruct (pick_clip _ _ _ (primary e)) as [plan|]; [|done].
  destruct (pick_effects _ _ _ (fx e)) as [effects|]; [|done].
  assert (Hskip : numbered (set_seq (S (seq s)) s))
    by (by eapply numbered_skip).
  destruct (should_overlay _ _ && _).
  - destruct (pick_clip _ _ _ (secondary e)) as [plan2|]; [|done].
    destruct (pick_blend_mode _ _) as [blend|]; [|done].
    destruct (pick_overlay_effects _ _ _ _ _ _) as [effects2|]; [|done].
    unfold render_overlay_clip.
    match goal with |- context [run_encoder ?k ?c ?t ?out ?o ?s0] =>
      destruct (run_encoder_spec k c t out o s0)
        as (s2 & -> & Hseq & _ & _ & _ & _ & _ & Htr & _) end.
    fields.
    assert (numbered s2).
    { eapply numbered_render; [exact Hs|exact Hseq|exact Htr|].
      apply render_overlay_clip_cmd_last. }
    destruct (succeeded (clip_run e)); cbn [rendered_state]; [|done].
    by eapply numbered_same.
  - unfold render_clip.
    match goal with |- context [run_encoder ?k ?c ?t ?out ?o ?s0] =>
      destruct (run_encoder_spec k c t out o s0)
        as (s2 & -> & Hseq & _ & _ & _ & _ & _ & Htr & _) end.
    fields.
    assert (numbered s2).
    { eapply numbered_render; [exact Hs|exact Hseq|exact Htr|].
      apply render_clip_cmd_last. }
    destruct (succeeded (clip_run e)); cbn [rendered_state]; [|done].
    by eapply numbered_same.
Qed.

Lemma step_numbered (cfg : config) (bumper_files : list media)
    (st st' : pc * state) :
  step cfg bumper_files st st' -> numbered st.2 -> numbered st'.2.
Proof.
  intros Hstep Hs.
  destruct Hstep as [e s|s Hfull|s Hfree|e re s|e re s|p s|fed now p s];
    simpl in *.
  - eapply numbered_quiet; [exact Hs|apply quiet_loop_head].
  - eapply numbered_quiet; [exact Hs|by apply quiet_log].
  - done.
  - eapply numbered_quiet; [|apply quiet_after_phase].
    eapply numbered_quiet; [|apply quiet_enqueue].
    by apply render_bumper_step_numbered.
  - eapply numbered_quiet; [|apply quiet_after_phase].
    eapply numbered_quiet; [|apply quiet_enqueue].
    by apply render_clip_step_numbered.
  - eapply numbered_quiet; [exact Hs|apply quiet_feeder_take].
  - eapply numbered_quiet; [exact Hs|apply quiet_feeder_finish].
Qed.

(** X21. In every run of the loop, recoveries, sign-offs and failed renders
    included, no two encoder commands are given the same output file: each
    writes [clip_<k>.ts] for a fragment number [k] of its own, between 1 and
    the counter.  A fragment that waits in the pre-buffer or in the feeder
    queue is never overwritten by a later render. *)
Theorem render_outputs_distinct (cfg : config) (bumper_files : list media)
    (found : gset string) (started : Q) (st : pc * state) :
  reachable cfg bumper_files (initial_state found started) st ->
  NoDup (render_outputs (trace st.2)) /\
  Forall (fun out => exists k, 1 <= k <= seq st.2 /\ out = ts_path k)
    (render_outputs (trace st.2)).
Proof.
  intros Hreach.
  assert (Hnum : numbered st.2).
  { unfold reachable in Hreach. revert st Hreach.
    apply (rtc_ind_r (fun st => numbered st.2)
             (AtTop, initial_state found started)).
    - exists []. repeat split; constructor.
    - intros y z _ Hstep IH. by eapply step_numbered. }
  destruct Hnum as (ks & Hout & Hall & Hnd).
  split.
  - rewrite Hout.
    apply (@NoDup_fmap_2 _ _ ts_path (fun n m => ts_path_inj n m)). done.
  - rewrite Hout. apply Forall_fmap.
    eapply Forall_impl; [exact Hall|]. intros k Hk. by exists k.
Qed.

Lemma render_outputs_distinct_witness :
  reachable sample_cfg sample_bumpers (initial_state ∅ 10) (AtTop, clean3) /\
  render_outputs (trace clean3)
  = ["staging/clip_000001.ts"; "staging/clip_000002.ts";
     "staging/clip_000003.ts"; "staging/clip_000004.ts";
     "staging/clip_000005.ts"] /\
  NoDup (render_outputs (trace (AtTop, clean3).2)) /\
  Forall (fun out => exists k, 1 <= k <= seq (AtTop, clean3).2 /\
                               out = ts_path k)
    (render_outputs (trace (AtTop, clean3).2)).
Proof.
  split; [exact sample_run|]. split; [vm_compute; reflexivity|].
  apply (render_outputs_distinct sample_cfg sample_bumpers ∅ 10
           (AtTop, clean3)).
  exact sample_run.
Defined.


(** *** The staging guard with nothing left to feed *)

(** A fragment that the feeder still holds is unlinked when its feed is
    over, and then lets the loop pass a guard that was just full. *)
Lemma held_fragment_releases_guard (cfg : config)
    (bumper_files : list media) (fed : bool) (now : Q) (s : state)
    (path : string) (proc : nat) :
  feeding s = Some (path, proc) -> path ∈ staging s ->
  count_staging_files s = MAX_STAGING_FILES ->
  rtc (step cfg bumper_files) (AtGuard, s)
    (AtBumper, feeder_finish fed now s).
Proof.
  intros Hheld Hin Hcount.
  eapply rtc_l; [apply (step_feeder_finish _ _ fed now AtGuard)|].
  eapply rtc_l; [apply step_guard_pass|apply rtc_refl].
  unfold feeder_finish, count_staging_files, MAX_STAGING_FILES in *.
  rewrite Hheld.
  assert (Hsize : size (staging s ∖ {[ path ]}) = size (staging s) - 1).
  { rewrite size_difference by set_solver. by rewrite size_singleton. }
  destruct fed; fields; lia.
Qed.

(** X22. With 30 or more [.ts] files staged, nothing in the feeder queue and
    no fragment in the feeder's hands, the loop does not leave the staging
    guard: whatever the feeder thread and the clock do, it sleeps five
    seconds again and again, and nothing else changes.  The fragments that
    wait in the pre-buffer are never flushed and no further fragment is
    rendered. *)
Theorem staging_guard_blocks (cfg : config) (bumper_files : list media)
    (s : state) (st : pc * state) :
  MAX_STAGING_FILES <= count_staging_files s ->
  feed_queue s = [] -> feeding s = None ->
  rtc (step cfg bumper_files) (AtGuard, s) st ->
  exists n, st = (AtGuard, Nat.iter n (log (EvSleep 5)) s).
Proof.
  intros Hfull Hq Hidle Hrun.
  assert (Hn : forall n,
             staging (Nat.iter n (log (EvSleep 5)) s) = staging s /\
             feed_queue (Nat.iter n (log (EvSleep 5)) s) = [] /\
             feeding (Nat.iter n (log (EvSleep 5)) s) = None).
  { intros n. induction n as [|n IH]; [done|].
    change (Nat.iter (S n) (log (EvSleep 5)) s)
      with (log (EvSleep 5) (Nat.iter n (log (EvSleep 5)) s)).
    by fields. }
  revert st Hrun.
  apply (rtc_ind_r
           (fun st => exists n, st = (AtGuard, Nat.iter n (log (EvSleep 5)) s))
           (AtGuard, s)); [by exists 0|].
  intros y z _ Hstep [n ->].
  destruct (Hn n) as (Hst & Hfq & Hfd).
  inversion Hstep as [| s1 Hfull' | s1 Hfree | | | p s1 | fed now p s1];
    subst.
  - by exists (S n).
  - unfold count_staging_files in *. rewrite Hst in Hfree. lia.
  - exists n. unfold feeder_take. by rewrite Hfd, Hfq.
  - exists n. unfold feeder_finish. by rewrite Hfd.
Qed.

Lemma staging_guard_blocks_witness :
  MAX_STAGING_FILES <= count_staging_files iter2_clip /\
  feed_queue iter2_clip = [] /\ feeding iter2_clip = None /\
  exists n,
    (AtGuard, feeder_finish true 131
                (feeder_take (log (EvSleep 5) iter2_clip)))
    = (AtGuard, Nat.iter n (log (EvSleep 5)) iter2_clip).
Proof.
  assert (H1 : MAX_STAGING_FILES <= count_staging_files iter2_clip)
    by (vm_compute; lia).
  assert (H2 : feed_queue iter2_clip = []) by (vm_compute; reflexivity).
  assert (H3 : feeding iter2_clip = None) by (vm_compute; reflexivity).
  split; [exact H1|]. split; [exact H2|]. split; [exact H3|].
  apply (staging_guard_blocks sample_cfg sample_bumpers iter2_clip
           (AtGuard, feeder_finish true 131
                       (feeder_take (log (EvSleep 5) iter2_clip)))
           H1 H2 H3).
  eapply rtc_l; [by apply step_guard_wait|].
  eapply rtc_l; [apply (step_feeder_take _ _ AtGuard)|].
  eapply rtc_l; [apply (step_feeder_finish _ _ true 131 AtGuard)|].
  apply rtc_refl.
Defined.

(** *** Queueing while the encoder runs *)

Lemma recover_streamer_queue (env : recovery_env) (s : state) :
  feed_queue (recover_streamer env s) = [] \/
  feed_queue (recover_streamer env s) = feed_queue s.
Proof.
  unfold recover_streamer, recovery_try, attempt, bind.
  repeat case_decide; unfold recovery_handler, mkfifo, drain_queue; fields;
    repeat match goal with
           | |- context [if ?b then _ else _] => destruct b; fields
           end;
    try (by left); right;
    unfold stop_music, kill_streamer;
    destruct (streamer_proc s), (streamer_alive env); fields;
    destruct (music_thread s) eqn:Hmus; fields; rewrite ?Hmus; done.
Qed.

Lemma recover_streamer_proc (env : recovery_env) (s : state) :
  streamer_proc (recover_streamer env s) = None.
Proof.
  unfold recover_streamer.
  destruct (recovery_try env s) as [s1|s1] eqn:Htry; fields.
  - by apply (recovery_try_streamer env s).
  - by destruct (recovery_handler_spec env s1).
Qed.

Lemma feeder_finish_queue (fed : bool) (now : Q) (s : state) :
  feeding (feeder_finish fed now s) = None /\
  feed_queue (feeder_finish fed now s) = feed_queue s.
Proof.
  unfold feeder_finish. destruct (feeding s) as [[path h]|] eqn:Hf; [|done].
  by destruct fed.
Qed.

Lemma feeder_take_queue (s : state) :
  feeding s = None -> feed_queue (feeder_take s) = tail (feed_queue s).
Proof.
  intros Hf. unfold feeder_take. rewrite Hf.
  destruct (feed_queue s) as [|item rest] eqn:Hq; fields; [by rewrite Hq|done].
Qed.

(** X23. While the encoder runs and the feeder queue holds at most twenty
    fragments, [queue_clip] keeps it so.  A fragment is appended behind the
    ones queued, with the running encoder's handle; on a full queue the
    oldest is taken by the feeder first, unless the put times out: then the
    recovery runs and the new fragment is not queued at all. *)
Theorem queue_clip_live (e : queue_env) (path : string) (s : state)
    (proc : nat) :
  streamer_proc s = Some proc ->
  length (feed_queue s) <= FEED_QUEUE_MAXSIZE ->
  length (feed_queue (queue_clip e path s)) <= FEED_QUEUE_MAXSIZE /\
  if bool_decide (length (feed_queue s) = FEED_QUEUE_MAXSIZE)
  then if put_timed_out e
       then streamer_proc (queue_clip e path s) = None /\
            prebuffer (queue_clip e path s) = [] /\
            (feed_queue (queue_clip e path s) = [] \/
             feed_queue (queue_clip e path s) = feed_queue s)
       else streamer_proc (queue_clip e path s) = Some proc /\
            feed_queue (queue_clip e path s)
            = tail (feed_queue s) ++ [(path, proc)]
  else queue_clip e path s
       = set_feed_queue (feed_queue s ++ [(path, proc)]) s.
Proof.
  intros Hp Hlen. unfold queue_clip, FEED_QUEUE_MAXSIZE in *. rewrite Hp.
  case_bool_decide as Hfull; case_decide as Hge; try lia.
  - destruct (put_timed_out e).
    + rewrite recover_streamer_proc.
      assert (Hpre : prebuffer (recover_streamer (on_full e) s) = [])
        by (unfold recover_streamer; by fields).
      destruct (recover_streamer_queue (on_full e) s) as [Hq|Hq];
        rewrite Hq; (split; [simpl; lia|]); auto.
    + fields.
      destruct (feeder_finish_queue (feeder_fed e) (feeder_at e) s)
        as [Hidle Hsame].
      rewrite feeder_take_streamer, feeder_finish_streamer, Hp.
      rewrite (feeder_take_queue _ Hidle), Hsame.
      destruct (feed_queue s) as [|item rest]; [simpl in *; lia|].
      rewrite length_app. simpl in *. split; [lia|done].
  - fields. rewrite length_app. simpl. split; [lia|done].
Qed.


Lemma queue_clip_live_witness :
  streamer_proc full_queue = Some 7 /\
  length (feed_queue full_queue) <= FEED_QUEUE_MAXSIZE /\
  length (feed_queue
            (queue_clip (QueueEnv 8 50 true true 0 plain_recovery)
               (ts_path 21) full_queue)) <= FEED_QUEUE_MAXSIZE /\
  if bool_decide (length (feed_queue full_queue) = FEED_QUEUE_MAXSIZE)
  then if put_timed_out (QueueEnv 8 50 true true 0 plain_recovery)
       then streamer_proc
              (queue_clip (QueueEnv 8 50 true true 0 plain_recovery)
                 (ts_path 21) full_queue) = None /\
            prebuffer
              (queue_clip (QueueEnv 8 50 true true 0 plain_recovery)
                 (ts_path 21) full_queue) = [] /\
            (feed_queue
               (queue_clip (QueueEnv 8 50 true true 0 plain_recovery)
                  (ts_path 21) full_queue) = [] \/
             feed_queue
               (queue_clip (QueueEnv 8 50 true true 0 plain_recovery)
                  (ts_path 21) full_queue) = feed_queue full_queue)
       else streamer_proc
              (queue_clip (QueueEnv 8 50 true true 0 plain_recovery)
                 (ts_path 21) full_queue) = Some 7 /\
            feed_queue
              (queue_clip (QueueEnv 8 50 true true 0 plain_recovery)
                 (ts_path 21) full_queue)
            = tail (feed_queue full_queue) ++ [(ts_path 21, 7)]
  else queue_clip (QueueEnv 8 50 true true 0 plain_recovery)
         (ts_path 21) full_queue
       = set_feed_queue (feed_queue full_queue ++ [(ts_path 21, 7)])
           full_queue.
Proof.
  assert (H1 : streamer_proc full_queue = Some 7) by reflexivity.
  assert (H2 : length (feed_queue full_queue) <= FEED_QUEUE_MAXSIZE)
    by (vm_compute; lia).
  split; [exact H1|]. split; [exact H2|].
  exact (queue_clip_live (QueueEnv 8 50 true true 0 plain_recovery)
           (ts_path 21) full_queue 7 H1 H2).
Defined.

(** *** The feeder thread *)

(** A whole pass is what the thread does between two [get]s: from a thread
    that holds no item, taking one and finishing it. *)
Lemma feeder_step_whole_pass (fed : bool) (now : Q) (s : state) :
  feeding s = None ->
  feeder_finish fed now (feeder_take s) = feeder_step fed now s.
Proof.
  intros Hidle. destruct s as [n ts lb sp mt pb fq fd lf st af tr].
  simpl in Hidle. subst fd.
  unfold feeder_finish, feeder_take, feeder_step. simpl.
  destruct fq as [|[path h] rest]; [done|]. by destruct fed.
Qed.

Lemma feeder_run_cons (f : bool * Q) (feeds : list (bool * Q)) (s : state) :
  feeder_run (f :: feeds) s = feeder_run feeds (feeder_step f.1 f.2 s).
Proof. done. Qed.

(** X24. The feeder thread takes the queued fragments oldest first and
    unlinks each one it has taken, whether or not the encoder accepted it:
    after [n] passes the first [n] fragments of the queue are gone from the
    queue and from the staging directory, and no other file is.  The
    heartbeat is the time of the last pass whose write succeeded, and is
    left alone if none did.  The thread touches nothing else. *)
Theorem feeder_run_fifo (feeds : list (bool * Q)) (s : state) :
  feed_queue (feeder_run feeds s) = drop (length feeds) (feed_queue s) /\
  staging (feeder_run feeds s)
  = staging s ∖ list_to_set (take (length feeds) (feed_queue s)).*1 /\
  last_feed_time (feeder_run feeds s)
  = default (last_feed_time s)
      (last (omap (fun f : bool * Q => if f.1 then Some f.2 else None)
               (take (length (feed_queue s)) feeds))) /\
  seq (feeder_run feeds s) = seq s /\
  cumulative_ts (feeder_run feeds s) = cumulative_ts s /\
  prebuffer (feeder_run feeds s) = prebuffer s /\
  streamer_proc (feeder_run feeds s) = streamer_proc s /\
  trace (feeder_run feeds s) = trace s.
Proof.
  revert s. induction feeds as [|[fed now] feeds IH]; intros s.
  - cbn [length feeder_run foldl]. rewrite drop_0, take_0, take_nil. simpl.
    repeat split; try done. set_solver.
  - rewrite feeder_run_cons. cbn [fst snd].
    destruct (IH (feeder_step fed now s))
      as (Hq & Hst & Hlf & Hseq & Hts & Hpre & Hproc & Htr).
    rewrite Hq, Hst, Hlf, Hseq, Hts, Hpre, Hproc, Htr. clear IH.
    unfold feeder_step. cbn [fst snd length].
    destruct (feed_queue s) as [|[path h] rest] eqn:Hqueue.
    + rewrite Hqueue, !drop_nil, !take_nil. simpl.
      repeat split; try done.
    + destruct fed; fields; cbn [drop take length fmap list_fmap];
        (split; [done|]); (split; [set_solver|]); (split; [|done]).
      * match goal with |- context [omap ?g ((true, now) :: ?l)] =>
          change (omap g ((true, now) :: l)) with (now :: omap g l) end.
        rewrite last_cons.
        match goal with |- context [last ?l] => by destruct (last l) end.
      * done.
Qed.
End RunProps.

(** ** The decoders of the music thread *)
Section DecoderProps.
Import Clips Traces.

Lemma decoder_alive_app (tr1 tr2 : list Music.event) (alive : bool) :
  decoder_alive (tr1 ++ tr2) alive
  = decoder_alive tr1 alive ≫= decoder_alive tr2.
Proof.
  revert alive. induction tr1 as [|ev tr1 IH]; intros alive; [done|].
  destruct ev, alive; simpl; by rewrite ?IH.
Qed.

Lemma pump_decoder (ios : list Music.chunk_io) :
  decoder_alive (Music.pump ios).1 true = Some true.
Proof.
  induction ios as [|io ios IH]; [done|]. simpl.
  destruct (Music.stop_seen io); [done|].
  destruct (Music.write_ok io); simpl; [exact IH|done].
Qed.

Lemma play_decoder (current : string)
    (tracks : list (media * Music.track_env)) :
  decoder_alive (Music.play current tracks).1 false = Some false.
Proof.
  induction tracks as [|[track te] tracks IH]; [done|]. simpl.
  destruct (Music.stop_before te); [done|].
  destruct (negb _); [done|].
  destruct (Music.pump (Music.decoder_output te)).2; simpl;
    rewrite !decoder_alive_app, pump_decoder; simpl;
    rewrite ?decoder_alive_app; done.
Qed.

Lemma supervise_decoder (rounds : list Music.round) :
  decoder_alive (Music.supervise rounds).1 false = Some false.
Proof.
  induction rounds as [|r rounds IH]; [done|].
  destruct r as [stop stop_in_wait|stop name tracks]; simpl.
  - destruct stop; [done|]. by destruct stop_in_wait.
  - destruct stop; [done|].
    destruct (Music.play name tracks).2; simpl;
      rewrite ?decoder_alive_app, play_decoder; done.
Qed.

(** X25. The music thread runs one decoder at a time and leaves none
    behind: a decoder is spawned only when none is alive, chunks are written
    and a decoder is killed only while one is, and each is reaped before the
    next is spawned, before a reshuffle or a 30 s wait, and before the FIFO
    is closed, also when the stop event or a broken FIFO ends the track. *)
Theorem music_worker_decoders (fifo_opens : bool)
    (rounds : list Music.round) :
  decoder_alive (Music.music_worker fifo_opens rounds).1 false = Some false.
Proof.
  unfold Music.music_worker. destruct fifo_opens; [|done].
  pose proof (supervise_decoder rounds) as Hs.
  destruct (Music.supervise rounds).2; simpl.
  - by rewrite decoder_alive_app, Hs.
  - exact Hs.
Qed.
End DecoderProps.

(** ** Repeated effects *)
Section RepeatProps.
Import Effects.

Lemma filter_all {A} (f : A -> bool) (l : list A) :
  Forall (fun x => f x = true) l -> List.filter f l = l.
Proof.
  induction 1 as [|x l Hx _ IH]; [done|]. simpl. by rewrite Hx, IH.
Qed.

(** Nothing of the light table is blocked as long as only light effects
    have been chosen. *)
Lemma eligible_light (names : gset string) :
  names ⊆ list_to_set (effect_names LIGHT_EFFECTS) ->
  eligible LIGHT_EFFECTS names = LIGHT_EFFECTS.
Proof.
  intros Hsub. unfold eligible. rewrite filter_all; [done|].
  apply Forall_forall. intros e He. apply bool_decide_eq_true.
  intros Hb. apply blocked_spec in Hb as (pair & Hp & Hne & Hx & Hn).
  unfold INCOMPATIBLE_PAIRS in Hp. apply list_elem_of_singleton in Hp.
  subst pair.
  assert (Hname : name e = "high_saturation").
  { unfold LIGHT_EFFECTS in He.
    repeat (apply elem_of_cons in He as [-> | He]; [set_solver|]).
    by apply elem_of_nil in He. }
  apply Hne. apply set_eq. intros y. split; [|set_solver].
  intros [Hy Hpair]%elem_of_intersection.
  apply elem_of_union in Hpair as [Hy'|Hy'];
    apply elem_of_singleton in Hy'; subst y.
  - apply Hsub in Hy. vm_compute in Hy. set_solver.
  - congruence.
Qed.

Lemma pick_loop_repeats (lw mt : Q) (rolls : nat -> Q) (picks : nat -> nat)
    (k : nat) (e : effect) (n i : nat) (st : pick_state) :
  (forall j, (rolls j < lw)%Q) -> (forall j, picks j = k) ->
  choice k LIGHT_EFFECTS = Some e ->
  chosen_names st ⊆ list_to_set (effect_names LIGHT_EFFECTS) ->
  exists st', pick_loop lw mt rolls picks n i st = Some st' /\
              chosen st' = chosen st ++ replicate n e.
Proof.
  intros Hroll Hpick Hch. revert i st.
  induction n as [|n IH]; intros i st Hsub; simpl.
  - exists st. by rewrite app_nil_r.
  - unfold pick_step, rolled_tier.
    assert (Hlt : Qltb (rolls i) lw = true) by (by apply Qltb_lt).
    rewrite Hlt. cbn [capped_tier pool_of].
    rewrite eligible_light, Hpick, Hch by done.
    edestruct (IH (S i)) as (st' & -> & Hst'); [|exists st'; split; [done|]].
    + cbn [chosen_names]. apply union_subseteq. split; [done|].
      apply singleton_subseteq_l, elem_of_list_to_set.
      apply list_elem_of_fmap_2. by eapply choice_elem.
    + rewrite Hst'. cbn [chosen replicate]. by rewrite <- app_assoc.
Qed.

(** X26. [pick_effects] does not keep an effect from being chosen again:
    whenever every roll falls in the light tier and every choice draws the
    same index, the list returned is that one light effect, as many times
    as effects were asked for. *)
Theorem pick_effects_repeats (n k : nat) (daypart : option string)
    (d : draws) (e : effect) :
  (forall i, (rolls d i < (tier_weights (get_profile daypart)).1.1)%Q) ->
  (forall i, picks d i = k) ->
  choice k LIGHT_EFFECTS = Some e ->
  pick_effects n n daypart d = Some (replicate n e).
Proof.
  intros Hroll Hpick Hch. unfold pick_effects, randint.
  case_decide; [|lia].
  replace (n + count_draw d mod (n - n + 1)) with n.
  2:{ replace (n - n + 1) with 1 by lia. rewrite Nat.mod_1_r. lia. }
  edestruct (pick_loop_repeats _
               ((tier_weights (get_profile daypart)).1.1 +
                (tier_weights (get_profile daypart)).1.2)%Q
               (rolls d) (picks d) k e n 0 (PickState [] ∅ 0 0) Hroll Hpick Hch)
    as (st' & -> & Hst'); [set_solver|].
  simpl. by rewrite Hst'.
Qed.

Lemma pick_effects_repeats_witness :
  (forall i, (rolls (Draws 0%nat (fun _ => 0%Q) (fun _ => 5%nat)) i
              < (tier_weights (get_profile (Some "overnight"))).1.1)%Q) /\
  (forall i, picks (Draws 0 (fun _ => 0%Q) (fun _ => 5)) i = 5) /\
  choice 5 LIGHT_EFFECTS = Some (Effect "vignette" "vignette=PI/4") /\
  pick_effects 3 3 (Some "overnight") (Draws 0 (fun _ => 0%Q) (fun _ => 5))
  = Some (replicate 3 (Effect "vignette" "vignette=PI/4")).
Proof.
  assert (H1 : forall i, (rolls (Draws 0%nat (fun _ => 0%Q) (fun _ => 5%nat)) i
              < (tier_weights (get_profile (Some "overnight"))).1.1)%Q)
    by (intros i; reflexivity).
  assert (H2 : forall i, picks (Draws 0 (fun _ => 0%Q) (fun _ => 5)) i = 5)
    by (intros i; reflexivity).
  assert (H3 : choice 5 LIGHT_EFFECTS
               = Some (Effect "vignette" "vignette=PI/4")) by reflexivity.
  split; [exact H1|]. split; [exact H2|]. split; [exact H3|].
  exact (pick_effects_repeats 3 5 (Some "overnight")
           (Draws 0 (fun _ => 0%Q) (fun _ => 5))
           (Effect "vignette" "vignette=PI/4") H1 H2 H3).
Defined.
End RepeatProps.
